(** * gh-identity: resolution, binding store, gitconfig synchronizer and
    shell projection, embedded in Rocq.

    Go strings are byte strings; they are modelled as [list ascii] (one
    [ascii] per byte).  Errors are an explicit result type.  The process
    environment ($HOME, the working directory, the configuration
    variables) is an explicit record: every function that reads it takes
    it as an argument. *)

From Stdlib Require Import String Ascii List Bool Arith ZArith Lia.
Import ListNotations.
Open Scope list_scope.

(* ------------------------------------------------------------------ *)
(** ** Go strings *)

Module GoString.

Definition gstr := list ascii.

(** A Go string literal. *)
Definition lit (s : string) : gstr := list_ascii_of_string s.

(** The double quote byte. *)
Definition dq : ascii := "034"%char.
Definition nl : ascii := "010"%char.
Definition cr : ascii := "013"%char.

Definition ascii_eqb (a b : ascii) : bool :=
  if ascii_dec a b then true else false.

Definition streqb (a b : gstr) : bool :=
  if list_eq_dec ascii_dec a b then true else false.

(** [strings.HasPrefix s p] *)
Fixpoint HasPrefix (s p : gstr) {struct p} : bool :=
  match p with
  | [] => true
  | c :: p' =>
      match s with
      | [] => false
      | d :: s' => ascii_eqb c d && HasPrefix s' p'
      end
  end.

(** [strings.HasSuffix s p] *)
Definition HasSuffix (s p : gstr) : bool := HasPrefix (rev s) (rev p).

(** [strings.TrimSuffix s suf] *)
Definition TrimSuffix (s suf : gstr) : gstr :=
  if HasSuffix s suf then firstn (length s - length suf) s else s.

(** [strings.Index s sub]: the first position of [sub] in [s]. *)
Fixpoint index_from (s sub : gstr) (i : nat) : option nat :=
  if HasPrefix s sub then Some i
  else match s with
       | [] => None
       | _ :: s' => index_from s' sub (S i)
       end.

Definition Index (s sub : gstr) : option nat := index_from s sub 0.

(** [strings.Contains s sub] *)
Definition Contains (s sub : gstr) : bool :=
  match Index s sub with Some _ => true | None => false end.

(** [strings.Count s sep] for a one-byte separator. *)
Definition CountByte (s : gstr) (c : ascii) : nat :=
  length (filter (ascii_eqb c) s).

(** [strings.Join elems sep] *)
Fixpoint JoinWith (sep : gstr) (l : list gstr) : gstr :=
  match l with
  | [] => []
  | [x] => x
  | x :: l' => x ++ sep ++ JoinWith sep l'
  end.

(** [s[i:j]] *)
Definition slice (s : gstr) (i j : nat) : gstr := firstn (j - i) (skipn i s).

(** [strings.TrimSpace]: removes leading and trailing white space as
    defined by [unicode.IsSpace], decoding UTF-8: the six ASCII spaces,
    U+0085, U+00A0, U+1680, U+2000..U+200A, U+2028, U+2029, U+202F, U+205F
    and U+3000.  Each is given by its UTF-8 encoding; an encoding starts
    with a rune-start byte, so at either end of a string it is decoded as
    that rune exactly when the string starts (ends) with these bytes. *)
Definition b (n : nat) : ascii := ascii_of_nat n.

Definition space_runes : list gstr :=
  [ [b 9]; [b 10]; [b 11]; [b 12]; [b 13]; [b 32];
    [b 194; b 133]; [b 194; b 160];
    [b 225; b 154; b 128] ] ++
  map (fun k => [b 226; b 128; b (128 + k)]) (seq 0 11) ++
  [ [b 226; b 128; b 168]; [b 226; b 128; b 169]; [b 226; b 128; b 175];
    [b 226; b 129; b 159]; [b 227; b 128; b 128] ].

(** Length of the space rune the byte string starts with, if any. *)
Fixpoint space_prefix (runes : list gstr) (s : gstr) : option nat :=
  match runes with
  | [] => None
  | r :: rs => if HasPrefix s r then Some (length r) else space_prefix rs s
  end.

(** Drop leading runes of [runes] (fuel: the length of the string). *)
Fixpoint strip_left (runes : list gstr) (fuel : nat) (s : gstr) : gstr :=
  match fuel with
  | 0 => s
  | S f =>
      match space_prefix runes s with
      | Some (S k) => strip_left runes f (skipn (S k) s)
      | _ => s
      end
  end.

(** [strings.TrimLeftFunc s unicode.IsSpace] *)
Definition TrimLeftSpace (s : gstr) : gstr :=
  strip_left space_runes (length s) s.

(** [strings.TrimRightFunc s unicode.IsSpace], on the reversed string. *)
Definition TrimRightSpace (s : gstr) : gstr :=
  rev (strip_left (map (@rev ascii) space_runes) (length s) (rev s)).

Definition TrimSpace (s : gstr) : gstr := TrimRightSpace (TrimLeftSpace s).

End GoString.
Import GoString.

(* ------------------------------------------------------------------ *)
(** ** Errors and the environment *)

Inductive error :=
| ErrHome                 (* resolving home directory: $HOME is not defined *)
| ErrAbs                  (* resolving absolute path: getwd failed *)
| ErrNoBinding (p : gstr) (* no binding found for %q *)
| ErrProfileNotFound (n : gstr)
| ErrTooLong              (* bufio.Scanner: token too long *)
| ErrNotExist             (* os.Open: file does not exist *)
| ErrPermission.          (* os: permission denied *)

Inductive result (A : Type) :=
| Ok (a : A)
| Err (e : error).
Arguments Ok {A} a.
Arguments Err {A} e.

Definition bind {A B} (r : result A) (k : A -> result B) : result B :=
  match r with Ok a => k a | Err e => Err e end.

Notation "x <- r ;; k" := (bind r (fun x => k))
  (at level 61, r at next level, right associativity).

(** The parts of the process environment the code reads. *)
Record Env := mkEnv {
  HOME : gstr;                   (* os.Getenv("HOME") *)
  Getwd : option gstr;           (* os.Getwd(), None when it fails *)
  GH_IDENTITY_CONFIG_DIR : gstr;
  XDG_CONFIG_HOME : gstr
}.

(** [os.UserHomeDir] on Unix. *)
Definition UserHomeDir (env : Env) : result gstr :=
  if streqb (HOME env) [] then Err ErrHome else Ok (HOME env).

(* ------------------------------------------------------------------ *)
(** ** path/filepath (Unix) *)

Module Filepath.

Definition slash : ascii := "/"%char.

(** Split on '/', keeping empty elements. *)
Fixpoint split_aux (cur : gstr) (s : gstr) : list gstr :=
  match s with
  | [] => [rev cur]
  | c :: s' =>
      if ascii_eqb c slash then rev cur :: split_aux [] s'
      else split_aux (c :: cur) s'
  end.

Definition split (s : gstr) : list gstr := split_aux [] s.

(** One element of the lexical processing of [filepath.Clean]: the stack
    holds the kept elements, last one first. *)
Definition clean_elem (rooted : bool) (stk : list gstr) (e : gstr) :
    list gstr :=
  if streqb e [] then stk
  else if streqb e (lit ".") then stk
  else if streqb e (lit "..") then
    match stk with
    | top :: stk' => if streqb top (lit "..") then e :: stk
                     else stk'
    | [] => if rooted then [] else [e]
    end
  else e :: stk.

(** [filepath.Clean]: the shortest equivalent path by purely lexical
    processing (rule set of Plan 9 / Go: drop empty and "." elements,
    cancel ".." against a preceding element, drop ".." at the root). *)
Definition Clean (p : gstr) : gstr :=
  let rooted := HasPrefix p [slash] in
  let stk := fold_left (clean_elem rooted) (split p) [] in
  let body := JoinWith [slash] (rev stk) in
  let out := if rooted then slash :: body else body in
  if streqb out [] then lit "." else out.

Definition IsAbs (p : gstr) : bool := HasPrefix p [slash].

(** [filepath.Join(a, b)]: the elements from the first non-empty one,
    joined by '/' and cleaned; the empty string when all are empty. *)
Definition Join (a c : gstr) : gstr :=
  if negb (streqb a []) then Clean (a ++ [slash] ++ c)
  else if negb (streqb c []) then Clean c
  else [].

(** [filepath.Abs] *)
Definition Abs (env : Env) (p : gstr) : result gstr :=
  if IsAbs p then Ok (Clean p)
  else match Getwd env with
       | None => Err ErrAbs
       | Some wd => Ok (Join wd p)
       end.

End Filepath.
Import Filepath.

(* ------------------------------------------------------------------ *)
(** ** internal/config: bindings *)

Module Config.

(** [ExpandPath] resolves ~ and cleans a path for storage. *)
Definition ExpandPath (env : Env) (p : gstr) : result gstr :=
  p <- (if HasPrefix p (lit "~/") || streqb p (lit "~") then
          home <- UserHomeDir env ;;
          Ok (Join home (skipn 1 p))
        else Ok p) ;;
  abs <- Abs env p ;;
  Ok (Clean abs).

Record Binding := mkBinding {
  Path : gstr;
  Profile : gstr
}.

(** The store is [BindingsFile.Bindings], an ordered list. *)
Definition Bindings := list Binding.

(** The scan shared by [AddBinding], [RemoveBinding] and [FindBinding]:
    the first index whose stored path expands to [expanded]; a stored path
    that fails to expand is skipped ([continue]). *)
Fixpoint scan (env : Env) (expanded : gstr) (bs : Bindings) (i : nat)
    : option nat :=
  match bs with
  | [] => None
  | b :: bs' =>
      match ExpandPath env (Path b) with
      | Err _ => scan env expanded bs' (S i)
      | Ok e => if streqb e expanded then Some i
                else scan env expanded bs' (S i)
      end
  end.

(** [bf.Bindings[i].Profile = profile] *)
Fixpoint set_profile_at (i : nat) (profile : gstr) (bs : Bindings) : Bindings :=
  match bs, i with
  | [], _ => []
  | b :: bs', 0 => mkBinding (Path b) profile :: bs'
  | b :: bs', S i' => b :: set_profile_at i' profile bs'
  end.

(** [AddBinding] adds or replaces a binding for the given path. *)
Definition AddBinding (env : Env) (bs : Bindings) (dirPath profile : gstr)
    : result Bindings :=
  expanded <- ExpandPath env dirPath ;;
  match scan env expanded bs 0 with
  | Some i => Ok (set_profile_at i profile bs)
  | None => Ok (bs ++ [mkBinding expanded profile])
  end.

(** [RemoveBinding] removes the binding for the given path:
    [append(bf.Bindings[:i], bf.Bindings[i+1:]...)]. *)
Definition RemoveBinding (env : Env) (bs : Bindings) (dirPath : gstr)
    : result Bindings :=
  expanded <- ExpandPath env dirPath ;;
  match scan env expanded bs 0 with
  | Some i => Ok (firstn i bs ++ skipn (S i) bs)
  | None => Err (ErrNoBinding dirPath)
  end.

(** [FindBinding] returns the profile bound to the given path, or the empty string. *)
Definition FindBinding (env : Env) (bs : Bindings) (dirPath : gstr) : gstr :=
  match ExpandPath env dirPath with
  | Err _ => []
  | Ok expanded =>
      match scan env expanded bs 0 with
      | Some i => match nth_error bs i with
                  | Some b => Profile b
                  | None => []
                  end
      | None => []
      end
  end.

End Config.

(* ------------------------------------------------------------------ *)
(** ** internal/resolve *)

Module Resolve.
Import Config.

Record Result := mkResult {
  RProfile : gstr;    (* Profile: profile name, or empty if no match *)
  BoundPath : gstr;   (* the binding path that matched, or empty *)
  IsDefault : bool    (* the default profile was used *)
}.

(** [isSubpath] reports whether child is equal to or a subdirectory of
    parent. *)
Definition isSubpath (child parent : gstr) : bool :=
  let child := Clean child in
  let parent := Clean parent in
  if streqb child parent then true
  else HasPrefix child (parent ++ [slash]).

(** [strings.Count(bPath, string(filepath.Separator))] *)
Definition depth (p : gstr) : Z := Z.of_nat (CountByte p slash).

(** Loop state: [bestMatch], [bestPath], [bestDepth]. *)
Record Best := mkBest { bestMatch : gstr; bestPath : gstr; bestDepth : Z }.

(** One iteration of the loop over [bindings.Bindings]. *)
Definition step (env : Env) (expanded : gstr) (acc : Best) (b : Binding)
    : Best :=
  match ExpandPath env (Path b) with
  | Err _ => acc
  | Ok bPath =>
      if isSubpath expanded bPath then
        let d := depth bPath in
        if (bestDepth acc <? d)%Z then mkBest (Profile b) (Path b) d
        else acc
      else acc
  end.

(** [ForDirectory] resolves the active profile for the given directory. *)
Definition ForDirectory (env : Env) (dir : gstr) (bindings : Bindings)
    (defaultProfile : gstr) : result Result :=
  expanded <- ExpandPath env dir ;;
  let best := fold_left (step env expanded) bindings (mkBest [] [] (-1)) in
  if negb (streqb (bestMatch best) []) then
    Ok (mkResult (bestMatch best) (bestPath best) false)
  else
    Ok (mkResult defaultProfile [] (negb (streqb defaultProfile []))).

End Resolve.

(* ------------------------------------------------------------------ *)
(** ** internal/gitconfig: the global gitconfig as a sequence of lines *)

Module Gitconfig.

(** A file at a fixed path: [None] when it does not exist, otherwise its
    bytes. *)
Definition File := option gstr.

Definition marker : gstr := lit "# managed by gh-identity".

(** Split on '\n', keeping empty elements. *)
Fixpoint split_nl_aux (cur : gstr) (s : gstr) : list gstr :=
  match s with
  | [] => [rev cur]
  | c :: s' =>
      if ascii_eqb c nl then rev cur :: split_nl_aux [] s'
      else split_nl_aux (c :: cur) s'
  end.

(** [bufio.MaxScanTokenSize] *)
Definition MaxScanTokenSize : nat := 64 * 1024.

(** [dropCR] of [bufio.ScanLines]: drop one terminal '\r'. *)
Definition dropCR (l : gstr) : gstr :=
  match rev l with
  | c :: r => if ascii_eqb c cr then rev r else l
  | [] => l
  end.

(** The raw lines [bufio.ScanLines] cuts a content into: the pieces
    between '\n's, without the empty piece after a final '\n'. *)
Definition raw_lines (content : gstr) : list gstr :=
  let pieces := split_nl_aux [] content in
  match rev pieces with
  | [] :: r => rev r
  | _ => pieces
  end.

(** [bufio.Scanner] with [ScanLines]: a line that does not fit in the
    maximal buffer together with its terminator stops the scan with
    [ErrTooLong]; otherwise each token is the line without a trailing
    '\r'. *)
Definition scanLines (content : gstr) : result (list gstr) :=
  let raws := raw_lines content in
  if existsb (fun l => MaxScanTokenSize <? S (length l)) raws
  then Err ErrTooLong
  else Ok (map dropCR raws).

(** [readLines] on the content of the file ([None]: the file does not
    exist); the other failures of [os.Open] are added by
    [Profiles.readLines_io]. *)
Definition readLines (f : File) : result (list gstr) :=
  match f with
  | None => Err ErrNotExist
  | Some content => scanLines content
  end.

(** [writeLines]: the content [strings.Join(lines, "\n") + "\n"]
    written; the failure of [os.WriteFile] is added by
    [Profiles.writeLines_io]. *)
Definition writeLines (lines : list gstr) : File :=
  Some (JoinWith [nl] lines ++ [nl]).

(** [dirPath] with a trailing '/' ensured. *)
Definition slashed (dirPath : gstr) : gstr :=
  if HasSuffix dirPath (lit "/") then dirPath else dirPath ++ lit "/".

(** [fmt.Sprintf("[includeIf \"gitdir:%s\"]", dirPath)] *)
Definition directive_of (dirPath : gstr) : gstr :=
  lit "[includeIf " ++ [dq] ++ lit "gitdir:" ++ dirPath ++ [dq] ++ lit "]".

(** [fmt.Sprintf("    path = %s", fragmentPath)] *)
Definition pathLine_of (fragmentPath : gstr) : gstr :=
  lit "    path = " ++ fragmentPath.

(** The test of [AddIncludeIf]'s loop: the trimmed line, with or without
    the marker suffix, is the directive. *)
Definition add_matches (directive line : gstr) : bool :=
  streqb (TrimSuffix (TrimSpace line) ([" "%char] ++ marker)) directive.

Definition is_path_line (line : gstr) : bool :=
  HasPrefix (TrimSpace line) (lit "path = ").

(** The loop of [AddIncludeIf]: at the first directive line followed by a
    [path = ] line, replace that line. *)
Fixpoint update_path (directive pathLine : gstr) (lines : list gstr)
    : option (list gstr) :=
  match lines with
  | l1 :: ((l2 :: rest) as tl) =>
      if add_matches directive l1 && is_path_line l2
      then Some (l1 :: pathLine :: rest)
      else option_map (cons l1) (update_path directive pathLine tl)
  | _ => None
  end.

(** [lines, err := readLines(path); if err != nil && !os.IsNotExist(err)
    { return err }]: a missing file reads as no lines. *)
Definition read_existing (f : File) : result (list gstr) :=
  match readLines f with
  | Err ErrNotExist => Ok []
  | r => r
  end.

(** [AddIncludeIf] on the content of the global gitconfig: the new
    content and the returned error ([Profiles.AddIncludeIf_io] adds the
    failures of the file system). *)
Definition AddIncludeIf (f : File) (dirPath fragmentPath : gstr)
    : File * result unit :=
  let dirPath := slashed dirPath in
  let directive := directive_of dirPath in
  let pathLine := pathLine_of fragmentPath in
  match read_existing f with
  | Err e => (f, Err e)
  | Ok lines =>
      match update_path directive pathLine lines with
      | Some lines' => (writeLines lines', Ok tt)
      | None =>
          let lines := match rev lines with
                       | last :: _ => if streqb last [] then lines
                                      else lines ++ [[]]
                       | [] => lines
                       end in
          (writeLines (lines ++ [directive ++ [" "%char] ++ marker; pathLine]),
           Ok tt)
      end
  end.

(** The test of [RemoveIncludeIf]'s loop. *)
Definition remove_matches (directive line : gstr) : bool :=
  streqb (TrimSpace (TrimSuffix line ([" "%char] ++ marker))) directive
  || streqb (TrimSpace line) directive.

(** The loop of [RemoveIncludeIf], with its [skip] flag. *)
Fixpoint remove_loop (directive : gstr) (skip : bool) (lines : list gstr)
    : list gstr :=
  match lines with
  | [] => []
  | line :: rest =>
      if remove_matches directive line then remove_loop directive true rest
      else if skip && is_path_line line then remove_loop directive false rest
      else line :: remove_loop directive false rest
  end.

(** Leading blank lines of a list (used on the reversed list). *)
Fixpoint drop_blank (l : list gstr) : list gstr :=
  match l with
  | x :: l' => if streqb x [] then drop_blank l' else l
  | [] => []
  end.

(** [for len(result) > 0 && result[len(result)-1] is empty]: remove trailing
    blank lines. *)
Definition drop_trailing_blank (l : list gstr) : list gstr :=
  rev (drop_blank (rev l)).

(** [RemoveIncludeIf] on the content of the global gitconfig: the new
    content and the returned error ([Profiles.RemoveIncludeIf_io] adds
    the failures of the file system).  A missing file is left missing. *)
Definition RemoveIncludeIf (f : File) (dirPath : gstr) : File * result unit :=
  let directive := directive_of (slashed dirPath) in
  match readLines f with
  | Err ErrNotExist => (f, Ok tt)
  | Err e => (f, Err e)
  | Ok lines =>
      (writeLines (drop_trailing_blank (remove_loop directive false lines)),
       Ok tt)
  end.

(** The body of [ListManagedIncludeIfs]'s loop for one line. *)
Definition managed_dir (line : gstr) : option gstr :=
  let trimmed := TrimSpace line in
  if Contains trimmed marker then
    match Index trimmed (lit "gitdir:") with
    | None => None
    | Some start =>
        match Index (skipn start trimmed) ([dq] ++ lit "]") with
        | None => None
        | Some end_ => Some (slice trimmed (start + 7) (start + end_))
        end
    end
  else None.

(** [ListManagedIncludeIfs] *)
Definition ListManagedIncludeIfs (f : File) : result (list gstr) :=
  match readLines f with
  | Err ErrNotExist => Ok []
  | Err e => Err e
  | Ok lines =>
      Ok (flat_map (fun l => match managed_dir l with
                             | Some d => [d]
                             | None => []
                             end) lines)
  end.

(** Calling [AddIncludeIf] [n] times on the same file. *)
Fixpoint add_n (n : nat) (f : File) (dirPath fragmentPath : gstr) : File :=
  match n with
  | 0 => f
  | S n' => add_n n' (fst (AddIncludeIf f dirPath fragmentPath))
              dirPath fragmentPath
  end.

End Gitconfig.

(* ------------------------------------------------------------------ *)
(** ** internal/hook: the shell projection formatters *)

(** The [%q] verb of [fmt] ([strconv.Quote]) is a parameter [quote] of
    the formatters and of the code that uses them.  [go_quote_ascii]
    below agrees with [strconv.Quote] on strings of ASCII bytes (0x00 ..
    0x7f) and is used only at such strings: Go keeps printable UTF-8
    sequences as they are, which [go_quote_ascii] does not model. *)
Module Quote.

Definition lowerhex (n : nat) : ascii :=
  nth n (lit "0123456789abcdef") "0"%char.

Definition quote_byte (c : ascii) : gstr :=
  let n := nat_of_ascii c in
  if Nat.eqb n 34 then ["\"%char; dq]
  else if Nat.eqb n 92 then ["\"%char; "\"%char]
  else if (32 <=? n) && (n <=? 126) then [c]
  else if Nat.eqb n 7 then lit "\a"
  else if Nat.eqb n 8 then lit "\b"
  else if Nat.eqb n 12 then lit "\f"
  else if Nat.eqb n 10 then lit "\n"
  else if Nat.eqb n 13 then lit "\r"
  else if Nat.eqb n 9 then lit "\t"
  else if Nat.eqb n 11 then lit "\v"
  else ["\"%char; "x"%char; lowerhex (n / 16); lowerhex (n mod 16)].

Definition go_quote_ascii (s : gstr) : gstr :=
  [dq] ++ flat_map quote_byte s ++ [dq].

End Quote.

(** [ShellType] is a string type; [Fish] is "fish", everything else is
    handled by the POSIX branch. *)
Definition ShellType := gstr.
Definition Fish : ShellType := lit "fish".

Section Formatters.

Variable quote : gstr -> gstr.

(** [fmt.Fprintf(b, "set -gx %s %q\n", key, value)] *)
Definition writeFishExport (key value : gstr) : gstr :=
  lit "set -gx " ++ key ++ [" "%char] ++ quote value ++ [nl].

(** [fmt.Fprintf(b, "export %s=%q\n", key, value)] *)
Definition writePosixExport (key value : gstr) : gstr :=
  lit "export " ++ key ++ ["="%char] ++ quote value ++ [nl].

(** [EnvOutput] of the hook that exports a token (formatExports). *)
Record EnvOutputT := mkEnvOutputT {
  T_GHToken : gstr;
  T_GitAuthorName : gstr;
  T_GitAuthorEmail : gstr;
  T_GitCommitterName : gstr;
  T_GitCommitterEmail : gstr;
  T_GHIdentityProfile : gstr;
  T_GHSSHCommand : gstr;   (* optional *)
  T_GitAskPass : gstr      (* optional *)
}.

Definition opt (cond : bool) (s : gstr) : gstr := if cond then s else [].

(** [formatExports] *)
Definition formatExports (shell : ShellType) (env : EnvOutputT) : gstr :=
  let w := if streqb shell Fish then writeFishExport else writePosixExport in
  w (lit "GH_TOKEN") (T_GHToken env) ++
  w (lit "GIT_AUTHOR_NAME") (T_GitAuthorName env) ++
  w (lit "GIT_AUTHOR_EMAIL") (T_GitAuthorEmail env) ++
  w (lit "GIT_COMMITTER_NAME") (T_GitCommitterName env) ++
  w (lit "GIT_COMMITTER_EMAIL") (T_GitCommitterEmail env) ++
  w (lit "GH_IDENTITY_PROFILE") (T_GHIdentityProfile env) ++
  opt (negb (streqb (T_GHSSHCommand env) []))
      (w (lit "GIT_SSH_COMMAND") (T_GHSSHCommand env)) ++
  opt (negb (streqb (T_GitAskPass env) []))
      (w (lit "GIT_ASKPASS") (T_GitAskPass env)).

(** [EnvOutput] of the hook that switches the gh account (formatOutput). *)
Record EnvOutput := mkEnvOutput {
  GHUser : gstr;
  GitAuthorName : gstr;
  GitAuthorEmail : gstr;
  GitCommitterName : gstr;
  GitCommitterEmail : gstr;
  GHIdentityProfile : gstr;
  GHSSHCommand : gstr      (* optional *)
}.

(** [fmt.Fprintf(&b, "gh auth switch --user %s 2>/dev/null\n", env.GHUser)] *)
Definition switch_line (user : gstr) : gstr :=
  lit "gh auth switch --user " ++ user ++ lit " 2>/dev/null" ++ [nl].

(** [formatOutput] *)
Definition formatOutput (shell : ShellType) (env : EnvOutput) : gstr :=
  let fish := streqb shell Fish in
  let w := if fish then writeFishExport else writePosixExport in
  (if fish then lit "set -e GH_TOKEN 2>/dev/null" ++ [nl]
   else lit "unset GH_TOKEN 2>/dev/null" ++ [nl]) ++
  switch_line (GHUser env) ++
  w (lit "GIT_AUTHOR_NAME") (GitAuthorName env) ++
  w (lit "GIT_AUTHOR_EMAIL") (GitAuthorEmail env) ++
  w (lit "GIT_COMMITTER_NAME") (GitCommitterName env) ++
  w (lit "GIT_COMMITTER_EMAIL") (GitCommitterEmail env) ++
  w (lit "GH_IDENTITY_PROFILE") (GHIdentityProfile env) ++
  opt (negb (streqb (GHSSHCommand env) []))
      (w (lit "GIT_SSH_COMMAND") (GHSSHCommand env)).

End Formatters.

(* ------------------------------------------------------------------ *)
(** ** The file system and its failures *)

Module Disk.

(** The file operations the commands perform. *)
Inductive Op :=
| ReadOp     (* os.ReadFile, os.Open *)
| WriteOp    (* os.WriteFile *)
| RemoveOp   (* os.Remove *)
| MkdirOp.   (* os.MkdirAll of the directory itself *)

(** The failures of the file system: [faults op path] is the error the
    operation [op] on [path] fails with, and [None] when it succeeds.  A
    failed write or removal leaves the file as it was. *)
Definition Faults := Op -> gstr -> option error.

Definition no_faults : Faults := fun _ _ => None.

(** [os.IsNotExist] *)
Definition IsNotExist (e : error) : bool :=
  match e with ErrNotExist => true | _ => false end.

(** The reversed path without its last element (up to the last '/'). *)
Fixpoint drop_to_slash (r : gstr) : gstr :=
  match r with
  | [] => []
  | c :: r' => if ascii_eqb c slash then r else drop_to_slash r'
  end.

(** [filepath.Dir] (Unix): [Clean] of the path up to and including its
    last separator. *)
Definition Dir (path : gstr) : gstr := Clean (rev (drop_to_slash (rev path))).

End Disk.

(* ------------------------------------------------------------------ *)
(** ** internal/config: directories and profiles; internal/cmd: profile
    remove *)

Module Profiles.
Import Config.

(** [config.Dir] *)
Definition Dir (env : Env) : result gstr :=
  if negb (streqb (GH_IDENTITY_CONFIG_DIR env) []) then
    Ok (GH_IDENTITY_CONFIG_DIR env)
  else
    base <- (if streqb (XDG_CONFIG_HOME env) [] then
               home <- UserHomeDir env ;; Ok (Join home (lit ".config"))
             else Ok (XDG_CONFIG_HOME env)) ;;
    Ok (Join base (lit "gh-identity")).

(** [config.GitConfigDir] *)
Definition GitConfigDir (env : Env) : result gstr :=
  dir <- Dir env ;; Ok (Join dir (lit "git")).

(** [gitconfig.GlobalGitconfigPath] *)
Definition GlobalGitconfigPath (env : Env) : result gstr :=
  home <- UserHomeDir env ;; Ok (Join home (lit ".gitconfig")).

Record Profile := mkProfile {
  GHUser : gstr;
  GitName : gstr;
  GitEmail : gstr;
  SSHKey : gstr
}.

(** [ProfilesFile]: the Go map [Profiles] is an association list with at
    most one entry per name. *)
Record ProfilesFile := mkProfilesFile {
  Profiles : list (gstr * Profile);
  Default : gstr
}.

Definition lookup (name : gstr) (m : list (gstr * Profile)) : option Profile :=
  match find (fun kv => streqb (fst kv) name) m with
  | Some kv => Some (snd kv)
  | None => None
  end.

(** [delete(pf.Profiles, name)] *)
Definition delete (name : gstr) (m : list (gstr * Profile))
    : list (gstr * Profile) :=
  filter (fun kv => negb (streqb (fst kv) name)) m.

(** [RemoveProfile] removes a profile by name. *)
Definition RemoveProfile (pf : ProfilesFile) (name : gstr)
    : result ProfilesFile :=
  match lookup name (Profiles pf) with
  | None => Err (ErrProfileNotFound name)
  | Some _ =>
      Ok (mkProfilesFile (delete name (Profiles pf))
            (if streqb (Default pf) name then [] else Default pf))
  end.

(** The files the commands touch.  The two YAML documents are held
    parsed: [profiles.yml] and [bindings.yml] under [Dir()], a document
    that does not exist held as the empty one.  Every other file (the
    gitconfig fragments, the global gitconfig) is a [Gitconfig.File] by its
    path. *)
Record World := mkWorld {
  profiles_yml : ProfilesFile;
  bindings_yml : Bindings;
  files : gstr -> Gitconfig.File
}.

Definition update_file (fs : gstr -> Gitconfig.File) (p : gstr)
    (v : Gitconfig.File) : gstr -> Gitconfig.File :=
  fun q => if streqb q p then v else fs q.

(** [ProfilesPath] *)
Definition ProfilesPath (env : Env) : result gstr :=
  dir <- Dir env ;; Ok (Join dir (lit "profiles.yml")).

(** [BindingsPath] *)
Definition BindingsPath (env : Env) : result gstr :=
  dir <- Dir env ;; Ok (Join dir (lit "bindings.yml")).

(** [os.ReadFile] and [yaml.Unmarshal] of a document held as [doc]: a
    missing file gives the empty document [empty]; a read fault stands for
    any other failure, of the read or of the parse ("reading profiles",
    "parsing profiles", ...). *)
Definition load_doc {A : Type} (io : Disk.Faults) (path : gstr) (empty doc : A)
    : result A :=
  match io Disk.ReadOp path with
  | Some e => if Disk.IsNotExist e then Ok empty else Err e
  | None => Ok doc
  end.

(** [LoadProfiles]: [ProfilesPath] then [LoadProfilesFrom]. *)
Definition LoadProfiles (io : Disk.Faults) (env : Env) (w : World)
    : result ProfilesFile :=
  path <- ProfilesPath env ;;
  load_doc io path (mkProfilesFile [] []) (profiles_yml w).

(** [LoadBindings]: [BindingsPath] then [LoadBindingsFrom]. *)
Definition LoadBindings (io : Disk.Faults) (env : Env) (w : World)
    : result Bindings :=
  path <- BindingsPath env ;;
  load_doc io path [] (bindings_yml w).

(** [SaveTo]: [os.MkdirAll(filepath.Dir(path))], then [os.WriteFile]
    ([yaml.Marshal] of these two documents does not fail). *)
Definition SaveTo (io : Disk.Faults) (path : gstr) : result unit :=
  match io Disk.MkdirOp (Disk.Dir path) with
  | Some e => Err e
  | None =>
      match io Disk.WriteOp path with
      | Some e => Err e
      | None => Ok tt
      end
  end.

(** [ProfilesFile.Save] of [pf]: the world with [pf] saved. *)
Definition SaveProfiles (io : Disk.Faults) (env : Env) (w : World)
    (pf : ProfilesFile) : World * result unit :=
  match (path <- ProfilesPath env ;; SaveTo io path) with
  | Ok _ => (mkWorld pf (bindings_yml w) (files w), Ok tt)
  | Err e => (w, Err e)
  end.

(** [BindingsFile.Save] of [bs]: the world with [bs] saved. *)
Definition SaveBindings (io : Disk.Faults) (env : Env) (w : World)
    (bs : Bindings) : World * result unit :=
  match (path <- BindingsPath env ;; SaveTo io path) with
  | Ok _ => (mkWorld (profiles_yml w) bs (files w), Ok tt)
  | Err e => (w, Err e)
  end.

(** [gitconfig.readLines] on the disk: [os.Open] can fail, then the scan
    of [Gitconfig.readLines]. *)
Definition readLines_io (io : Disk.Faults) (fs : gstr -> Gitconfig.File)
    (path : gstr) : result (list gstr) :=
  match io Disk.ReadOp path with
  | Some e => Err e
  | None => Gitconfig.readLines (fs path)
  end.

(** [gitconfig.writeLines] on the disk. *)
Definition writeLines_io (io : Disk.Faults) (fs : gstr -> Gitconfig.File)
    (path : gstr) (lines : list gstr) : (gstr -> Gitconfig.File) * result unit :=
  match io Disk.WriteOp path with
  | Some e => (fs, Err e)
  | None => (update_file fs path (Gitconfig.writeLines lines), Ok tt)
  end.

(** [gitconfig.RemoveIncludeIf] on the disk. *)
Definition RemoveIncludeIf_io (io : Disk.Faults) (fs : gstr -> Gitconfig.File)
    (gitconfigPath dirPath : gstr) : (gstr -> Gitconfig.File) * result unit :=
  let directive := Gitconfig.directive_of (Gitconfig.slashed dirPath) in
  match readLines_io io fs gitconfigPath with
  | Err e => (fs, if Disk.IsNotExist e then Ok tt else Err e)
  | Ok lines =>
      writeLines_io io fs gitconfigPath
        (Gitconfig.drop_trailing_blank (Gitconfig.remove_loop directive false lines))
  end.

(** [gitconfig.AddIncludeIf] on the disk. *)
Definition AddIncludeIf_io (io : Disk.Faults) (fs : gstr -> Gitconfig.File)
    (gitconfigPath dirPath fragmentPath : gstr)
    : (gstr -> Gitconfig.File) * result unit :=
  let dirPath := Gitconfig.slashed dirPath in
  let directive := Gitconfig.directive_of dirPath in
  let pathLine := Gitconfig.pathLine_of fragmentPath in
  match (match readLines_io io fs gitconfigPath with
         | Err e => if Disk.IsNotExist e then Ok [] else Err e
         | Ok lines => Ok lines
         end) with
  | Err e => (fs, Err e)
  | Ok lines =>
      match Gitconfig.update_path directive pathLine lines with
      | Some lines' => writeLines_io io fs gitconfigPath lines'
      | None =>
          let lines := match rev lines with
                       | last :: _ => if streqb last [] then lines
                                      else lines ++ [[]]
                       | [] => lines
                       end in
          writeLines_io io fs gitconfigPath
            (lines ++ [directive ++ [" "%char] ++ Gitconfig.marker; pathLine])
      end
  end.

(** [gitconfig.RemoveProfileFragment]: [os.Remove] of the fragment; a
    missing fragment is not an error. *)
Definition RemoveProfileFragment (io : Disk.Faults) (env : Env)
    (fs : gstr -> Gitconfig.File) (profileName : gstr)
    : result (gstr -> Gitconfig.File) :=
  dir <- GitConfigDir env ;;
  let path := Join dir (profileName ++ lit ".gitconfig") in
  match io Disk.RemoveOp path with
  | Some e => if Disk.IsNotExist e then Ok fs else Err e
  | None => Ok (update_file fs path None)
  end.

(** The loop of [runProfileRemove] over [removedPaths]; the error of
    [RemoveIncludeIf] is discarded ([_ =]). *)
Definition remove_includes (io : Disk.Faults) (env : Env) (gcPath : gstr)
    (fs : gstr -> Gitconfig.File) (removedPaths : list gstr)
    : gstr -> Gitconfig.File :=
  fold_left
    (fun fs p =>
       match ExpandPath env p with
       | Err _ => fs
       | Ok expanded => fst (RemoveIncludeIf_io io fs gcPath expanded)
       end)
    removedPaths fs.

(** [runProfileRemove]; the error of [RemoveProfileFragment] is only
    printed as a warning. *)
Definition runProfileRemove (io : Disk.Faults) (env : Env) (w : World)
    (name : gstr) : World * result unit :=
  match LoadProfiles io env w with
  | Err e => (w, Err e)
  | Ok profiles =>
  match RemoveProfile profiles name with
  | Err e => (w, Err e)
  | Ok pf =>
  match SaveProfiles io env w pf with
  | (w1, Err e) => (w1, Err e)
  | (w1, Ok _) =>
  match LoadBindings io env w1 with
  | Err e => (w1, Err e)
  | Ok bs =>
      let remaining :=
        filter (fun b => negb (streqb (Config.Profile b) name)) bs in
      let removedPaths :=
        map Path (filter (fun b => streqb (Config.Profile b) name) bs) in
      match SaveBindings io env w1 remaining with
      | (w2, Err e) => (w2, Err e)
      | (w2, Ok _) =>
          let fs := match RemoveProfileFragment io env (files w2) name with
                    | Ok fs => fs
                    | Err _ => files w2            (* warning printed *)
                    end in
          let fs := match GlobalGitconfigPath env with
                    | Ok gcPath => remove_includes io env gcPath fs removedPaths
                    | Err _ => fs
                    end in
          (mkWorld (profiles_yml w2) (bindings_yml w2) fs, Ok tt)
      end
  end
  end
  end
  end.

End Profiles.

(* ------------------------------------------------------------------ *)
(** ** internal/config: the other operations on [ProfilesFile] *)

Module ProfileOps.
Import Config Profiles.

(** [GetProfile] returns the named profile, or an error if not found. *)
Definition GetProfile (pf : ProfilesFile) (name : gstr) : result Profile :=
  match lookup name (Profiles pf) with
  | Some p => Ok p
  | None => Err (ErrProfileNotFound name)
  end.

(** [m[name] = p] on a Go map: the value under an existing key is
    replaced, otherwise the key is added. *)
Fixpoint map_set (name : gstr) (p : Profile) (m : list (gstr * Profile))
    : list (gstr * Profile) :=
  match m with
  | [] => [(name, p)]
  | kv :: m' => if streqb (fst kv) name then (fst kv, p) :: m'
                else kv :: map_set name p m'
  end.

(** [AddProfile] adds or updates a named profile. *)
Definition AddProfile (pf : ProfilesFile) (name : gstr) (p : Profile)
    : ProfilesFile :=
  mkProfilesFile (map_set name p (Profiles pf)) (Default pf).

(** The messages of one profile, in the order of the three tests. *)
Definition validate_one (quote : gstr -> gstr) (name : gstr) (p : Profile)
    : list gstr :=
  (if streqb (GHUser p) [] then
     [lit "profile " ++ quote name ++ lit ": gh_user is required"]
   else []) ++
  (if streqb (GitName p) [] then
     [lit "profile " ++ quote name ++ lit ": git_name is required"]
   else []) ++
  (if streqb (GitEmail p) [] then
     [lit "profile " ++ quote name ++ lit ": git_email is required"]
   else []).

(** [Validate] checks that all profiles have required fields.  Go ranges
    over the map in an unspecified order; the embedding takes the order
    of the association list, one of the possible orders.  [quote] is the
    [%q] verb. *)
Definition Validate (quote : gstr -> gstr) (pf : ProfilesFile) : list gstr :=
  flat_map (fun kv => validate_one quote (fst kv) (snd kv)) (Profiles pf).

End ProfileOps.

(* ------------------------------------------------------------------ *)
(** ** internal/hook: [Resolve] *)

Module Hook.
Import Config Resolve Profiles ProfileOps.

(** The outcome of [Resolve]: the shell statements, or the error with the
    context it is wrapped in ([fmt.Errorf("<context>: %w", err)]). *)
Inductive outcome :=
| Emit (s : gstr)
| Fail (context : gstr) (cause : error).

(** [fmt.Sprintf("ssh -i %s -o IdentitiesOnly=yes", expanded)] when the
    profile has an SSH key that expands, else the empty string. *)
Definition ssh_command (env : Env) (p : Profile) : gstr :=
  if negb (streqb (SSHKey p) []) then
    match ExpandPath env (SSHKey p) with
    | Ok expanded => lit "ssh -i " ++ expanded ++ lit " -o IdentitiesOnly=yes"
    | Err _ => []
    end
  else [].

(** [Resolve] (the hook that switches the gh account); [quote] is the
    [%q] verb. *)
Definition Resolve (quote : gstr -> gstr) (io : Disk.Faults) (env : Env)
    (w : World) (dir : gstr) (shell : ShellType) : outcome :=
  match LoadProfiles io env w with
  | Err e => Fail (lit "loading profiles") e
  | Ok profiles =>
  match LoadBindings io env w with
  | Err e => Fail (lit "loading bindings") e
  | Ok bindings =>
  match ForDirectory env dir bindings (Default profiles) with
  | Err e => Fail (lit "resolving binding") e
  | Ok result =>
      if streqb (RProfile result) [] then Emit []
      else
        match GetProfile profiles (RProfile result) with
        | Err e => Fail (lit "getting profile " ++ quote (RProfile result)) e
        | Ok profile =>
            Emit (formatOutput quote shell
                    (mkEnvOutput (GHUser profile)
                       (GitName profile) (GitEmail profile)
                       (GitName profile) (GitEmail profile)
                       (RProfile result) (ssh_command env profile)))
        end
  end
  end
  end.

End Hook.

(* ------------------------------------------------------------------ *)
(** ** internal/gitconfig: profile fragments; internal/cmd: bind, unbind
    and the clone directory *)

Module Cmd.
Import Config Profiles ProfileOps.

(** [fmt.Sprintf("[user]\n    name = %s\n    email = %s\n", ...)] *)
Definition fragment_content (p : Profile) : gstr :=
  lit "[user]" ++ nl :: lit "    name = " ++ GitName p ++
  nl :: lit "    email = " ++ GitEmail p ++ [nl].

(** [WriteProfileFragmentTo]: [os.MkdirAll(filepath.Dir(path))], then
    [os.WriteFile] of the fragment. *)
Definition WriteProfileFragmentTo (io : Disk.Faults) (fs : gstr -> Gitconfig.File)
    (path : gstr) (p : Profile) : result (gstr -> Gitconfig.File) :=
  match io Disk.MkdirOp (Disk.Dir path) with
  | Some e => Err e
  | None =>
      match io Disk.WriteOp path with
      | Some e => Err e
      | None => Ok (update_file fs path (Some (fragment_content p)))
      end
  end.

(** [config.EnsureGitConfigDir] *)
Definition EnsureGitConfigDir (io : Disk.Faults) (env : Env) : result gstr :=
  dir <- GitConfigDir env ;;
  match io Disk.MkdirOp dir with
  | Some e => Err e
  | None => Ok dir
  end.

(** [WriteProfileFragment]: [EnsureGitConfigDir] then
    [WriteProfileFragmentTo]. *)
Definition WriteProfileFragment (io : Disk.Faults) (env : Env)
    (fs : gstr -> Gitconfig.File) (profileName : gstr) (p : Profile)
    : result (gstr -> Gitconfig.File) :=
  dir <- EnsureGitConfigDir io env ;;
  WriteProfileFragmentTo io fs (Join dir (profileName ++ lit ".gitconfig")) p.

(** [runBind].  The error of [GetProfile] is replaced by the command's
    own "profile %q not found" error; the wrapping text of the other
    errors is not modelled. *)
Definition runBind (io : Disk.Faults) (env : Env) (w : World)
    (dirPath profileName : gstr) : World * result unit :=
  match LoadProfiles io env w with
  | Err e => (w, Err e)
  | Ok profiles =>
  match GetProfile profiles profileName with
  | Err _ => (w, Err (ErrProfileNotFound profileName))
  | Ok profile =>
  match ExpandPath env dirPath with
  | Err e => (w, Err e)
  | Ok expanded =>
  match LoadBindings io env w with
  | Err e => (w, Err e)
  | Ok bindings =>
  match AddBinding env bindings expanded profileName with
  | Err e => (w, Err e)
  | Ok bs =>
  match SaveBindings io env w bs with
  | (w1, Err e) => (w1, Err e)
  | (w1, Ok _) =>
  match WriteProfileFragment io env (files w1) profileName profile with
  | Err e => (w1, Err e)
  | Ok fs =>
      let w2 := mkWorld (profiles_yml w1) (bindings_yml w1) fs in
      match GlobalGitconfigPath env with
      | Err e => (w2, Err e)
      | Ok gcPath =>
      match GitConfigDir env with
      | Err e => (w2, Err e)
      | Ok gitDir =>
          let fragmentPath := Join gitDir (profileName ++ lit ".gitconfig") in
          let (fs', r) := AddIncludeIf_io io fs gcPath expanded fragmentPath in
          (mkWorld (profiles_yml w2) (bindings_yml w2) fs', r)
      end
      end
  end
  end
  end
  end
  end
  end
  end.

(** [runUnbind]; the error of [RemoveIncludeIf] is discarded ([_ =]). *)
Definition runUnbind (io : Disk.Faults) (env : Env) (w : World) (dirPath : gstr)
    : World * result unit :=
  match ExpandPath env dirPath with
  | Err e => (w, Err e)
  | Ok expanded =>
  match LoadBindings io env w with
  | Err e => (w, Err e)
  | Ok bindings =>
  match RemoveBinding env bindings expanded with
  | Err e => (w, Err e)
  | Ok bs =>
  match SaveBindings io env w bs with
  | (w1, Err e) => (w1, Err e)
  | (w1, Ok _) =>
      match GlobalGitconfigPath env with
      | Ok gcPath =>
          (mkWorld (profiles_yml w1) (bindings_yml w1)
             (fst (RemoveIncludeIf_io io (files w1) gcPath expanded)), Ok tt)
      | Err _ => (w1, Ok tt)
      end
  end
  end
  end
  end.

(** [repoToDir] extracts the directory name from a repo specifier:
    [strings.Split(repo, "/")] and its last part. *)
Definition repoToDir (repo : gstr) : gstr :=
  let repo := TrimSuffix repo (lit ".git") in
  if Contains repo [slash] then last (split repo) []
  else repo.

End Cmd.

(** The lines [RemoveIncludeIf] has no reason to touch. *)
Definition other_line (d l : gstr) : bool :=
  negb (Gitconfig.remove_matches d l) && negb (Gitconfig.is_path_line l) &&
  negb (streqb l []).

(** A binding store used by the instances below. *)
Definition store_ab : Config.Bindings :=
  [Config.mkBinding (lit "/a") (lit "P");
   Config.mkBinding (lit "~/b/") (lit "Q")].

(* ------------------------------------------------------------------ *)
(** ** Properties stated over the embedding *)

Module Spec.
Import Config Resolve.

(** A binding matches the expanded query directory: its stored path
    expands and [isSubpath] holds. *)
Definition matches (env : Env) (expanded : gstr) (b : Binding) : bool :=
  match ExpandPath env (Path b) with
  | Ok p => isSubpath expanded p
  | Err _ => false
  end.

(** The depth [ForDirectory] computes for a binding. *)
Definition bdepth (env : Env) (b : Binding) : Z :=
  match ExpandPath env (Path b) with
  | Ok p => depth p
  | Err _ => (-1)%Z
  end.

(** The result [ForDirectory] gives when it falls back to the default. *)
Definition default_result (defaultProfile : gstr) : Result :=
  mkResult defaultProfile [] (negb (streqb defaultProfile [])).

(** Two outcomes of a binding-store operation that agree up to one
    binding [b] kept in the first. *)
Definition same_but (b : Binding) (r1 r2 : result Bindings) : Prop :=
  match r1, r2 with
  | Ok l1, Ok l2 => exists x y, l1 = x ++ b :: y /\ l2 = x ++ y
  | Err e1, Err e2 => e1 = e2
  | _, _ => False
  end.

(** The normalized paths of the stored bindings that expand. *)
Definition norms (env : Env) (bs : Bindings) : list gstr :=
  flat_map (fun b => match ExpandPath env (Path b) with
                     | Ok p => [p]
                     | Err _ => []
                     end) bs.

(** [os.Getwd] returns an absolute path when it succeeds. *)
Definition env_ok (env : Env) : Prop :=
  forall wd, Getwd env = Some wd -> IsAbs wd = true.

(** A printable ASCII byte other than the space (0x21 .. 0x7e). *)
Definition plain (c : ascii) : Prop := 33 <= nat_of_ascii c <= 126.

(** No line read from the file ends in a carriage return (the raw line
    did not end in "\r\r"). *)
Definition cr_free_file (f : Gitconfig.File) : Prop :=
  forall lines, Gitconfig.readLines f = Ok lines ->
  Forall (fun l => HasSuffix l [cr] = false) lines.

(** The number of lines [AddIncludeIf] recognizes as the directive for
    [dirPath]. *)
Definition count_directive (dirPath : gstr) (lines : list gstr) : nat :=
  length (filter (Gitconfig.add_matches
                    (Gitconfig.directive_of (Gitconfig.slashed dirPath)))
                 lines).

(** A byte string made of white-space runes only. *)
Definition blank (s : gstr) : Prop :=
  exists rs, Forall (fun r => In r space_runes) rs /\ s = concat rs.

(** The lines of a shell output: its pieces between newlines. *)
Definition lines_of (s : gstr) : list gstr := Gitconfig.split_nl_aux [] s.

(** An export statement of [key] as [writeFishExport] or
    [writePosixExport] prints it, without its newline. *)
Definition export_stmt (quote : gstr -> gstr) (shell : ShellType)
    (key value : gstr) : gstr :=
  if streqb shell Fish then lit "set -gx " ++ key ++ [" "%char] ++ quote value
  else lit "export " ++ key ++ ["="%char] ++ quote value.

(** The beginning of a [GIT_SSH_COMMAND] statement in the given dialect. *)
Definition ssh_prefix (shell : ShellType) : gstr :=
  if streqb shell Fish then lit "set -gx GIT_SSH_COMMAND "
  else lit "export GIT_SSH_COMMAND=".

(** The number of [GIT_SSH_COMMAND] statements of a shell output. *)
Definition ssh_statements (shell : ShellType) (out : gstr) : nat :=
  length (filter (fun l => HasPrefix l (ssh_prefix shell)) (lines_of out)).


End Spec.
Import Spec.

(** Concrete environments: $HOME set and the working directory "/", and
    the same with $HOME unset. *)
Module Examples.

Definition env0 : Env := mkEnv (lit "/home/u") (Some (lit "/")) [] [].

Definition env_nohome : Env := mkEnv [] (Some (lit "/")) [] [].

(** A global gitconfig holding the block of [/a/] followed by a line that
    does not fit in [bufio.Scanner]'s buffer. *)
Definition gitconfig_long : gstr :=
  (Gitconfig.directive_of (lit "/a/") ++ [" "%char] ++ Gitconfig.marker)
  ++ nl :: Gitconfig.pathLine_of (lit "/home/u/.config/gh-identity/git/work.gitconfig")
  ++ nl :: repeat "x"%char Gitconfig.MaxScanTokenSize ++ [nl].

(** The same block in a short global gitconfig. *)
Definition gitconfig_short : gstr :=
  lit "[user]" ++ [nl] ++ [nl]
  ++ Gitconfig.directive_of (lit "/a/") ++ [" "%char] ++ Gitconfig.marker ++ [nl]
  ++ Gitconfig.pathLine_of (lit "/home/u/.config/gh-identity/git/work.gitconfig")
  ++ [nl].

(** Profile [work] (also the default) bound to [/a] and [/b], with its
    fragment and the global gitconfig [gc] under [/home/u]. *)
Definition world_with (gc : gstr) : Profiles.World :=
  Profiles.mkWorld
    (Profiles.mkProfilesFile
       [(lit "work", Profiles.mkProfile (lit "w") (lit "W") (lit "w@x") []);
        (lit "home", Profiles.mkProfile (lit "h") (lit "H") (lit "h@x") [])]
       (lit "work"))
    [Config.mkBinding (lit "/a") (lit "work");
     Config.mkBinding (lit "/c") (lit "home");
     Config.mkBinding (lit "/b") (lit "work")]
    (fun q =>
       if streqb q (lit "/home/u/.gitconfig") then Some gc
       else if streqb q (lit "/home/u/.config/gh-identity/git/work.gitconfig")
       then Some (lit "[user]" ++ [nl])
       else None).


(** [runProfileRemove] of [work] on [world_with gitconfig_short]. *)
Definition remove_work : Profiles.World * result unit :=
  Profiles.runProfileRemove Disk.no_faults env0 (world_with gitconfig_short)
    (lit "work").

(** A file system where nothing can be removed and the global gitconfig
    cannot be written: permission denied. *)
Definition io_readonly : Disk.Faults :=
  fun op p =>
    match op with
    | Disk.RemoveOp => Some ErrPermission
    | Disk.WriteOp => if streqb p (lit "/home/u/.gitconfig") then Some ErrPermission
                      else None
    | _ => None
    end.

(** A hook environment with an SSH command and one without. *)
Definition envT_ssh : EnvOutputT :=
  mkEnvOutputT (lit "tok") (lit "W") (lit "w@x") (lit "W") (lit "w@x")
    (lit "work") (lit "ssh -i /k -o IdentitiesOnly=yes") [].

Definition env_nossh : EnvOutput :=
  mkEnvOutput (lit "w") (lit "W") (lit "w@x") (lit "W") (lit "w@x")
    (lit "work") [].


End Examples.
Import Examples.

(* ------------------------------------------------------------------ *)
(** ** Basic lemmas on the string functions *)

Lemma streqb_true (a c : gstr) : streqb a c = true <-> a = c.
Proof.
  unfold streqb; destruct (list_eq_dec ascii_dec a c); split; congruence.
Qed.

Lemma streqb_refl (a : gstr) : streqb a a = true.
Proof. apply streqb_true; reflexivity. Qed.

Lemma streqb_false (a c : gstr) : streqb a c = false <-> a <> c.
Proof.
  unfold streqb; destruct (list_eq_dec ascii_dec a c); split; congruence.
Qed.

Lemma ascii_eqb_true (a c : ascii) : ascii_eqb a c = true <-> a = c.
Proof.
  unfold ascii_eqb; destruct (ascii_dec a c); split; congruence.
Qed.

Lemma bind_ok {A B} (r : result A) (k : A -> result B) v :
  bind r k = Ok v -> exists a, r = Ok a /\ k a = Ok v.
Proof. destruct r; simpl; [eauto|discriminate]. Qed.

(* ------------------------------------------------------------------ *)
(** ** The loop of ForDirectory *)

Section ForDirectoryLoop.
Import Config Resolve.

Variable env : Env.
Variable expanded : gstr.

Lemma step_nomatch acc b :
  matches env expanded b = false -> step env expanded acc b = acc.
Proof.
  unfold matches, step; destruct (ExpandPath env (Path b)); auto.
  intros H; rewrite H; auto.
Qed.

Lemma fold_nomatch bs acc :
  (forall b, In b bs -> matches env expanded b = false) ->
  fold_left (step env expanded) bs acc = acc.
Proof.
  revert acc; induction bs as [|b bs IH]; intros acc H; simpl; auto.
  rewrite step_nomatch by (apply H; left; auto).
  apply IH; intros; apply H; right; auto.
Qed.

Lemma depth_nonneg p : (0 <= depth p)%Z.
Proof. unfold depth; lia. Qed.

(** Matching bindings shallower than [D] keep the best depth below [D]. *)
Lemma fold_below bs acc D :
  (bestDepth acc < D)%Z ->
  (forall b, In b bs -> matches env expanded b = true ->
             (bdepth env b < D)%Z) ->
  (bestDepth (fold_left (step env expanded) bs acc) < D)%Z.
Proof.
  revert acc; induction bs as [|b bs IH]; intros acc Hacc H; simpl; auto.
  apply IH; [|intros; apply H; auto; right; auto].
  unfold step.
  specialize (H b (or_introl eq_refl)); unfold matches, bdepth in H.
  destruct (ExpandPath env (Path b)); auto.
  destruct (isSubpath expanded a); auto.
  specialize (H eq_refl).
  destruct (bestDepth acc <? depth a)%Z; simpl; auto.
Qed.

(** Matching bindings no deeper than the best one leave the state alone. *)
Lemma fold_keep bs acc :
  (forall b, In b bs -> matches env expanded b = true ->
             (bdepth env b <= bestDepth acc)%Z) ->
  fold_left (step env expanded) bs acc = acc.
Proof.
  revert acc; induction bs as [|b bs IH]; intros acc H; simpl; auto.
  assert (Hs : step env expanded acc b = acc).
  { unfold step.
    specialize (H b (or_introl eq_refl)); unfold matches, bdepth in H.
    destruct (ExpandPath env (Path b)); auto.
    destruct (isSubpath expanded a); auto.
    specialize (H eq_refl).
    destruct (bestDepth acc <? depth a)%Z eqn:E; auto; lia. }
  rewrite Hs; apply IH; intros; apply H; auto; right; auto.
Qed.

(** When every matching binding has an empty profile, [bestMatch] stays
    empty. *)
Lemma fold_empty_profile bs acc :
  bestMatch acc = [] ->
  (forall b, In b bs -> matches env expanded b = true -> Profile b = []) ->
  bestMatch (fold_left (step env expanded) bs acc) = [].
Proof.
  revert acc; induction bs as [|b bs IH]; intros acc Hacc H; simpl; auto.
  apply IH; [|intros; apply H; auto; right; auto].
  specialize (H b (or_introl eq_refl)); unfold matches in H; unfold step.
  destruct (ExpandPath env (Path b)); auto.
  destruct (isSubpath expanded a); auto.
  destruct (bestDepth acc <? depth a)%Z; simpl; auto.
Qed.

End ForDirectoryLoop.

(* ------------------------------------------------------------------ *)
(** ** Resolution engine *)

Section ResolveClaims.
Import Config Resolve.

Lemma ForDirectory_unfold env dir bs def e :
  ExpandPath env dir = Ok e ->
  ForDirectory env dir bs def =
  (let best := fold_left (step env e) bs (mkBest [] [] (-1)) in
   if negb (streqb (bestMatch best) []) then
     Ok (mkResult (bestMatch best) (bestPath best) false)
   else Ok (default_result def)).
Proof. intros H; unfold ForDirectory; rewrite H; reflexivity. Qed.

(** C1 (amended): among the matching bindings, [ForDirectory] selects the
    first one of greatest depth ([strings.Count] of '/' in its expanded
    path): every matching binding before it is strictly shallower, every
    one after it is no deeper.  If its profile name is non-empty, that
    profile is returned with the binding's stored path; if it is empty,
    the default is returned as if nothing had matched.  This holds when
    the query directory expands. *)
Theorem ForDirectory_first_deepest env dir bs def e pre bi post :
  ExpandPath env dir = Ok e ->
  bs = pre ++ bi :: post ->
  matches env e bi = true ->
  (forall b, In b pre -> matches env e b = true ->
             (bdepth env b < bdepth env bi)%Z) ->
  (forall b, In b post -> matches env e b = true ->
             (bdepth env b <= bdepth env bi)%Z) ->
  ForDirectory env dir bs def =
  Ok (if negb (streqb (Profile bi) [])
      then mkResult (Profile bi) (Path bi) false
      else default_result def).
Proof.
  intros He -> Hm Hpre Hpost.
  rewrite (ForDirectory_unfold env dir _ def e He); cbv zeta.
  rewrite fold_left_app; simpl.
  unfold matches in Hm.
  destruct (ExpandPath env (Path bi)) as [p|x] eqn:Ep; [|discriminate].
  assert (Hlt : (bestDepth (fold_left (step env e) pre (mkBest [] [] (-1)))
                 < depth p)%Z).
  { apply fold_below; [simpl; pose proof (depth_nonneg p); lia|].
    intros b Hin Hb; specialize (Hpre b Hin Hb); unfold bdepth in Hpre.
    rewrite Ep in Hpre; exact Hpre. }
  set (acc := fold_left (step env e) pre (mkBest [] [] (-1))) in *.
  assert (Hs : step env e acc bi = mkBest (Profile bi) (Path bi) (depth p)).
  { unfold step; rewrite Ep, Hm; apply Z.ltb_lt in Hlt; rewrite Hlt; auto. }
  rewrite Hs, fold_keep.
  - cbn [bestMatch bestPath].
    destruct (negb (streqb (Profile bi) [])); reflexivity.
  - intros b Hin Hb; specialize (Hpost b Hin Hb); unfold bdepth in Hpost.
    rewrite Ep in Hpost; exact Hpost.
Qed.

(** C3 (code_bug, failing input): a binding at the root "/" does not match
    its subdirectory "/a": [isSubpath "/a" "/"] tests the prefix "//",
    so [ForDirectory] resolves "/a" to nothing. *)
Theorem isSubpath_root_fails :
  isSubpath (lit "/a") (lit "/") = false /\
  ForDirectory (mkEnv (lit "/home/u") (Some (lit "/")) [] [])
    (lit "/a") [mkBinding (lit "/") (lit "P")] [] =
  Ok (mkResult [] [] false).
Proof. split; vm_compute; reflexivity. Qed.

(** C6 (counterexample): with an empty binding list (so that no binding
    matches) and $HOME unset, resolving "~" fails with the home-directory
    error instead of returning the default. *)
Theorem ForDirectory_nomatch_can_fail :
  ForDirectory (mkEnv [] (Some (lit "/")) [] []) (lit "~") [] (lit "D")
  = Err ErrHome.
Proof. vm_compute; reflexivity. Qed.

(** C6 (amended): when the query directory expands and no binding
    matches it, [ForDirectory] succeeds with the default profile name,
    an empty bound path, and the used-default flag set exactly when the
    name is non-empty; when the query directory does not expand,
    [ForDirectory] fails with the error of the expansion. *)
Theorem ForDirectory_no_match env dir bs def :
  (forall e, ExpandPath env dir = Ok e ->
   (forall b, In b bs -> matches env e b = false) ->
   ForDirectory env dir bs def = Ok (default_result def)) /\
  (forall x, ExpandPath env dir = Err x -> ForDirectory env dir bs def = Err x).
Proof.
  split.
  - intros e He H; rewrite (ForDirectory_unfold env dir bs def e He); cbv zeta.
    rewrite fold_nomatch by exact H; reflexivity.
  - intros x He; unfold ForDirectory; rewrite He; reflexivity.
Qed.

(** C9: when every matching binding carries the empty profile name,
    [ForDirectory] gives exactly what it gives with no binding at all:
    the default, with an empty bound path (or the same error). *)
Theorem ForDirectory_empty_profiles env dir bs def :
  (forall e b, ExpandPath env dir = Ok e -> In b bs ->
               matches env e b = true -> Profile b = []) ->
  ForDirectory env dir bs def = ForDirectory env dir [] def.
Proof.
  intros H; destruct (ExpandPath env dir) as [e|x] eqn:He.
  - rewrite (ForDirectory_unfold env dir bs def e He).
    rewrite (ForDirectory_unfold env dir [] def e He); cbv zeta.
    rewrite fold_empty_profile; auto.
    intros b Hin Hm; apply (H e b); auto.
  - unfold ForDirectory; rewrite He; reflexivity.
Qed.

(** C1 (counterexample): the deepest matching binding "/a/b" carries the
    empty profile name, so [ForDirectory] resolves "/a/b" to the default
    "D" rather than to the profile of the deepest matching binding. *)
Theorem ForDirectory_deepest_empty_profile :
  ForDirectory (mkEnv (lit "/home/u") (Some (lit "/")) [] []) (lit "/a/b")
    [mkBinding (lit "/a") (lit "P"); mkBinding (lit "/a/b") []] (lit "D") =
  Ok (mkResult (lit "D") [] true).
Proof. vm_compute; reflexivity. Qed.

End ResolveClaims.

(* ------------------------------------------------------------------ *)
(** ** filepath.Clean is idempotent on rooted paths *)

Section CleanIdem.

Definition good (x : gstr) : Prop :=
  x <> [] /\ x <> lit "." /\ x <> lit ".." /\ ~ In slash x.

Lemma split_aux_no_slash cur s x :
  ~ In slash cur -> In x (split_aux cur s) -> ~ In slash x.
Proof.
  revert cur; induction s as [|c s IH]; intros cur Hc Hin; simpl in Hin.
  - destruct Hin as [<-|[]]; rewrite <- in_rev; auto.
  - destruct (ascii_eqb c slash) eqn:E.
    + destruct Hin as [<-|Hin]; [rewrite <- in_rev; auto|].
      apply (IH []); auto.
    + apply (IH (c :: cur)); auto.
      intros [Hs|Hs]; [subst; rewrite (proj2 (ascii_eqb_true _ _) eq_refl) in E;
                       discriminate|auto].
Qed.

Lemma split_aux_app cur x s :
  ~ In slash x -> split_aux cur (x ++ s) = split_aux (rev x ++ cur) s.
Proof.
  revert cur; induction x as [|c x IH]; intros cur Hx; simpl; auto.
  destruct (ascii_eqb c slash) eqn:E.
  - apply ascii_eqb_true in E; subst; exfalso; apply Hx; left; auto.
  - rewrite IH by (intros H; apply Hx; right; auto).
    rewrite <- app_assoc; reflexivity.
Qed.

Lemma split_join L :
  L <> [] -> (forall x, In x L -> ~ In slash x) ->
  split (JoinWith [slash] L) = L.
Proof.
  unfold split; induction L as [|x L IH]; intros Hne H; [congruence|].
  destruct L as [|y L].
  - simpl; rewrite <- (app_nil_r x) at 1.
    rewrite split_aux_app by (apply H; left; auto).
    simpl; rewrite app_nil_r, rev_involutive; reflexivity.
  - change (JoinWith [slash] (x :: y :: L))
      with (x ++ [slash] ++ JoinWith [slash] (y :: L)).
    rewrite split_aux_app by (apply H; left; auto).
    simpl. rewrite app_nil_r, rev_involutive.
    f_equal; apply IH; [congruence|intros; apply H; right; auto].
Qed.

Lemma clean_elem_good stk e :
  (forall x, In x stk -> good x) -> ~ In slash e ->
  forall x, In x (clean_elem true stk e) -> good x.
Proof.
  intros Hs He x Hx; unfold clean_elem in Hx.
  destruct (streqb e []) eqn:E1; [auto|].
  destruct (streqb e (lit ".")) eqn:E2; [auto|].
  destruct (streqb e (lit "..")) eqn:E3.
  - destruct stk as [|top stk']; [destruct Hx|].
    destruct (streqb top (lit "..")) eqn:E4.
    + apply streqb_true in E4; subst.
      destruct (Hs (lit "..") (or_introl eq_refl)) as (_ & _ & H & _).
      congruence.
    + apply Hs; right; auto.
  - destruct Hx as [<-|Hx]; [|auto].
    apply streqb_false in E1, E2, E3; repeat split; auto.
Qed.

Lemma fold_clean_good L stk :
  (forall x, In x stk -> good x) -> (forall e, In e L -> ~ In slash e) ->
  forall x, In x (fold_left (clean_elem true) L stk) -> good x.
Proof.
  revert stk; induction L as [|e L IH]; intros stk Hs HL; simpl; auto.
  apply IH; [apply clean_elem_good; auto; apply HL; left; auto|].
  intros; apply HL; right; auto.
Qed.

Lemma fold_clean_push L stk :
  (forall x, In x L -> good x) ->
  fold_left (clean_elem true) L stk = rev L ++ stk.
Proof.
  revert stk; induction L as [|e L IH]; intros stk H; simpl; auto.
  destruct (H e (or_introl eq_refl)) as (H1 & H2 & H3 & _).
  unfold clean_elem at 2.
  rewrite (proj2 (streqb_false _ _) H1), (proj2 (streqb_false _ _) H2),
          (proj2 (streqb_false _ _) H3).
  rewrite IH by (intros; apply H; right; auto).
  rewrite <- app_assoc; reflexivity.
Qed.

Lemma Clean_rooted_form p :
  HasPrefix p [slash] = true ->
  exists L, (forall x, In x L -> good x) /\
            Clean p = slash :: JoinWith [slash] L.
Proof.
  intros Hr; unfold Clean; rewrite Hr.
  exists (rev (fold_left (clean_elem true) (split p) [])); split.
  - intros x Hx; rewrite <- in_rev in Hx.
    apply fold_clean_good in Hx; auto.
    + intros ? [].
    + intros e He; apply (split_aux_no_slash [] p); auto.
  - reflexivity.
Qed.

Lemma Clean_join_good L :
  (forall x, In x L -> good x) ->
  Clean (slash :: JoinWith [slash] L) = slash :: JoinWith [slash] L.
Proof.
  intros HL.
  assert (Hr : HasPrefix (slash :: JoinWith [slash] L) [slash] = true)
    by reflexivity.
  assert (Hs : split (slash :: JoinWith [slash] L)
               = [] :: split (JoinWith [slash] L)) by reflexivity.
  unfold Clean; rewrite Hr, Hs.
  destruct L as [|x L].
  - reflexivity.
  - rewrite split_join; [|congruence|intros y Hy; apply HL; auto].
    change (fold_left (clean_elem true) ([] :: x :: L) [])
      with (fold_left (clean_elem true) (x :: L) (clean_elem true [] [])).
    replace (clean_elem true [] []) with (@nil gstr) by reflexivity.
    rewrite fold_clean_push by exact HL.
    rewrite app_nil_r, rev_involutive; reflexivity.
Qed.

Lemma Clean_rooted p :
  HasPrefix p [slash] = true -> HasPrefix (Clean p) [slash] = true.
Proof.
  intros H; destruct (Clean_rooted_form p H) as (L & _ & ->).
  reflexivity.
Qed.

Lemma Clean_idem_rooted p :
  HasPrefix p [slash] = true -> Clean (Clean p) = Clean p.
Proof.
  intros H; destruct (Clean_rooted_form p H) as (L & HL & ->).
  apply Clean_join_good; auto.
Qed.

End CleanIdem.

Section ExpandIdem.
Import Config.

Lemma HasPrefix_app_slash wd c :
  HasPrefix wd [slash] = true -> HasPrefix (wd ++ c) [slash] = true.
Proof. destruct wd; simpl; [discriminate|auto]. Qed.

Lemma Abs_rooted env p a :
  env_ok env -> Abs env p = Ok a -> HasPrefix a [slash] = true.
Proof.
  unfold Abs, IsAbs; intros Henv H.
  destruct (HasPrefix p [slash]) eqn:Hp.
  - inversion H; subst; apply Clean_rooted; auto.
  - destruct (Getwd env) as [wd|] eqn:Hw; [|discriminate].
    inversion H; subst. specialize (Henv wd Hw); unfold IsAbs in Henv.
    unfold Join. destruct wd as [|c wd]; [discriminate|].
    simpl negb; cbv iota.
    apply Clean_rooted, HasPrefix_app_slash; auto.
Qed.

Lemma ExpandPath_rooted env p e :
  env_ok env -> ExpandPath env p = Ok e -> HasPrefix e [slash] = true.
Proof.
  unfold ExpandPath; intros Henv H.
  apply bind_ok in H as (q & _ & H).
  apply bind_ok in H as (a & Ha & H).
  inversion H; subst; apply Clean_rooted; eapply Abs_rooted; eauto.
Qed.

(** [ExpandPath] is idempotent: a stored expanded path expands to
    itself. *)
Lemma ExpandPath_idem env p e :
  env_ok env -> ExpandPath env p = Ok e -> ExpandPath env e = Ok e.
Proof.
  intros Henv H.
  pose proof (ExpandPath_rooted env p e Henv H) as Hr.
  unfold ExpandPath in H.
  apply bind_ok in H as (q & _ & H).
  apply bind_ok in H as (a & Ha & H).
  inversion H; subst.
  pose proof (Abs_rooted env q a Henv Ha) as Ha'.
  unfold ExpandPath.
  destruct (Clean a) as [|c r] eqn:Ec; [discriminate|].
  simpl in Hr; apply andb_true_iff in Hr as [Hc _];
    apply ascii_eqb_true in Hc; subst c.
  simpl; unfold Abs, IsAbs; simpl.
  rewrite <- Ec, (Clean_idem_rooted a Ha'), (Clean_idem_rooted a Ha').
  reflexivity.
Qed.

End ExpandIdem.

(* ------------------------------------------------------------------ *)
(** ** The scan of the binding store *)

Section Scan.
Import Config.

Variable env : Env.

Lemma scan_shift e bs i :
  scan env e bs (S i) = option_map S (scan env e bs i).
Proof.
  revert i; induction bs as [|c bs IH]; intros i; simpl; auto.
  destruct (ExpandPath env (Path c)); auto.
  destruct (streqb a e); auto.
Qed.

(** A stored binding that fails to expand is skipped by the scan. *)
Lemma scan_skip e bs1 b bs2 x :
  ExpandPath env (Path b) = Err x ->
  scan env e (bs1 ++ b :: bs2) 0 =
  match scan env e (bs1 ++ bs2) 0 with
  | Some j => Some (if j <? length bs1 then j else S j)
  | None => None
  end.
Proof.
  intros Hb; induction bs1 as [|c bs1 IH]; simpl.
  - rewrite Hb, scan_shift; destruct (scan env e bs2 0); auto.
  - destruct (ExpandPath env (Path c)) as [p|y].
    + destruct (streqb p e); auto.
      rewrite !scan_shift, IH.
      destruct (scan env e (bs1 ++ bs2) 0) as [n|]; simpl; auto.
      destruct (Nat.ltb_spec n (length bs1));
        destruct (Nat.ltb_spec (S n) (S (length bs1))); try lia; reflexivity.
    + rewrite !scan_shift, IH.
      destruct (scan env e (bs1 ++ bs2) 0) as [n|]; simpl; auto.
      destruct (Nat.ltb_spec n (length bs1));
        destruct (Nat.ltb_spec (S n) (S (length bs1))); try lia; reflexivity.
Qed.

Lemma scan_some e bs j :
  scan env e bs 0 = Some j ->
  exists pre bj post, bs = pre ++ bj :: post /\ length pre = j /\
    ExpandPath env (Path bj) = Ok e /\
    (forall c, In c pre -> ExpandPath env (Path c) <> Ok e).
Proof.
  revert j; induction bs as [|c bs IH]; intros j H; simpl in H;
    [discriminate|].
  destruct (ExpandPath env (Path c)) as [p|y] eqn:Ec.
  - destruct (streqb p e) eqn:E.
    + inversion H; subst; apply streqb_true in E; subst.
      exists [], c, bs; repeat split; auto; intros ? [].
    + rewrite scan_shift in H.
      destruct (scan env e bs 0) as [j'|]; inversion H; subst.
      destruct (IH j' eq_refl) as (pre & bj & post & -> & Hl & Hbj & Hpre).
      exists (c :: pre), bj, post; repeat split; simpl; auto.
      intros c' [<-|Hin]; [|auto].
      rewrite Ec; intros Heq; inversion Heq; subst;
        rewrite streqb_refl in E; discriminate.
  - rewrite scan_shift in H.
    destruct (scan env e bs 0) as [j'|]; inversion H; subst.
    destruct (IH j' eq_refl) as (pre & bj & post & -> & Hl & Hbj & Hpre).
    exists (c :: pre), bj, post; repeat split; simpl; auto.
    intros c' [<-|Hin]; [|auto]. rewrite Ec; discriminate.
Qed.

Lemma scan_none e bs :
  scan env e bs 0 = None ->
  forall c, In c bs -> ExpandPath env (Path c) <> Ok e.
Proof.
  induction bs as [|c bs IH]; intros H c' Hin; [destruct Hin|]; simpl in H.
  destruct (ExpandPath env (Path c)) as [p|y] eqn:Ec.
  - destruct (streqb p e) eqn:E; [discriminate|].
    rewrite scan_shift in H; destruct (scan env e bs 0); [discriminate|].
    destruct Hin as [<-|Hin]; [|apply IH; auto].
    rewrite Ec; intros Heq; inversion Heq; subst;
      rewrite streqb_refl in E; discriminate.
  - rewrite scan_shift in H; destruct (scan env e bs 0); [discriminate|].
    destruct Hin as [<-|Hin]; [|apply IH; auto]. rewrite Ec; discriminate.
Qed.

Lemma scan_first e pre bj post :
  ExpandPath env (Path bj) = Ok e ->
  (forall c, In c pre -> ExpandPath env (Path c) <> Ok e) ->
  scan env e (pre ++ bj :: post) 0 = Some (length pre).
Proof.
  intros Hbj Hpre; induction pre as [|c pre IH]; simpl.
  - rewrite Hbj, streqb_refl; reflexivity.
  - destruct (ExpandPath env (Path c)) as [p|y] eqn:Ec.
    + destruct (streqb p e) eqn:E.
      * apply streqb_true in E; subst.
        exfalso; apply (Hpre c); [left|]; auto.
      * rewrite scan_shift, IH; auto; intros; apply Hpre; right; auto.
    + rewrite scan_shift, IH; auto; intros; apply Hpre; right; auto.
Qed.

Lemma set_profile_at_app i prof l1 l2 :
  set_profile_at i prof (l1 ++ l2) =
  if i <? length l1 then set_profile_at i prof l1 ++ l2
  else l1 ++ set_profile_at (i - length l1) prof l2.
Proof.
  revert i; induction l1 as [|c l1 IH]; intros i; simpl.
  - rewrite Nat.sub_0_r; reflexivity.
  - destruct i as [|i]; simpl; auto.
    rewrite IH; destruct (Nat.ltb_spec i (length l1));
      destruct (Nat.ltb_spec (S i) (S (length l1))); try lia; reflexivity.
Qed.

Lemma set_profile_at_length i prof l :
  length (set_profile_at i prof l) = length l.
Proof.
  revert i; induction l as [|c l IH]; intros [|i]; simpl; auto.
Qed.

Lemma norms_app bs1 bs2 : norms env (bs1 ++ bs2) = norms env bs1 ++ norms env bs2.
Proof. unfold norms; apply flat_map_app. Qed.

Lemma norms_cons c bs :
  norms env (c :: bs) =
  match ExpandPath env (Path c) with Ok p => [p] | Err _ => [] end
  ++ norms env bs.
Proof. reflexivity. Qed.

Lemma norms_set_profile_at i prof bs :
  norms env (set_profile_at i prof bs) = norms env bs.
Proof.
  revert i; induction bs as [|c bs IH]; intros [|i]; try reflexivity;
    cbn [set_profile_at].
  rewrite (norms_cons c (set_profile_at i prof bs)), (norms_cons c bs).
  f_equal; apply IH.
Qed.

Lemma in_norms p bs :
  In p (norms env bs) -> exists c, In c bs /\ ExpandPath env (Path c) = Ok p.
Proof.
  unfold norms; intros H; apply in_flat_map in H as (c & Hc & Hp).
  destruct (ExpandPath env (Path c)) eqn:E; [|destruct Hp].
  destruct Hp as [<-|[]]; eauto.
Qed.

End Scan.

(* ------------------------------------------------------------------ *)
(** ** The binding store *)

Section BindingStore.
Import Config Resolve.

Lemma nth_error_skip {A} (l1 l2 : list A) (c : A) j :
  nth_error (l1 ++ c :: l2) (if j <? length l1 then j else S j) =
  nth_error (l1 ++ l2) j.
Proof.
  destruct (Nat.ltb_spec j (length l1)).
  - rewrite !nth_error_app1 by lia; reflexivity.
  - rewrite !nth_error_app2 by lia.
    replace (S j - length l1) with (S (j - length l1)) by lia; reflexivity.
Qed.

Lemma step_unexpandable env e acc c x :
  ExpandPath env (Path c) = Err x -> step env e acc c = acc.
Proof. intros H; unfold step; rewrite H; reflexivity. Qed.

(** C4: adding a binding for a path whose normalized form is already
    stored replaces the profile of the first such entry in place (same
    position, same stored path, same number of entries); and, for a
    fixed environment whose working directory is absolute, [AddBinding]
    keeps the normalized paths of the store pairwise distinct. *)
Theorem AddBinding_replace_in_place env :
  (forall bs dir prof e b0,
     ExpandPath env dir = Ok e -> In b0 bs -> ExpandPath env (Path b0) = Ok e ->
     exists pre bi post,
       bs = pre ++ bi :: post /\
       ExpandPath env (Path bi) = Ok e /\
       AddBinding env bs dir prof =
         Ok (pre ++ mkBinding (Path bi) prof :: post) /\
       length (pre ++ mkBinding (Path bi) prof :: post) = length bs) /\
  (forall bs dir prof bs',
     env_ok env -> NoDup (norms env bs) ->
     AddBinding env bs dir prof = Ok bs' -> NoDup (norms env bs')).
Proof.
  split.
  - intros bs dir prof e b0 He Hin Hb0.
    unfold AddBinding; rewrite He; cbn [bind].
    destruct (scan env e bs 0) as [j|] eqn:Hs.
    + destruct (scan_some env e bs j Hs)
        as (pre & bj & post & -> & Hl & Hbj & Hpre).
      exists pre, bj, post; repeat split; auto.
      * rewrite set_profile_at_app.
        destruct (Nat.ltb_spec j (length pre)); [lia|].
        subst j; rewrite Nat.sub_diag; reflexivity.
      * rewrite !length_app; reflexivity.
    + exfalso; exact (scan_none env e bs Hs b0 Hin Hb0).
  - intros bs dir prof bs' Henv Hnd H.
    unfold AddBinding in H; apply bind_ok in H as (e & He & H).
    destruct (scan env e bs 0) as [j|] eqn:Hs; inversion H; subst.
    + rewrite norms_set_profile_at; exact Hnd.
    + rewrite norms_app.
      rewrite (norms_cons env (mkBinding e prof) []); cbn [Path].
      rewrite (ExpandPath_idem env dir e Henv He); simpl.
      apply NoDup_app; [exact Hnd|constructor; [intros []|constructor]|].
      intros a Ha [<-|[]].
      destruct (in_norms env e bs Ha) as (c & Hc & Ec).
      exact (scan_none env e bs Hs c Hc Ec).
Qed.

(** C10: a stored binding [b] whose path fails to expand is skipped:
    it never matches; [ForDirectory] and [FindBinding] give the same
    answer as without it; [AddBinding] and [RemoveBinding] give the same
    outcome as without it up to [b] itself, kept where it was (the same
    error when they fail).  These operations fail only when the query
    path fails to expand, and [RemoveBinding] otherwise only with the
    not-found error. *)
Theorem unexpandable_binding_skipped env bs1 b bs2 x :
  ExpandPath env (Path b) = Err x ->
  (forall e, matches env e b = false) /\
  (forall dir def, ForDirectory env dir (bs1 ++ b :: bs2) def =
                   ForDirectory env dir (bs1 ++ bs2) def) /\
  (forall dir, FindBinding env (bs1 ++ b :: bs2) dir =
               FindBinding env (bs1 ++ bs2) dir) /\
  (forall dir prof, same_but b (AddBinding env (bs1 ++ b :: bs2) dir prof)
                               (AddBinding env (bs1 ++ bs2) dir prof)) /\
  (forall dir, same_but b (RemoveBinding env (bs1 ++ b :: bs2) dir)
                          (RemoveBinding env (bs1 ++ bs2) dir)) /\
  (forall dir def err, ForDirectory env dir (bs1 ++ b :: bs2) def = Err err ->
                       ExpandPath env dir = Err err) /\
  (forall dir prof err, AddBinding env (bs1 ++ b :: bs2) dir prof = Err err ->
                        ExpandPath env dir = Err err) /\
  (forall dir err, RemoveBinding env (bs1 ++ b :: bs2) dir = Err err ->
                   ExpandPath env dir = Err err \/ err = ErrNoBinding dir).
Proof.
  intros Hb; repeat split.
  - intros e; unfold matches; rewrite Hb; reflexivity.
  - intros dir def; unfold ForDirectory.
    destruct (ExpandPath env dir) as [e|y]; cbn [bind]; [|reflexivity].
    rewrite !fold_left_app; cbn [fold_left].
    rewrite (step_unexpandable env e _ b x Hb); reflexivity.
  - intros dir; unfold FindBinding.
    destruct (ExpandPath env dir) as [e|y]; [|reflexivity].
    rewrite (scan_skip env e bs1 b bs2 x Hb).
    destruct (scan env e (bs1 ++ bs2) 0) as [j|]; [|reflexivity].
    rewrite nth_error_skip; reflexivity.
  - intros dir prof; unfold AddBinding.
    destruct (ExpandPath env dir) as [e|y]; cbn [bind]; [|reflexivity].
    rewrite (scan_skip env e bs1 b bs2 x Hb).
    destruct (scan env e (bs1 ++ bs2) 0) as [j|]; cbn [same_but].
    + destruct (j <? length bs1) eqn:Hj; cbn iota;
        rewrite !set_profile_at_app.
      * rewrite Hj; exists (set_profile_at j prof bs1), bs2; split; reflexivity.
      * rewrite Hj; apply Nat.ltb_ge in Hj.
        destruct (Nat.ltb_spec (S j) (length bs1)); [lia|].
        replace (S j - length bs1) with (S (j - length bs1)) by lia.
        exists bs1, (set_profile_at (j - length bs1) prof bs2);
          split; reflexivity.
    + exists bs1, (bs2 ++ [mkBinding e prof]).
      rewrite <- !app_assoc; split; reflexivity.
  - intros dir; unfold RemoveBinding.
    destruct (ExpandPath env dir) as [e|y]; cbn [bind]; [|reflexivity].
    rewrite (scan_skip env e bs1 b bs2 x Hb).
    destruct (scan env e (bs1 ++ bs2) 0) as [j|]; cbn [same_but]; [|reflexivity].
    destruct (j <? length bs1) eqn:Hj; cbn iota;
      [apply Nat.ltb_lt in Hj|apply Nat.ltb_ge in Hj];
      rewrite !firstn_app, !skipn_app.
    + replace (j - length bs1) with 0 by lia.
      replace (S j - length bs1) with 0 by lia.
      exists (firstn j bs1 ++ skipn (S j) bs1), bs2.
      rewrite !app_nil_r; cbn [firstn skipn]; rewrite <- !app_assoc;
        split; reflexivity.
    + rewrite (firstn_all2 bs1) by lia.
      rewrite (firstn_all2 bs1) by lia.
      rewrite (skipn_all2 bs1) by lia.
      rewrite (skipn_all2 bs1) by lia.
      replace (S j - length bs1) with (S (j - length bs1)) by lia.
      replace (S (S j) - length bs1) with (S (S (j - length bs1))) by lia.
      exists bs1, (firstn (j - length bs1) bs2 ++ skipn (S (j - length bs1)) bs2).
      cbn [firstn skipn app]; rewrite <- !app_assoc; split; reflexivity.
  - intros dir def err H; unfold ForDirectory in H.
    destruct (ExpandPath env dir); cbn [bind] in H; [|inversion H; reflexivity].
    destruct (negb _); discriminate.
  - intros dir prof err H; unfold AddBinding in H.
    destruct (ExpandPath env dir); cbn [bind] in H; [|inversion H; reflexivity].
    destruct (scan _ _ _ _); discriminate.
  - intros dir err H; unfold RemoveBinding in H.
    destruct (ExpandPath env dir); cbn [bind] in H; [|left; inversion H; reflexivity].
    destruct (scan _ _ _ _); inversion H; right; reflexivity.
Qed.

End BindingStore.

(* ------------------------------------------------------------------ *)
(** ** strings.TrimSpace on lines with printable ends *)

Section TrimFacts.

Lemma strip_left_none runes fuel s :
  space_prefix runes s = None -> strip_left runes fuel s = s.
Proof. destruct fuel; simpl; intros H; [reflexivity|rewrite H; reflexivity]. Qed.

(** No space rune starts (or, reversed, ends) with a printable byte. *)
Lemma space_prefix_plain_l c s :
  plain c -> space_prefix space_runes (c :: s) = None.
Proof.
  unfold plain; destruct c as [[] [] [] [] [] [] [] []]; vm_compute;
    intros H; try reflexivity; lia.
Qed.

Lemma space_prefix_plain_r c s :
  plain c -> space_prefix (map (@rev ascii) space_runes) (c :: s) = None.
Proof.
  unfold plain; destruct c as [[] [] [] [] [] [] [] []]; vm_compute;
    intros H; try reflexivity; lia.
Qed.

Lemma TrimLeftSpace_plain c s : plain c -> TrimLeftSpace (c :: s) = c :: s.
Proof.
  intros H; unfold TrimLeftSpace; apply strip_left_none, space_prefix_plain_l, H.
Qed.

Lemma TrimRightSpace_plain s c : plain c -> TrimRightSpace (s ++ [c]) = s ++ [c].
Proof.
  intros H; unfold TrimRightSpace; rewrite rev_app_distr; cbn [rev app].
  rewrite strip_left_none by (apply space_prefix_plain_r, H).
  change (c :: rev s) with ([c] ++ rev s).
  rewrite rev_app_distr, rev_involutive; reflexivity.
Qed.

Lemma TrimSpace_plain c s d :
  plain c -> plain d -> TrimSpace (c :: s ++ [d]) = c :: s ++ [d].
Proof.
  intros Hc Hd; unfold TrimSpace; rewrite TrimLeftSpace_plain by exact Hc.
  change (c :: s ++ [d]) with ((c :: s) ++ [d]); apply TrimRightSpace_plain, Hd.
Qed.

Lemma TrimLeftSpace_space s : TrimLeftSpace (" "%char :: s) = TrimLeftSpace s.
Proof. reflexivity. Qed.

Lemma HasPrefix_app p s : HasPrefix (p ++ s) p = true.
Proof.
  induction p as [|c p IH]; simpl; auto.
  rewrite IH, andb_true_r; apply ascii_eqb_true; reflexivity.
Qed.

Lemma HasSuffix_app a s : HasSuffix (a ++ s) s = true.
Proof. unfold HasSuffix; rewrite rev_app_distr; apply HasPrefix_app. Qed.

Lemma TrimSuffix_app a s : TrimSuffix (a ++ s) s = a.
Proof.
  unfold TrimSuffix; rewrite HasSuffix_app, length_app, Nat.add_sub.
  rewrite firstn_app, firstn_all, Nat.sub_diag; simpl; apply app_nil_r.
Qed.

Lemma TrimSuffix_firstn s suf : exists k, TrimSuffix s suf = firstn k s.
Proof.
  unfold TrimSuffix; destruct (HasSuffix s suf); eauto.
  exists (length s); rewrite firstn_all; reflexivity.
Qed.

Lemma plain_not_cr c : plain c -> ascii_eqb cr c = false.
Proof.
  unfold plain, ascii_eqb; intros H; destruct (ascii_dec cr c) as [<-|]; auto.
  vm_compute in H; lia.
Qed.

Lemma plain_not_nl c : plain c -> c <> nl.
Proof. unfold plain; intros H ->; vm_compute in H; lia. Qed.

End TrimFacts.

(* ------------------------------------------------------------------ *)
(** ** Reading back what writeLines wrote *)

Section RoundTrip.
Import Gitconfig.

Lemma split_nl_app cur x s :
  ~ In nl x -> split_nl_aux cur (x ++ nl :: s) = (rev cur ++ x) :: split_nl_aux [] s.
Proof.
  revert cur; induction x as [|c x IH]; intros cur Hx; simpl.
  - rewrite app_nil_r; reflexivity.
  - assert (Hc : ascii_eqb c nl = false).
    { unfold ascii_eqb; destruct (ascii_dec c nl) as [->|]; auto.
      exfalso; apply Hx; left; reflexivity. }
    rewrite Hc, IH by (intros H; apply Hx; right; exact H).
    simpl; rewrite <- app_assoc; reflexivity.
Qed.

Lemma split_join_nl L :
  L <> [] -> Forall (fun l => ~ In nl l) L ->
  split_nl_aux [] (JoinWith [nl] L ++ [nl]) = L ++ [[]].
Proof.
  induction L as [|x L IH]; intros Hne HL; [congruence|].
  inversion HL as [|? ? Hx HL']; subst.
  destruct L as [|y L].
  - simpl JoinWith; rewrite split_nl_app by exact Hx; reflexivity.
  - replace ((JoinWith [nl] (x :: y :: L)) ++ [nl])
      with (x ++ nl :: (JoinWith [nl] (y :: L) ++ [nl]))
      by (simpl; rewrite <- !app_assoc; reflexivity).
    rewrite split_nl_app by exact Hx.
    rewrite IH by (discriminate || exact HL'); reflexivity.
Qed.

Lemma raw_lines_write L :
  L <> [] -> Forall (fun l => ~ In nl l) L ->
  raw_lines (JoinWith [nl] L ++ [nl]) = L.
Proof.
  intros Hne HL; unfold raw_lines; cbv zeta.
  rewrite split_join_nl by auto; rewrite rev_app_distr; simpl.
  apply rev_involutive.
Qed.

Lemma dropCR_keep l : HasSuffix l [cr] = false -> dropCR l = l.
Proof.
  unfold dropCR, HasSuffix; simpl rev at 2.
  destruct (rev l) as [|c r]; simpl; auto.
  destruct (ascii_eqb c cr) eqn:E; auto.
  apply ascii_eqb_true in E; subst; simpl; discriminate.
Qed.

Lemma map_dropCR L :
  Forall (fun l => HasSuffix l [cr] = false) L -> map dropCR L = L.
Proof.
  induction 1 as [|l L Hl _ IH]; simpl; auto.
  rewrite dropCR_keep by exact Hl; f_equal; exact IH.
Qed.

(** What [writeLines] wrote reads back as the same lines, unless one is
    too long for the scanner. *)
Lemma readLines_write L :
  L <> [] -> Forall (fun l => ~ In nl l) L ->
  Forall (fun l => HasSuffix l [cr] = false) L ->
  readLines (writeLines L) = Ok L \/ readLines (writeLines L) = Err ErrTooLong.
Proof.
  intros Hne HL HC; unfold readLines, writeLines, scanLines; cbv zeta.
  rewrite raw_lines_write by auto.
  destruct (existsb _ L); [right; reflexivity|left].
  rewrite map_dropCR by exact HC; reflexivity.
Qed.

Lemma split_nl_no_nl cur s :
  ~ In nl cur -> Forall (fun l => ~ In nl l) (split_nl_aux cur s).
Proof.
  revert cur; induction s as [|c s IH]; intros cur Hc; simpl.
  - constructor; [|constructor]. intros H; apply Hc, in_rev, H.
  - destruct (ascii_eqb c nl) eqn:E.
    + constructor; [intros H; apply Hc, in_rev, H|apply IH; intros []].
    + apply IH; intros [Heq|H]; [|exact (Hc H)].
      rewrite Heq, (proj2 (ascii_eqb_true nl nl) eq_refl) in E; discriminate.
Qed.

Lemma raw_lines_sub content y :
  In y (raw_lines content) -> In y (split_nl_aux [] content).
Proof.
  unfold raw_lines; cbv zeta.
  destruct (rev (split_nl_aux [] content)) as [|[|c l] r] eqn:E; auto.
  intros H; apply in_rev; rewrite E; right; apply in_rev; exact H.
Qed.

Lemma dropCR_sub l c : In c (dropCR l) -> In c l.
Proof.
  unfold dropCR; destruct (rev l) as [|d r] eqn:E; auto.
  destruct (ascii_eqb d cr); auto.
  intros H; apply in_rev; rewrite E; right; apply in_rev, H.
Qed.

(** Lines read from a file hold no newline. *)
Lemma readLines_no_nl f lines :
  readLines f = Ok lines -> Forall (fun l => ~ In nl l) lines.
Proof.
  destruct f as [s|]; simpl; [|discriminate].
  unfold scanLines; cbv zeta; destruct (existsb _ _); [discriminate|].
  intros H; inversion H; subst; clear H.
  apply Forall_forall; intros y Hy; apply in_map_iff in Hy as (x & <- & Hx).
  apply raw_lines_sub in Hx.
  pose proof (split_nl_no_nl [] s (fun H => H)) as HF.
  rewrite Forall_forall in HF; intros Hn; apply (HF x Hx), dropCR_sub, Hn.
Qed.

Lemma read_existing_ok f lines :
  read_existing f = Ok lines -> lines = [] \/ readLines f = Ok lines.
Proof.
  unfold read_existing; destruct (readLines f) as [l|[]]; intros H;
    inversion H; subst; auto.
Qed.

End RoundTrip.

(* ------------------------------------------------------------------ *)
(** ** AddIncludeIf *)

Section AddInclude.
Import Gitconfig.

Lemma update_path_eq d p l1 l2 rest :
  update_path d p (l1 :: l2 :: rest) =
  if add_matches d l1 && is_path_line l2 then Some (l1 :: p :: rest)
  else option_map (cons l1) (update_path d p (l2 :: rest)).
Proof. reflexivity. Qed.

Lemma update_path_head d p lines lines' :
  update_path d p lines = Some lines' -> hd_error lines' = hd_error lines.
Proof.
  destruct lines as [|l1 [|l2 rest]]; try discriminate.
  rewrite update_path_eq.
  destruct (add_matches d l1 && is_path_line l2); intros H.
  - inversion H; reflexivity.
  - destruct (update_path d p (l2 :: rest)); simpl in H; inversion H; reflexivity.
Qed.

(** Once the path line is in place, the loop finds it again and
    rewrites it with itself. *)
Lemma update_path_stable d p lines lines' :
  is_path_line p = true ->
  update_path d p lines = Some lines' -> update_path d p lines' = Some lines'.
Proof.
  intros Hp; revert lines'; induction lines as [|l1 tl IH]; intros lines' H;
    [discriminate|].
  destruct tl as [|l2 rest]; [discriminate|].
  rewrite update_path_eq in H.
  destruct (add_matches d l1 && is_path_line l2) eqn:E.
  - inversion H; subst; rewrite update_path_eq, Hp.
    apply andb_true_iff in E as [E _]; rewrite E; reflexivity.
  - destruct (update_path d p (l2 :: rest)) as [m|] eqn:Em; inversion H; subst.
    pose proof (update_path_head _ _ _ _ Em) as Hh.
    destruct m as [|m1 m']; [discriminate|]; simpl in Hh; inversion Hh; subst m1.
    rewrite update_path_eq, E, (IH _ eq_refl); reflexivity.
Qed.

Lemma update_path_app d p lines M :
  update_path d p lines = None ->
  match M with m :: _ => is_path_line m = false | [] => True end ->
  update_path d p (lines ++ M) = option_map (app lines) (update_path d p M).
Proof.
  intros H HM; induction lines as [|l1 tl IH];
    [cbn [app]; destruct (update_path d p M); reflexivity|].
  destruct tl as [|l2 rest].
  - destruct M as [|m M']; [reflexivity|].
    change ([l1] ++ m :: M') with (l1 :: m :: M').
    rewrite update_path_eq, HM, andb_false_r.
    destruct (update_path d p (m :: M')); reflexivity.
  - rewrite update_path_eq in H.
    destruct (add_matches d l1 && is_path_line l2) eqn:E; [discriminate|].
    destruct (update_path d p (l2 :: rest)) eqn:E2; [discriminate|].
    change ((l1 :: l2 :: rest) ++ M) with (l1 :: l2 :: (rest ++ M)).
    rewrite update_path_eq, E.
    change (l2 :: rest ++ M) with ((l2 :: rest) ++ M).
    rewrite IH by reflexivity.
    destruct (update_path d p M); reflexivity.
Qed.

Lemma update_path_Forall (P : gstr -> Prop) d p lines lines' :
  P p -> Forall P lines -> update_path d p lines = Some lines' ->
  Forall P lines'.
Proof.
  intros Hp; revert lines'; induction lines as [|l1 tl IH]; intros lines' HF H;
    [discriminate|].
  destruct tl as [|l2 rest]; [discriminate|].
  inversion HF as [|? ? H1 HF']; subst.
  rewrite update_path_eq in H.
  destruct (add_matches d l1 && is_path_line l2).
  - inversion H; subst; inversion HF'; subst; repeat constructor; auto.
  - destruct (update_path d p (l2 :: rest)) as [m|] eqn:Em; inversion H; subst.
    constructor; auto.
Qed.

Lemma update_path_match d p lines lines' :
  update_path d p lines = Some lines' ->
  exists l, In l lines /\ add_matches d l = true.
Proof.
  revert lines'; induction lines as [|l1 tl IH]; intros lines' H; [discriminate|].
  destruct tl as [|l2 rest]; [discriminate|].
  rewrite update_path_eq in H.
  destruct (add_matches d l1) eqn:E1.
  - exists l1; split; [left|]; auto.
  - cbn [andb] in H.
    destruct (update_path d p (l2 :: rest)) as [m|] eqn:Em; inversion H; subst.
    destruct (IH m eq_refl) as (l & Hl & Hm); exists l; split; [right|]; auto.
Qed.

Lemma TrimSpace_pathLine f' c :
  plain c -> TrimSpace (pathLine_of (f' ++ [c])) = lit "path = " ++ f' ++ [c].
Proof.
  intros Hc; unfold TrimSpace, pathLine_of.
  change (lit "    path = " ++ f' ++ [c]) with
    (" "%char :: " "%char :: " "%char :: " "%char :: (lit "path = " ++ f' ++ [c])).
  rewrite !TrimLeftSpace_space.
  assert (E : lit "path = " ++ f' ++ [c] =
              "p"%char :: (lit "ath = " ++ f') ++ [c])
    by (rewrite app_assoc; reflexivity).
  rewrite E, TrimLeftSpace_plain by (unfold plain; vm_compute; lia).
  change ("p"%char :: (lit "ath = " ++ f') ++ [c]) with
    (("p"%char :: lit "ath = " ++ f') ++ [c]).
  rewrite TrimRightSpace_plain by exact Hc; reflexivity.
Qed.

Lemma is_path_line_pathLine f' c :
  plain c -> is_path_line (pathLine_of (f' ++ [c])) = true.
Proof.
  intros Hc; unfold is_path_line; rewrite TrimSpace_pathLine by exact Hc.
  apply HasPrefix_app.
Qed.

Lemma TrimSpace_directive_line x :
  TrimSpace (directive_of x ++ [" "%char] ++ marker) =
  directive_of x ++ [" "%char] ++ marker.
Proof.
  assert (E : directive_of x ++ [" "%char] ++ marker =
              "["%char :: (tl (directive_of x) ++ [" "%char] ++
                           lit "# managed by gh-identit") ++ ["y"%char]).
  { unfold directive_of, marker; cbn; rewrite <- !app_assoc; reflexivity. }
  rewrite E; apply TrimSpace_plain; unfold plain; vm_compute; lia.
Qed.

Lemma add_matches_directive_line x :
  add_matches (directive_of x) (directive_of x ++ [" "%char] ++ marker) = true.
Proof.
  unfold add_matches; rewrite TrimSpace_directive_line, TrimSuffix_app.
  apply streqb_refl.
Qed.

Lemma is_path_line_directive_line x :
  is_path_line (directive_of x ++ [" "%char] ++ marker) = false.
Proof.
  unfold is_path_line; rewrite TrimSpace_directive_line; reflexivity.
Qed.

Lemma add_matches_blank x : add_matches (directive_of x) [] = false.
Proof. apply streqb_false; unfold directive_of; simpl; discriminate. Qed.

Lemma add_matches_pathLine x f' c :
  plain c -> add_matches (directive_of x) (pathLine_of (f' ++ [c])) = false.
Proof.
  intros Hc; unfold add_matches; rewrite TrimSpace_pathLine by exact Hc.
  destruct (TrimSuffix_firstn (lit "path = " ++ f' ++ [c])
              ([" "%char] ++ marker)) as [k ->].
  apply streqb_false; unfold directive_of.
  destruct k; simpl; discriminate.
Qed.

Lemma directive_line_no_nl dir :
  ~ In nl dir -> ~ In nl (directive_of (slashed dir) ++ [" "%char] ++ marker).
Proof.
  intros Hd H; unfold directive_of, slashed, marker in H.
  destruct (HasSuffix dir (lit "/")); rewrite !in_app_iff in H; simpl in H;
    intuition (try discriminate; try contradiction).
Qed.

Lemma pathLine_no_nl f' c :
  ~ In nl f' -> plain c -> ~ In nl (pathLine_of (f' ++ [c])).
Proof.
  intros Hf Hc H; unfold pathLine_of in H; rewrite !in_app_iff in H; simpl in H.
  pose proof (plain_not_nl c Hc).
  intuition (try discriminate; try contradiction; try congruence).
Qed.

Lemma directive_line_no_cr x :
  HasSuffix (directive_of x ++ [" "%char] ++ marker) [cr] = false.
Proof. unfold HasSuffix; rewrite rev_app_distr; reflexivity. Qed.

Lemma pathLine_no_cr f' c :
  plain c -> HasSuffix (pathLine_of (f' ++ [c])) [cr] = false.
Proof.
  intros Hc; unfold HasSuffix, pathLine_of; rewrite app_assoc, rev_app_distr.
  simpl; rewrite plain_not_cr by exact Hc; reflexivity.
Qed.

Lemma add_n_fixed n f dir frag :
  fst (AddIncludeIf f dir frag) = f -> add_n n f dir frag = f.
Proof. intros H; induction n as [|n IH]; simpl; [|rewrite H]; auto. Qed.

(** The lines [AddIncludeIf] appends after when no directive with a path
    line is found: a blank line is added unless the last line is blank. *)
Definition pad (lines : list gstr) : list gstr :=
  match rev lines with
  | last :: _ => if streqb last [] then lines else lines ++ [[]]
  | [] => lines
  end.

Lemma AddIncludeIf_cases f dir frag :
  (exists e, read_existing f = Err e /\ AddIncludeIf f dir frag = (f, Err e)) \/
  exists lines, read_existing f = Ok lines /\
   ((exists L, update_path (directive_of (slashed dir)) (pathLine_of frag) lines
               = Some L /\ fst (AddIncludeIf f dir frag) = writeLines L) \/
    (update_path (directive_of (slashed dir)) (pathLine_of frag) lines = None /\
     fst (AddIncludeIf f dir frag) =
     writeLines (pad lines ++ [directive_of (slashed dir) ++ [" "%char] ++ marker;
                               pathLine_of frag]))).
Proof.
  unfold AddIncludeIf; cbv zeta.
  destruct (read_existing f) as [lines|e]; [right|left; eauto].
  exists lines; split; auto.
  destruct (update_path _ _ lines) as [L|]; [left; eauto|right; split; auto].
Qed.

Lemma pad_no_match d p lines :
  update_path d p lines = None -> update_path d p (pad lines) = None.
Proof.
  intros H; unfold pad; destruct (rev lines) as [|l r]; auto.
  destruct (streqb l []); auto.
  rewrite update_path_app by (exact H || reflexivity); reflexivity.
Qed.

Lemma pad_Forall (P : gstr -> Prop) lines :
  P [] -> Forall P lines -> Forall P (pad lines).
Proof.
  intros H0 H; unfold pad; destruct (rev lines); auto.
  destruct (streqb _ _); auto; apply Forall_app; auto.
Qed.

Lemma count_pad dir lines :
  count_directive dir (pad lines) = count_directive dir lines.
Proof.
  unfold pad, count_directive; destruct (rev lines); auto.
  destruct (streqb _ _); auto.
  rewrite filter_app, length_app; cbn [filter].
  rewrite add_matches_blank; cbn [length]; lia.
Qed.

Section Stable.
Variables (f : File) (dir f' : gstr) (c : ascii).
Hypothesis Hdir : ~ In nl dir.
Hypothesis Hf' : ~ In nl f'.
Hypothesis Hc : plain c.
Hypothesis Hcr : cr_free_file f.

Let frag := f' ++ [c].
Let dp := directive_of (slashed dir).
Let pl := pathLine_of frag.
Let dm := dp ++ [" "%char] ++ marker.

Lemma initial_lines lines :
  read_existing f = Ok lines ->
  Forall (fun l => ~ In nl l) lines /\
  Forall (fun l => HasSuffix l [cr] = false) lines.
Proof.
  intros H; destruct (read_existing_ok f lines H) as [->|Hr]; [split; auto|].
  split; [apply (readLines_no_nl f), Hr|apply Hcr, Hr].
Qed.

Lemma appended_stable lines :
  update_path dp pl lines = None ->
  update_path dp pl (pad lines ++ [dm; pl]) = Some (pad lines ++ [dm; pl]).
Proof.
  intros H; rewrite update_path_app.
  - unfold dm, dp; rewrite update_path_eq, add_matches_directive_line.
    unfold pl, frag; rewrite is_path_line_pathLine by exact Hc; reflexivity.
  - apply pad_no_match, H.
  - apply is_path_line_directive_line.
Qed.

Lemma appended_wellformed lines :
  read_existing f = Ok lines ->
  Forall (fun l => ~ In nl l) (pad lines ++ [dm; pl]) /\
  Forall (fun l => HasSuffix l [cr] = false) (pad lines ++ [dm; pl]).
Proof.
  intros Hr; destruct (initial_lines lines Hr) as [HN HC].
  split; apply Forall_app; split.
  - apply pad_Forall; auto; intros [].
  - repeat constructor; [apply directive_line_no_nl, Hdir|].
    apply pathLine_no_nl; auto.
  - apply pad_Forall; auto.
  - repeat constructor; [apply directive_line_no_cr|].
    apply pathLine_no_cr, Hc.
Qed.

(** After one call the file holds lines that a second call reads back
    and leaves as they are. *)
Lemma AddIncludeIf_second_call :
  fst (AddIncludeIf (fst (AddIncludeIf f dir frag)) dir frag) =
  fst (AddIncludeIf f dir frag).
Proof.
  assert (Hpl : is_path_line pl = true)
    by (apply is_path_line_pathLine, Hc).
  assert (HplN : ~ In nl pl) by (apply pathLine_no_nl; auto).
  assert (HplC : HasSuffix pl [cr] = false) by (apply pathLine_no_cr, Hc).
  assert (Hgen : forall L, L <> [] -> Forall (fun l => ~ In nl l) L ->
            Forall (fun l => HasSuffix l [cr] = false) L ->
            update_path dp pl L = Some L ->
            fst (AddIncludeIf (writeLines L) dir frag) = writeLines L).
  { intros L Hne HN HC HU; unfold AddIncludeIf; cbv zeta; unfold read_existing.
    destruct (readLines_write L Hne HN HC) as [E|E]; rewrite E; [|reflexivity].
    unfold dp, pl in HU; rewrite HU; reflexivity. }
  destruct (AddIncludeIf_cases f dir frag) as [(e & _ & E)|(lines & Hr & [(L & HU & E)|(HU & E)])];
    rewrite E.
  - cbn [fst]; rewrite E; reflexivity.
  - destruct (initial_lines lines Hr) as [HN HC].
    apply Hgen.
    + pose proof (update_path_head _ _ _ _ HU).
      destruct L; [|discriminate]; destruct lines as [|? [|]]; discriminate.
    + exact (update_path_Forall _ _ _ _ _ HplN HN HU).
    + exact (update_path_Forall _ _ _ _ _ HplC HC HU).
    + exact (update_path_stable _ _ _ _ Hpl HU).
  - destruct (appended_wellformed lines Hr) as [HN HC].
    apply Hgen; auto.
    + destruct (pad lines); discriminate.
    + apply appended_stable, HU.
Qed.

End Stable.

(** C2 (amended): let the bound directory hold no newline, let the
    fragment path hold no newline and end in a printable ASCII byte other
    than the space, and let no line read from the initial gitconfig end in
    a carriage return.  Then calling [AddIncludeIf] N >= 1 times leaves
    the same file as calling it once.  If moreover no line of the initial
    file is recognized as the directive for that directory, the file
    written holds exactly one such line; it reads back as written unless
    one of its lines is too long for the scanner. *)
Theorem AddIncludeIf_idempotent f dir f' c n :
  ~ In nl dir -> ~ In nl f' -> plain c -> cr_free_file f ->
  add_n (S n) f dir (f' ++ [c]) = add_n 1 f dir (f' ++ [c]) /\
  (forall lines, read_existing f = Ok lines -> count_directive dir lines = 0 ->
   exists L, add_n (S n) f dir (f' ++ [c]) = writeLines L /\
     count_directive dir L = 1 /\
     (readLines (writeLines L) = Ok L \/
      readLines (writeLines L) = Err ErrTooLong)).
Proof.
  intros Hd Hf Hc Hcr.
  pose proof (AddIncludeIf_second_call f dir f' c Hd Hf Hc Hcr) as H2.
  split.
  - cbn [add_n]; apply add_n_fixed, H2.
  - intros lines Hr H0.
    destruct (AddIncludeIf_cases f dir (f' ++ [c]))
      as [(e & He & _)|(lines' & Hr' & [(L & HU & E)|(HU & E)])];
      rewrite Hr in *; [discriminate|inversion Hr'; subst lines'..].
    + exfalso; destruct (update_path_match _ _ _ _ HU) as (l & Hl & Hm).
      unfold count_directive in H0; apply length_zero_iff_nil in H0.
      assert (Hin : In l (filter (add_matches (directive_of (slashed dir))) lines))
        by (apply filter_In; auto).
      rewrite H0 in Hin; destruct Hin.
    + destruct (appended_wellformed f dir f' c Hd Hf Hc Hcr lines Hr) as [HN HC].
      eexists; split; [|split].
      * cbn [add_n]; rewrite add_n_fixed by exact H2; exact E.
      * unfold count_directive; rewrite filter_app, length_app.
        fold (count_directive dir (pad lines)); rewrite count_pad, H0.
        cbn [filter]; rewrite add_matches_directive_line, add_matches_pathLine
          by exact Hc; reflexivity.
      * apply readLines_write; auto; destruct (pad lines); discriminate.
Qed.

(** C2 (counterexample): N calls can differ from one call, and one call
    can leave two directive lines for the directory:
    - a fragment path holding a newline: the path line reads back as two
      lines, and the second call writes the tail again;
    - an initial line "x" followed by two carriage returns: read as "x"
      with one carriage return and written so, then read back as "x" by
      the second call;
    - an empty fragment path: the path line "    path = " trims to
      "path =", which the next call does not take for a path line, so it
      appends another block;
    - an initial bare directive line with no path line after it: one call
      appends a second directive line for the same directory. *)
Theorem AddIncludeIf_not_idempotent :
  add_n 2 None (lit "/a") (lit "/x" ++ [nl] ++ lit "y") <>
  add_n 1 None (lit "/a") (lit "/x" ++ [nl] ++ lit "y") /\
  add_n 2 (Some (lit "x" ++ [cr; cr; nl])) (lit "/a") (lit "/f") <>
  add_n 1 (Some (lit "x" ++ [cr; cr; nl])) (lit "/a") (lit "/f") /\
  add_n 2 None (lit "/a") [] <> add_n 1 None (lit "/a") [] /\
  match readLines (add_n 1 (Some (directive_of (lit "/a/") ++ [nl]))
                     (lit "/a") (lit "/f")) with
  | Ok L => count_directive (lit "/a") L
  | Err _ => 0
  end = 2.
Proof.
  split; [|split; [|split]];
    [intros H; vm_compute in H; discriminate H..|vm_compute; reflexivity].
Qed.

End AddInclude.

(* ------------------------------------------------------------------ *)
(** ** How the three operations recognize a managed line *)

Section Recognize.
Import Gitconfig.

Lemma HasPrefix_true s p : HasPrefix s p = true -> s = p ++ skipn (length p) s.
Proof.
  revert s; induction p as [|c p IH]; intros [|d s] H; simpl in *;
    try discriminate; auto.
  apply andb_true_iff in H as [H1 H2]; apply ascii_eqb_true in H1; subst.
  f_equal; auto.
Qed.

Lemma HasSuffix_split s suf : HasSuffix s suf = true -> exists w, s = w ++ suf.
Proof.
  unfold HasSuffix; intros H; apply HasPrefix_true in H.
  remember (skipn (length (rev suf)) (rev s)) as w eqn:Hw; clear Hw.
  exists (rev w).
  rewrite <- (rev_involutive s), H, rev_app_distr, rev_involutive.
  reflexivity.
Qed.

Lemma space_prefix_some runes s k :
  space_prefix runes s = Some k ->
  exists r, In r runes /\ length r = k /\ s = r ++ skipn k s.
Proof.
  induction runes as [|r rs IH]; simpl; [discriminate|].
  destruct (HasPrefix s r) eqn:E; intros H.
  - inversion H; subst; exists r; split; [left|split]; auto.
    apply HasPrefix_true, E.
  - destruct (IH H) as (r' & ? & ? & ?); exists r'; auto.
Qed.

Lemma strip_left_decomp runes fuel s :
  exists rs, Forall (fun r => In r runes) rs /\
             s = concat rs ++ strip_left runes fuel s.
Proof.
  revert s; induction fuel as [|fuel IH]; intros s; simpl.
  - exists []; auto.
  - destruct (space_prefix runes s) as [[|k]|] eqn:E; try (exists []; auto; fail).
    destruct (space_prefix_some _ _ _ E) as (r & Hr & Hl & Hs).
    destruct (IH (skipn (S k) s)) as (rs & Hrs & Heq).
    exists (r :: rs); split; [constructor; auto|].
    cbn [concat]; rewrite <- app_assoc.
    change (match s with [] => [] | _ :: l => skipn k l end) with (skipn (S k) s).
    rewrite <- Heq; exact Hs.
Qed.

Lemma rev_concat (l : list gstr) : rev (concat l) = concat (rev (map (@rev ascii) l)).
Proof.
  induction l as [|x l IH]; simpl; auto.
  rewrite rev_app_distr, IH, concat_app; simpl; rewrite app_nil_r; reflexivity.
Qed.

(** [strings.TrimSpace] removes white space only: the line is the
    trimmed line with blank text around it. *)
Lemma TrimSpace_decomp line :
  exists pre post, blank pre /\ blank post /\ line = pre ++ TrimSpace line ++ post.
Proof.
  unfold TrimSpace, TrimLeftSpace, TrimRightSpace.
  destruct (strip_left_decomp space_runes (length line) line) as (rs & Hrs & E1).
  set (m := strip_left space_runes (length line) line) in *.
  destruct (strip_left_decomp (map (@rev ascii) space_runes) (length m) (rev m))
    as (qs & Hqs & E2).
  set (u := strip_left (map (@rev ascii) space_runes) (length m) (rev m)) in *.
  exists (concat rs), (rev (concat qs)); split; [exists rs; auto|split].
  - exists (rev (map (@rev ascii) qs)); split; [|apply rev_concat].
    apply Forall_rev, Forall_map.
    eapply Forall_impl; [|exact Hqs]; intros r Hr; cbv beta.
    apply in_map_iff in Hr as (r0 & <- & Hr0); rewrite rev_involutive; exact Hr0.
  - rewrite E1 at 1; f_equal.
    rewrite <- (rev_involutive m) at 1; rewrite E2, rev_app_distr; reflexivity.
Qed.

Lemma index_from_some s sub k i :
  index_from s sub k = Some i ->
  exists j, i = k + j /\ HasPrefix (skipn j s) sub = true.
Proof.
  revert k; induction s as [|c s IH]; intros k H; simpl in H.
  - destruct (HasPrefix [] sub) eqn:E; inversion H; subst; exists 0; split; auto.
  - destruct (HasPrefix (c :: s) sub) eqn:E.
    + inversion H; subst; exists 0; split; auto.
    + destruct (IH (S k) H) as (j & -> & Hj); exists (S j); split; auto; lia.
Qed.

(** What [ListManagedIncludeIfs] reports for a line: the text between
    the first "gitdir:" of the trimmed line and the next quote-bracket,
    wherever they occur, when the trimmed line contains the marker. *)
Lemma managed_dir_some line x :
  managed_dir line = Some x ->
  Contains (TrimSpace line) marker = true /\
  exists a z, TrimSpace line = a ++ lit "gitdir:" ++ x ++ [dq; "]"%char] ++ z.
Proof.
  unfold managed_dir; set (t := TrimSpace line).
  destruct (Contains t marker) eqn:Hc; [|discriminate].
  destruct (Index t (lit "gitdir:")) as [st|] eqn:Hs; [|discriminate].
  destruct (Index (skipn st t) ([dq] ++ lit "]")) as [en|] eqn:He; [|discriminate].
  intros H; inversion H; subst x; clear H; split; auto.
  apply index_from_some in Hs as (j & -> & Hs); simpl plus in *.
  apply HasPrefix_true in Hs; simpl length in Hs.
  set (u := skipn 7 (skipn j t)) in *.
  apply index_from_some in He as (e & -> & He); simpl plus in *.
  rewrite Hs in He.
  destruct e as [|[|[|[|[|[|[|e]]]]]]]; try (simpl in He; discriminate).
  assert (Hu : skipn (S (S (S (S (S (S (S e))))))) (lit "gitdir:" ++ u) = skipn e u) by reflexivity.
  rewrite Hu in He; apply HasPrefix_true in He.
  exists (firstn j t), (skipn 2 (skipn e u)).
  unfold slice.
  replace (j + S (S (S (S (S (S (S e)))))) - (j + 7)) with e by lia.
  replace (skipn (j + 7) t) with u
    by (unfold u; rewrite skipn_skipn; f_equal; lia).
  rewrite <- (firstn_skipn j t) at 1; rewrite Hs; f_equal; f_equal.
  rewrite <- (firstn_skipn e u) at 1; rewrite He at 1; reflexivity.
Qed.

(** How the three operations recognize a directive: [AddIncludeIf]
    recognizes a line as the directive [d]
    only when the line is [d], or [d] followed by " # managed by
    gh-identity", with blank text around it; [RemoveIncludeIf] only when
    the line is [d] with blank text around it, optionally followed by
    " # managed by gh-identity" (blank text may then also stand between
    [d] and the marker).  [ListManagedIncludeIfs] instead works on
    substrings: it reports, for a line whose trimmed text contains the
    marker anywhere, the text between the first "gitdir:" and the next
    quote-bracket, wherever they occur in the line. *)
Theorem directive_recognition d line x :
  (add_matches d line = true ->
   exists pre post, blank pre /\ blank post /\
     (line = pre ++ d ++ post \/
      line = pre ++ d ++ [" "%char] ++ marker ++ post)) /\
  (remove_matches d line = true ->
   exists pre post, blank pre /\ blank post /\
     (line = pre ++ d ++ post \/
      line = pre ++ d ++ post ++ [" "%char] ++ marker)) /\
  (managed_dir line = Some x ->
   Contains (TrimSpace line) marker = true /\
   exists a z, TrimSpace line = a ++ lit "gitdir:" ++ x ++ [dq; "]"%char] ++ z).
Proof.
  split; [|split; [|apply managed_dir_some]].
  - unfold add_matches; intros H; apply streqb_true in H.
    destruct (TrimSpace_decomp line) as (pre & post & Hpre & Hpost & E).
    exists pre, post; split; [|split]; auto.
    set (t := TrimSpace line) in *; clearbody t; subst line.
    destruct (HasSuffix t ([" "%char] ++ marker)) eqn:Hs.
    + destruct (HasSuffix_split _ _ Hs) as (w & ->).
      rewrite TrimSuffix_app in H; subst w.
      right; rewrite <- !app_assoc; reflexivity.
    + unfold TrimSuffix in H; rewrite Hs in H; subst t; left; reflexivity.
  - unfold remove_matches; intros H.
    apply orb_true_iff in H as [H|H]; apply streqb_true in H.
    + destruct (HasSuffix line ([" "%char] ++ marker)) eqn:Hs.
      * destruct (HasSuffix_split _ _ Hs) as (w & ->).
        rewrite TrimSuffix_app in H.
        destruct (TrimSpace_decomp w) as (pre & post & Hpre & Hpost & E).
        rewrite H in E; exists pre, post; split; [|split]; auto.
        right; rewrite E, <- !app_assoc; reflexivity.
      * unfold TrimSuffix in H; rewrite Hs in H.
        destruct (TrimSpace_decomp line) as (pre & post & Hpre & Hpost & E).
        rewrite H in E; exists pre, post; split; [|split]; auto.
    + destruct (TrimSpace_decomp line) as (pre & post & Hpre & Hpost & E).
      rewrite H in E; exists pre, post; split; [|split]; auto.
Qed.

(** C8 (code_bug, failing input): the comment line
    "# [includeIf "gitdir:/a/"] # managed by gh-identity" is plain user
    content for [AddIncludeIf] and [RemoveIncludeIf], but
    [ListManagedIncludeIfs], which tests substrings of the line, reports
    "/a/" for it as a managed directive. *)
Theorem ListManagedIncludeIfs_substring :
  ListManagedIncludeIfs
    (Some (lit "# " ++ directive_of (lit "/a/") ++ [" "%char] ++ marker ++ [nl]))
  = Ok [lit "/a/"] /\
  add_matches (directive_of (lit "/a/"))
    (lit "# " ++ directive_of (lit "/a/") ++ [" "%char] ++ marker) = false /\
  remove_matches (directive_of (lit "/a/"))
    (lit "# " ++ directive_of (lit "/a/") ++ [" "%char] ++ marker) = false.
Proof. split; [|split]; vm_compute; reflexivity. Qed.

End Recognize.

(* ------------------------------------------------------------------ *)
(** ** Removing a profile *)

Section ProfileRemove.
Import Config Gitconfig Profiles.

(** No line of the file is recognised by [RemoveIncludeIf] as the
    directive of a directory of [D], and the file reads without
    [ErrTooLong] and without lines ending in '\r'. *)
Definition clean_of (D : list gstr) (F : File) : Prop :=
  readLines F <> Err ErrTooLong /\
  forall lines, readLines F = Ok lines ->
    Forall (fun l => HasSuffix l [cr] = false) lines /\
    forall l e, In l lines -> In e D ->
      remove_matches (directive_of (slashed e)) l = false.

(** The expanded paths of [removedPaths] that the loop of
    [runProfileRemove] hands to [RemoveIncludeIf]. *)
Fixpoint expanded_of (env : Env) (ps : list gstr) : list gstr :=
  match ps with
  | [] => []
  | p :: ps' =>
      match ExpandPath env p with
      | Ok e => e :: expanded_of env ps'
      | Err _ => expanded_of env ps'
      end
  end.

Lemma dropCR_length l : length (dropCR l) <= length l.
Proof.
  unfold dropCR; destruct (rev l) as [|c r] eqn:E; [lia|].
  destruct (ascii_eqb c cr); [|lia].
  rewrite <- (length_rev l), E, length_rev; cbn [length]; lia.
Qed.

(** Lines read from a file fit in the scanner's buffer. *)
Lemma readLines_short f lines :
  readLines f = Ok lines ->
  Forall (fun l => (MaxScanTokenSize <? S (length l)) = false) lines.
Proof.
  destruct f as [s|]; cbn [readLines]; [|discriminate].
  unfold scanLines; cbv zeta.
  destruct (existsb _ _) eqn:E; [discriminate|].
  intros H; inversion H; subst; clear H.
  apply Forall_forall; intros y Hy; apply in_map_iff in Hy as (x & <- & Hx).
  destruct (MaxScanTokenSize <? S (length x)) eqn:Ex.
  - assert (Ht : existsb (fun l => MaxScanTokenSize <? S (length l))
                   (raw_lines s) = true)
      by (apply existsb_exists; exists x; auto).
    rewrite Ht in E; discriminate.
  - apply Nat.ltb_ge in Ex; apply Nat.ltb_ge.
    pose proof (dropCR_length x); lia.
Qed.

Lemma readLines_write_ok L :
  L <> [] -> Forall (fun l => ~ In nl l) L ->
  Forall (fun l => HasSuffix l [cr] = false) L ->
  Forall (fun l => (MaxScanTokenSize <? S (length l)) = false) L ->
  readLines (writeLines L) = Ok L.
Proof.
  intros Hne HL HC HS; unfold readLines, writeLines, scanLines; cbv zeta.
  rewrite raw_lines_write by auto.
  destruct (existsb _ L) eqn:E.
  - apply existsb_exists in E as (x & Hx & Hb).
    rewrite Forall_forall in HS; rewrite HS in Hb by exact Hx; discriminate.
  - rewrite map_dropCR by exact HC; reflexivity.
Qed.

Lemma remove_loop_sub d skip lines l :
  In l (remove_loop d skip lines) -> In l lines /\ remove_matches d l = false.
Proof.
  revert skip; induction lines as [|x lines IH]; intros skip; cbn [remove_loop].
  - intros [].
  - destruct (remove_matches d x) eqn:Ex.
    + intros H; apply IH in H as [H1 H2]; split; [right|]; assumption.
    + destruct (skip && is_path_line x).
      * intros H; apply IH in H as [H1 H2]; split; [right|]; assumption.
      * intros [<-|H]; [split; [left|]; auto|].
        apply IH in H as [H1 H2]; split; [right|]; assumption.
Qed.

Lemma drop_blank_sub l x : In x (drop_blank l) -> In x l.
Proof.
  induction l as [|y l IH]; cbn [drop_blank]; [auto|].
  destruct (streqb y []); [intros H; right; auto|auto].
Qed.

Lemma drop_trailing_blank_sub l x : In x (drop_trailing_blank l) -> In x l.
Proof.
  unfold drop_trailing_blank; intros H.
  apply in_rev, drop_blank_sub, in_rev in H; exact H.
Qed.

Lemma remove_matches_nil x : remove_matches (directive_of x) [] = false.
Proof.
  unfold remove_matches.
  replace (TrimSpace (TrimSuffix [] ([" "%char] ++ marker))) with (@nil ascii)
    by reflexivity.
  replace (TrimSpace []) with (@nil ascii) by reflexivity.
  assert (H : streqb [] (directive_of x) = false)
    by (apply streqb_false; unfold directive_of; discriminate).
  rewrite H; reflexivity.
Qed.

Lemma clean_of_mono D D' F : clean_of D F -> incl D' D -> clean_of D' F.
Proof.
  intros [H1 H2] Hi; split; [exact H1|].
  intros lines Hl; destruct (H2 lines Hl) as [H3 H4]; split; [exact H3|].
  intros l e Hl' He; apply H4; auto.
Qed.

(** One call of [RemoveIncludeIf] on a clean file keeps it clean and adds
    its directory. *)
Lemma RemoveIncludeIf_clean D F e :
  clean_of D F -> clean_of (e :: D) (fst (RemoveIncludeIf F e)).
Proof.
  intros [HT HD]; unfold RemoveIncludeIf; cbv zeta.
  destruct (readLines F) as [lines|err] eqn:HR.
  - cbn [fst]. destruct (HD lines eq_refl) as [HC HDl].
    pose proof (readLines_no_nl F lines HR) as HN.
    pose proof (readLines_short F lines HR) as HS.
    remember (drop_trailing_blank
                (remove_loop (directive_of (slashed e)) false lines)) as L eqn:EL.
    assert (Hsub : forall l, In l L -> In l lines /\
              remove_matches (directive_of (slashed e)) l = false)
      by (intros l Hl; subst L; apply remove_loop_sub with (skip := false),
            drop_trailing_blank_sub, Hl).
    clear EL; destruct L as [|l0 L0].
    + assert (Hw : readLines (writeLines []) = Ok [[]]) by reflexivity.
      unfold clean_of; rewrite Hw; split; [discriminate|].
      intros lines' H; inversion H; subst lines'; clear H.
      split; [repeat constructor|].
      intros l e' [<-|[]] _; apply remove_matches_nil.
    + assert (Hw : readLines (writeLines (l0 :: L0)) = Ok (l0 :: L0)).
      { apply readLines_write_ok.
        - discriminate.
        - apply Forall_forall; intros l Hl; apply (proj1 (Forall_forall _ _) HN),
            (Hsub l Hl).
        - apply Forall_forall; intros l Hl; apply (proj1 (Forall_forall _ _) HC),
            (Hsub l Hl).
        - apply Forall_forall; intros l Hl; apply (proj1 (Forall_forall _ _) HS),
            (Hsub l Hl). }
      unfold clean_of; rewrite Hw; split; [discriminate|].
      intros lines' H; inversion H; subst lines'; clear H.
      split.
      * apply Forall_forall; intros l Hl; apply (proj1 (Forall_forall _ _) HC),
          (Hsub l Hl).
      * intros l e' Hl [<-|He']; [apply (Hsub l Hl)|].
        apply HDl; [apply (Hsub l Hl)|exact He'].
  - assert (Hf : fst (match Err err with
                      | Err ErrNotExist => (F, Ok tt)
                      | Err e0 => (F, Err e0)
                      | Ok lines =>
                          (writeLines (drop_trailing_blank
                             (remove_loop (directive_of (slashed e)) false lines)),
                           Ok tt)
                      end) = F) by (destruct err; reflexivity).
    rewrite Hf; split; [rewrite HR; exact HT|].
    intros lines H; rewrite H in HR; discriminate.
Qed.

(** [RemoveIncludeIf] on the disk, when neither reading nor writing the
    global gitconfig fails, writes what [Gitconfig.RemoveIncludeIf] gives. *)
Lemma RemoveIncludeIf_io_at io fs gc e :
  io Disk.ReadOp gc = None -> io Disk.WriteOp gc = None ->
  fst (RemoveIncludeIf_io io fs gc e) gc = fst (RemoveIncludeIf (fs gc) e).
Proof.
  intros HR HW; unfold RemoveIncludeIf_io, readLines_io, writeLines_io,
    RemoveIncludeIf; rewrite HR.
  destruct (readLines (fs gc)) as [lines|err].
  - rewrite HW; cbn [fst]; unfold update_file; rewrite streqb_refl; reflexivity.
  - destruct err; reflexivity.
Qed.

(** [RemoveIncludeIf] on the disk writes no file other than the global
    gitconfig, and never creates it. *)
Lemma RemoveIncludeIf_io_frame io fs gc e q :
  fst (RemoveIncludeIf_io io fs gc e) q = fs q \/
  (q = gc /\ fs q <> None).
Proof.
  unfold RemoveIncludeIf_io, readLines_io, writeLines_io.
  destruct (io Disk.ReadOp gc) as [err|]; [left; reflexivity|].
  destruct (readLines (fs gc)) as [lines|err] eqn:HR; [|left; reflexivity].
  destruct (io Disk.WriteOp gc); [left; reflexivity|].
  cbn [fst]; unfold update_file; destruct (streqb q gc) eqn:E; [|left; reflexivity].
  apply streqb_true in E; subst q; right; split; [reflexivity|].
  intros Hn; rewrite Hn in HR; discriminate.
Qed.

Lemma remove_includes_cons io env gc fs p ps :
  remove_includes io env gc fs (p :: ps) =
  remove_includes io env gc
    (match ExpandPath env p with
     | Err _ => fs
     | Ok expanded => fst (RemoveIncludeIf_io io fs gc expanded)
     end) ps.
Proof. reflexivity. Qed.

Lemma remove_includes_clean io env gc ps :
  io Disk.ReadOp gc = None -> io Disk.WriteOp gc = None ->
  forall fs D, clean_of D (fs gc) ->
  clean_of (expanded_of env ps ++ D) (remove_includes io env gc fs ps gc).
Proof.
  intros HR HW; induction ps as [|p ps IH]; intros fs D H; [exact H|].
  rewrite remove_includes_cons; cbn [expanded_of].
  destruct (ExpandPath env p) as [e|err].
  - apply clean_of_mono with (expanded_of env ps ++ e :: D).
    + apply IH; rewrite (RemoveIncludeIf_io_at io fs gc e HR HW).
      apply RemoveIncludeIf_clean, H.
    + intros x Hx; cbn [app] in Hx; apply in_app_iff.
      destruct Hx as [<-|Hx]; [right; left; reflexivity|].
      apply in_app_iff in Hx as [Hx|Hx]; [left|right; right]; exact Hx.
  - apply IH, H.
Qed.

(** The loop never recreates a missing file. *)
Lemma remove_includes_none io env gc ps :
  forall fs q, fs q = None -> remove_includes io env gc fs ps q = None.
Proof.
  induction ps as [|p ps IH]; intros fs q H; [exact H|].
  rewrite remove_includes_cons; apply IH.
  destruct (ExpandPath env p) as [e|err]; [|exact H].
  destruct (RemoveIncludeIf_io_frame io fs gc e q) as [->|[_ Hn]];
    [exact H|contradiction].
Qed.

Lemma expanded_of_In env ps p e :
  In p ps -> ExpandPath env p = Ok e -> In e (expanded_of env ps).
Proof.
  induction ps as [|p' ps IH]; [intros []|].
  intros [<-|Hp] He; cbn [expanded_of].
  - rewrite He; left; reflexivity.
  - destruct (ExpandPath env p'); [right|]; auto.
Qed.

Lemma lookup_delete name m : lookup name (delete name m) = None.
Proof.
  unfold lookup, delete; induction m as [|kv m IH]; [reflexivity|].
  cbn [filter]; destruct (streqb (fst kv) name) eqn:E; cbn [negb]; [exact IH|].
  cbn [find]; rewrite E; exact IH.
Qed.


Lemma not_in_repeat (c d : ascii) n : c <> d -> ~ In c (repeat d n).
Proof. intros Hcd H; apply repeat_spec in H; exact (Hcd H). Qed.

Lemma raw_lines_long :
  raw_lines gitconfig_long =
  [directive_of (lit "/a/") ++ [" "%char] ++ marker;
   pathLine_of (lit "/home/u/.config/gh-identity/git/work.gitconfig");
   repeat "x"%char MaxScanTokenSize].
Proof.
  unfold raw_lines, gitconfig_long; cbv zeta.
  rewrite split_nl_app by (intros H; simpl in H; intuition discriminate).
  rewrite split_nl_app by (intros H; simpl in H; intuition discriminate).
  rewrite split_nl_app by (apply not_in_repeat; discriminate).
  reflexivity.
Qed.

Lemma readLines_long : readLines (Some gitconfig_long) = Err ErrTooLong.
Proof.
  unfold readLines, scanLines; cbv zeta; rewrite raw_lines_long.
  cbn [existsb].
  assert (H1 : (MaxScanTokenSize <? S (length (directive_of (lit "/a/")
                 ++ [" "%char] ++ marker))) = false) by (vm_compute; reflexivity).
  assert (H2 : (MaxScanTokenSize <? S (length (pathLine_of
                 (lit "/home/u/.config/gh-identity/git/work.gitconfig")))) = false)
    by (vm_compute; reflexivity).
  assert (H3 : (MaxScanTokenSize <? S (length (repeat "x"%char
                 MaxScanTokenSize))) = true)
    by (rewrite repeat_length; apply Nat.ltb_lt; lia).
  rewrite H1, H2, H3; reflexivity.
Qed.

(** The stores of a successful [runProfileRemove]: the profile store
    loaded, the profile removed and saved, the bindings loaded and the
    remaining ones saved. *)
Lemma runProfileRemove_success io env w name w' :
  runProfileRemove io env w name = (w', Ok tt) ->
  exists pf bs,
    LoadProfiles io env w = Ok (profiles_yml w) /\
    RemoveProfile (profiles_yml w) name = Ok pf /\
    LoadBindings io env w = Ok bs /\
    profiles_yml w' = pf /\
    bindings_yml w' = filter (fun b => negb (streqb (Config.Profile b) name)) bs /\
    (exists d, Dir env = Ok d) /\
    w' = mkWorld pf (filter (fun b => negb (streqb (Config.Profile b) name)) bs)
      (let fs := match RemoveProfileFragment io env (files w) name with
                 | Ok fs => fs
                 | Err _ => files w
                 end in
       match GlobalGitconfigPath env with
       | Ok gcPath => remove_includes io env gcPath fs
                        (map Path (filter (fun b => streqb (Config.Profile b) name) bs))
       | Err _ => fs
       end).
Proof.
  unfold runProfileRemove; intros H.
  destruct (LoadProfiles io env w) as [profiles|err] eqn:HLP; [|discriminate].
  destruct (RemoveProfile profiles name) as [pf|err] eqn:HP; [|discriminate].
  assert (Hpr : profiles = profiles_yml w).
  { unfold LoadProfiles, load_doc in HLP.
    destruct (ProfilesPath env) as [pp|err]; cbn [bind] in HLP; [|discriminate].
    destruct (io Disk.ReadOp pp) as [err|].
    - destruct (Disk.IsNotExist err); [|discriminate HLP].
      injection HLP as <-; discriminate HP.
    - injection HLP as <-; reflexivity. }
  subst profiles.
  unfold SaveProfiles in H.
  destruct (path <- ProfilesPath env ;; SaveTo io path) as [u|err] eqn:HS;
    [|discriminate].
  assert (HLB : LoadBindings io env (mkWorld pf (bindings_yml w) (files w)) =
                LoadBindings io env w) by reflexivity.
  rewrite HLB in H.
  destruct (LoadBindings io env w) as [bs|err] eqn:HB; [|discriminate].
  unfold SaveBindings in H; cbn [profiles_yml bindings_yml files] in H.
  destruct (path <- BindingsPath env ;; SaveTo io path) as [u'|err] eqn:HS';
    [|discriminate].
  cbn [profiles_yml bindings_yml files] in H.
  injection H as Hw; subst w'.
  exists pf, bs; repeat split; auto.
  unfold ProfilesPath in HS; destruct (Dir env) as [d|err]; [eauto|discriminate].
Qed.

(** A run of [runProfileRemove] where the fragment cannot be removed and
    the global gitconfig cannot be written (permission denied): the
    command succeeds, the fragment is still there, and the global
    gitconfig keeps the directive line of the bound directory [/a]. *)
Lemma runProfileRemove_best_effort :
  snd (runProfileRemove io_readonly env0 (world_with gitconfig_short) (lit "work"))
    = Ok tt /\
  GitConfigDir env0 = Ok (lit "/home/u/.config/gh-identity/git") /\
  files (fst (runProfileRemove io_readonly env0 (world_with gitconfig_short)
                (lit "work")))
    (lit "/home/u/.config/gh-identity/git/work.gitconfig") = Some (lit "[user]" ++ [nl]) /\
  GlobalGitconfigPath env0 = Ok (lit "/home/u/.gitconfig") /\
  ExpandPath env0 (lit "/a") = Ok (lit "/a") /\
  files (fst (runProfileRemove io_readonly env0 (world_with gitconfig_short)
                (lit "work")))
    (lit "/home/u/.gitconfig") = Some gitconfig_short /\
  existsb (remove_matches (directive_of (slashed (lit "/a"))))
    (raw_lines gitconfig_short) = true.
Proof. repeat split; vm_compute; reflexivity. Qed.

(** C5: after a successful [runProfileRemove io env w name]: the profile
    existed and is no longer in the saved store; the default-profile
    field is cleared when it named the profile and kept otherwise; the
    saved bindings are the loaded ones without those of the profile.  The
    rest is best-effort: the fragment file is absent when its removal did
    not fail; when the global gitconfig path resolves, reading and writing
    the global gitconfig do not fail, it reads without [ErrTooLong] and
    has no line ending in '\r', the resulting global gitconfig reads
    without [ErrTooLong] and none of its lines is recognised by
    [RemoveIncludeIf] as the directive of a removed binding's directory
    that expands. *)
Theorem runProfileRemove_cascade io env w name w' :
  runProfileRemove io env w name = (w', Ok tt) ->
  lookup name (Profiles.Profiles (profiles_yml w)) <> None /\
  lookup name (Profiles.Profiles (profiles_yml w')) = None /\
  Default (profiles_yml w') =
    (if streqb (Default (profiles_yml w)) name then []
     else Default (profiles_yml w)) /\
  exists bs,
    LoadBindings io env w = Ok bs /\
    bindings_yml w' = filter (fun b => negb (streqb (Config.Profile b) name)) bs /\
    (forall b, In b (bindings_yml w') -> Config.Profile b <> name) /\
    (exists dir, GitConfigDir env = Ok dir /\
       (io Disk.RemoveOp (Join dir (name ++ lit ".gitconfig")) = None ->
        files w' (Join dir (name ++ lit ".gitconfig")) = None)) /\
    (forall gcPath, GlobalGitconfigPath env = Ok gcPath ->
       io Disk.ReadOp gcPath = None -> io Disk.WriteOp gcPath = None ->
       readLines (files w gcPath) <> Err ErrTooLong ->
       cr_free_file (files w gcPath) ->
       readLines (files w' gcPath) <> Err ErrTooLong /\
       forall lines, readLines (files w' gcPath) = Ok lines ->
       forall b e, In b bs -> Config.Profile b = name ->
       ExpandPath env (Path b) = Ok e ->
       forall l, In l lines ->
       remove_matches (directive_of (slashed e)) l = false).
Proof.
  intros Hrun.
  destruct (runProfileRemove_success io env w name w' Hrun)
    as (pf & bs & _ & HP & HB & Hp' & Hb' & [d HD] & Hw').
  unfold RemoveProfile in HP.
  destruct (lookup name (Profiles.Profiles (profiles_yml w))) as [p|] eqn:HL;
    [|discriminate].
  injection HP as HP; subst pf.
  rewrite Hp'; cbn [Profiles.Profiles Default].
  split; [discriminate|].
  split; [apply lookup_delete|].
  split; [reflexivity|].
  exists bs; split; [exact HB|].
  split; [exact Hb'|].
  split.
  { intros b Hb; rewrite Hb' in Hb; apply filter_In in Hb as [_ Hb].
    apply negb_true_iff, streqb_false in Hb; exact Hb. }
  assert (HG : GitConfigDir env = Ok (Join d (lit "git")))
    by (unfold GitConfigDir; rewrite HD; reflexivity).
  set (frag := Join (Join d (lit "git")) (name ++ lit ".gitconfig")).
  set (removed := map Path (filter (fun b => streqb (Config.Profile b) name) bs)).
  split.
  { exists (Join d (lit "git")); split; [exact HG|].
    intros HRm; rewrite Hw'; cbn [files].
    assert (HF : RemoveProfileFragment io env (files w) name =
                 Ok (update_file (files w) frag None)).
    { unfold RemoveProfileFragment; rewrite HG; cbn [bind]; cbv zeta; fold frag.
      fold frag in HRm; rewrite HRm; reflexivity. }
    rewrite HF; fold removed.
    destruct (GlobalGitconfigPath env) as [gc|err].
    - apply remove_includes_none; unfold update_file; rewrite streqb_refl;
        reflexivity.
    - unfold update_file; rewrite streqb_refl; reflexivity. }
  intros gc Hgc HRd HWr HT Hcr.
  rewrite Hw'; cbn [files]; rewrite Hgc; fold removed.
  set (fs0 := match RemoveProfileFragment io env (files w) name with
              | Ok fs => fs
              | Err _ => files w
              end).
  assert (H0 : clean_of [] (fs0 gc)).
  { assert (Hfs : fs0 gc = files w gc \/ fs0 gc = None).
    { unfold fs0, RemoveProfileFragment; rewrite HG; cbn [bind].
      destruct (io Disk.RemoveOp _) as [err|].
      - destruct (Disk.IsNotExist err); left; reflexivity.
      - unfold update_file; destruct (streqb gc _); [right|left]; reflexivity. }
    destruct Hfs as [-> | ->].
    - split; [exact HT|].
      intros lines H; split; [apply Hcr, H|intros l e _ []].
    - split; [discriminate|intros lines H; discriminate]. }
  pose proof (remove_includes_clean io env gc removed HRd HWr fs0 [] H0) as [H1 H2].
  split; [exact H1|].
  intros lines Hl b e Hb Hpb He l Hin.
  apply (proj2 (H2 lines Hl) l e Hin), in_app_iff; left.
  apply expanded_of_In with (p := Path b); [|exact He].
  apply in_map, filter_In; split; [exact Hb|].
  rewrite Hpb; apply streqb_refl.
Qed.

End ProfileRemove.

(* ------------------------------------------------------------------ *)
(** ** The shell formatters *)

Section Formatting.

Lemma quote_byte_no_nl c : ~ In nl (Quote.quote_byte c).
Proof.
  intros H.
  assert (E : existsb (ascii_eqb nl) (Quote.quote_byte c) = false)
    by (destruct c as [[] [] [] [] [] [] [] []]; vm_compute; reflexivity).
  assert (E' : existsb (ascii_eqb nl) (Quote.quote_byte c) = true)
    by (apply existsb_exists; exists nl; split; [exact H|reflexivity]).
  rewrite E in E'; discriminate.
Qed.

(** Go's [%q] on ASCII bytes never prints a newline. *)
Lemma go_quote_ascii_no_nl v : ~ In nl (Quote.go_quote_ascii v).
Proof.
  unfold Quote.go_quote_ascii; intros H.
  apply in_app_iff in H as [[H|[]]|H]; [discriminate H|].
  apply in_app_iff in H as [H|[H|[]]]; [|discriminate H].
  apply in_flat_map in H as (c & _ & Hc); exact (quote_byte_no_nl c Hc).
Qed.

Variable quote : gstr -> gstr.
Hypothesis Hq : forall v, ~ In nl (quote v).

Lemma lines_cons x s :
  ~ In nl x -> lines_of ((x ++ [nl]) ++ s) = x :: lines_of s.
Proof.
  intros Hx; unfold lines_of; rewrite <- app_assoc.
  change ([nl] ++ s) with (nl :: s); rewrite split_nl_app by exact Hx.
  reflexivity.
Qed.

Lemma lines_nil : lines_of [] = [[]].
Proof. reflexivity. Qed.

Lemma writer_stmt shell key v :
  (if streqb shell Fish then writeFishExport quote else writePosixExport quote)
    key v = export_stmt quote shell key v ++ [nl].
Proof.
  unfold export_stmt, writeFishExport, writePosixExport.
  destruct (streqb shell Fish); rewrite <- !app_assoc; reflexivity.
Qed.

Lemma export_stmt_no_nl shell key v :
  ~ In nl key -> ~ In nl (export_stmt quote shell key v).
Proof.
  intros Hk; unfold export_stmt; destruct (streqb shell Fish);
    intros H; repeat (apply in_app_iff in H as [H|H]);
    try exact (Hk H); try exact (Hq v H);
    repeat (destruct H as [H|H]; [discriminate H|]); exact H.
Qed.

Lemma lines_opt (c : bool) x s :
  ~ In nl x ->
  lines_of (opt c (x ++ [nl]) ++ s) = (if c then [x] else []) ++ lines_of s.
Proof.
  intros Hx; destruct c; cbn [opt]; [apply lines_cons, Hx|reflexivity].
Qed.

Ltac no_nl := intros H; simpl in H; intuition discriminate.

(** The lines of [formatExports]. *)
Lemma formatExports_lines shell env :
  lines_of (formatExports quote shell env) =
  [export_stmt quote shell (lit "GH_TOKEN") (T_GHToken env);
   export_stmt quote shell (lit "GIT_AUTHOR_NAME") (T_GitAuthorName env);
   export_stmt quote shell (lit "GIT_AUTHOR_EMAIL") (T_GitAuthorEmail env);
   export_stmt quote shell (lit "GIT_COMMITTER_NAME") (T_GitCommitterName env);
   export_stmt quote shell (lit "GIT_COMMITTER_EMAIL") (T_GitCommitterEmail env);
   export_stmt quote shell (lit "GH_IDENTITY_PROFILE") (T_GHIdentityProfile env)]
  ++ (if negb (streqb (T_GHSSHCommand env) []) then
        [export_stmt quote shell (lit "GIT_SSH_COMMAND") (T_GHSSHCommand env)]
      else [])
  ++ (if negb (streqb (T_GitAskPass env) []) then
        [export_stmt quote shell (lit "GIT_ASKPASS") (T_GitAskPass env)]
      else [])
  ++ [[]].
Proof.
  unfold formatExports; cbv zeta; rewrite !writer_stmt.
  rewrite !lines_cons by (apply export_stmt_no_nl; no_nl).
  rewrite lines_opt by (apply export_stmt_no_nl; no_nl).
  rewrite <- (app_nil_r (opt _ (export_stmt quote shell (lit "GIT_ASKPASS")
                                  (T_GitAskPass env) ++ [nl]))).
  rewrite lines_opt by (apply export_stmt_no_nl; no_nl).
  reflexivity.
Qed.

(** The lines of [formatOutput]. *)
Lemma formatOutput_lines shell env :
  ~ In nl (GHUser env) ->
  lines_of (formatOutput quote shell env) =
  [if streqb shell Fish then lit "set -e GH_TOKEN 2>/dev/null"
   else lit "unset GH_TOKEN 2>/dev/null";
   lit "gh auth switch --user " ++ GHUser env ++ lit " 2>/dev/null";
   export_stmt quote shell (lit "GIT_AUTHOR_NAME") (GitAuthorName env);
   export_stmt quote shell (lit "GIT_AUTHOR_EMAIL") (GitAuthorEmail env);
   export_stmt quote shell (lit "GIT_COMMITTER_NAME") (GitCommitterName env);
   export_stmt quote shell (lit "GIT_COMMITTER_EMAIL") (GitCommitterEmail env);
   export_stmt quote shell (lit "GH_IDENTITY_PROFILE") (GHIdentityProfile env)]
  ++ (if negb (streqb (GHSSHCommand env) []) then
        [export_stmt quote shell (lit "GIT_SSH_COMMAND") (GHSSHCommand env)]
      else [])
  ++ [[]].
Proof.
  intros Hu; unfold formatOutput; cbv zeta.
  replace (if streqb shell Fish then writeFishExport quote else writePosixExport quote)
    with (if streqb shell Fish then writeFishExport quote else writePosixExport quote)
    by reflexivity.
  rewrite !writer_stmt.
  assert (Hs : switch_line (GHUser env) =
               (lit "gh auth switch --user " ++ GHUser env ++ lit " 2>/dev/null")
               ++ [nl])
    by (unfold switch_line; rewrite <- !app_assoc; reflexivity).
  rewrite Hs.
  destruct (streqb shell Fish) eqn:Ef;
    (rewrite lines_cons by no_nl);
    (rewrite lines_cons
       by (intros H; apply in_app_iff in H as [H|H];
           [simpl in H; intuition discriminate
           |apply in_app_iff in H as [H|H];
            [exact (Hu H)|simpl in H; intuition discriminate]]));
    rewrite !lines_cons by (apply export_stmt_no_nl; no_nl);
    rewrite <- (app_nil_r (opt _ (export_stmt quote shell (lit "GIT_SSH_COMMAND")
                                    (GHSSHCommand env) ++ [nl])));
    rewrite lines_opt by (apply export_stmt_no_nl; no_nl);
    reflexivity.
Qed.

(** C7: in both dialects, [formatExports] and [formatOutput] print a
    statement for [GH_TOKEN] (formatExports only), [GIT_AUTHOR_NAME],
    [GIT_AUTHOR_EMAIL], [GIT_COMMITTER_NAME], [GIT_COMMITTER_EMAIL] and
    [GH_IDENTITY_PROFILE] whatever their values, empty ones included; only
    [GIT_SSH_COMMAND] (both) and [GIT_ASKPASS] (formatExports) are left out
    when empty.  When [%q] prints no newline (and, for formatOutput, the
    GitHub user holds none), the output holds no [GIT_SSH_COMMAND]
    statement when the SSH command is empty and exactly one otherwise. *)
Theorem formatters_ssh_statement shell :
  (forall env,
     lines_of (formatExports quote shell env) =
     [export_stmt quote shell (lit "GH_TOKEN") (T_GHToken env);
      export_stmt quote shell (lit "GIT_AUTHOR_NAME") (T_GitAuthorName env);
      export_stmt quote shell (lit "GIT_AUTHOR_EMAIL") (T_GitAuthorEmail env);
      export_stmt quote shell (lit "GIT_COMMITTER_NAME") (T_GitCommitterName env);
      export_stmt quote shell (lit "GIT_COMMITTER_EMAIL") (T_GitCommitterEmail env);
      export_stmt quote shell (lit "GH_IDENTITY_PROFILE") (T_GHIdentityProfile env)]
     ++ (if negb (streqb (T_GHSSHCommand env) []) then
           [export_stmt quote shell (lit "GIT_SSH_COMMAND") (T_GHSSHCommand env)]
         else [])
     ++ (if negb (streqb (T_GitAskPass env) []) then
           [export_stmt quote shell (lit "GIT_ASKPASS") (T_GitAskPass env)]
         else [])
     ++ [[]] /\
     ssh_statements shell (formatExports quote shell env) =
     (if streqb (T_GHSSHCommand env) [] then 0 else 1)) /\
  (forall env, ~ In nl (GHUser env) ->
     lines_of (formatOutput quote shell env) =
     [if streqb shell Fish then lit "set -e GH_TOKEN 2>/dev/null"
      else lit "unset GH_TOKEN 2>/dev/null";
      lit "gh auth switch --user " ++ GHUser env ++ lit " 2>/dev/null";
      export_stmt quote shell (lit "GIT_AUTHOR_NAME") (GitAuthorName env);
      export_stmt quote shell (lit "GIT_AUTHOR_EMAIL") (GitAuthorEmail env);
      export_stmt quote shell (lit "GIT_COMMITTER_NAME") (GitCommitterName env);
      export_stmt quote shell (lit "GIT_COMMITTER_EMAIL") (GitCommitterEmail env);
      export_stmt quote shell (lit "GH_IDENTITY_PROFILE") (GHIdentityProfile env)]
     ++ (if negb (streqb (GHSSHCommand env) []) then
           [export_stmt quote shell (lit "GIT_SSH_COMMAND") (GHSSHCommand env)]
         else [])
     ++ [[]] /\
     ssh_statements shell (formatOutput quote shell env) =
     (if streqb (GHSSHCommand env) [] then 0 else 1)).
Proof.
  split.
  - intros env; split; [apply formatExports_lines|].
    unfold ssh_statements; rewrite formatExports_lines.
    unfold export_stmt, ssh_prefix.
    destruct (streqb shell Fish), (streqb (T_GHSSHCommand env) []),
      (streqb (T_GitAskPass env) []); reflexivity.
  - intros env Hu; split; [apply formatOutput_lines, Hu|].
    unfold ssh_statements; rewrite formatOutput_lines by exact Hu.
    unfold export_stmt, ssh_prefix.
    destruct (streqb shell Fish), (streqb (GHSSHCommand env) []); reflexivity.
Qed.

End Formatting.

(** [formatExports] and [formatOutput] with an empty author name, quoted
    with Go's [%q]: the [GIT_AUTHOR_NAME] statement is printed with an
    empty quoted value. *)
Lemma formatters_empty_value_printed :
  In (lit "export GIT_AUTHOR_NAME=" ++ [dq; dq])
     (lines_of (formatExports Quote.go_quote_ascii (lit "bash")
        (mkEnvOutputT (lit "tok") [] (lit "w@x") (lit "W") (lit "w@x")
           (lit "work") [] []))) /\
  In (lit "set -gx GIT_AUTHOR_NAME " ++ [dq; dq])
     (lines_of (formatOutput Quote.go_quote_ascii (lit "fish")
        (mkEnvOutput (lit "w") [] (lit "w@x") (lit "W") (lit "w@x")
           (lit "work") []))).
Proof.
  split; vm_compute; repeat (try (left; reflexivity); right).
Qed.

(* ------------------------------------------------------------------ *)
(** ** Lookups in the binding store after [AddBinding] and [RemoveBinding] *)

Section BindingLookup.
Import Config.

Variable env : Env.

Lemma scan_app e l1 l2 i :
  scan env e (l1 ++ l2) i =
  match scan env e l1 i with
  | Some j => Some j
  | None => scan env e l2 (length l1 + i)
  end.
Proof.
  revert i; induction l1 as [|c l1 IH]; intros i; simpl; auto.
  destruct (ExpandPath env (Path c)) as [p|y].
  - destruct (streqb p e); auto.
    rewrite IH; destruct (scan env e l1 (S i)); auto; try (f_equal; lia).
  - rewrite IH; destruct (scan env e l1 (S i)); auto; try (f_equal; lia).
Qed.

Lemma scan_none_intro e bs i :
  (forall c, In c bs -> ExpandPath env (Path c) <> Ok e) ->
  scan env e bs i = None.
Proof.
  revert i; induction bs as [|c bs IH]; intros i H; simpl; auto.
  destruct (ExpandPath env (Path c)) as [p|y] eqn:Ec.
  - destruct (streqb p e) eqn:E.
    + apply streqb_true in E; subst. exfalso; apply (H c); auto. left; auto.
    + apply IH; intros; apply H; right; auto.
  - apply IH; intros; apply H; right; auto.
Qed.

(** The scan looks only at the stored paths. *)
Lemma scan_paths e bs1 bs2 i :
  map Path bs1 = map Path bs2 -> scan env e bs1 i = scan env e bs2 i.
Proof.
  revert bs2 i; induction bs1 as [|c bs1 IH]; intros [|c2 bs2] i H;
    simpl in H; try discriminate; simpl; auto.
  inversion H as [[Hc Hr]]. rewrite Hc.
  destruct (ExpandPath env (Path c2)); [destruct (streqb a e)|]; auto.
Qed.

Lemma set_profile_at_paths i prof bs :
  map Path (set_profile_at i prof bs) = map Path bs.
Proof.
  revert i; induction bs as [|c bs IH]; intros [|i]; simpl; auto.
  rewrite IH; reflexivity.
Qed.

Lemma nth_error_set_profile_at i j prof bs :
  i <> j -> nth_error (set_profile_at i prof bs) j = nth_error bs j.
Proof.
  revert i j; induction bs as [|c bs IH]; intros [|i] [|j] H; simpl;
    try reflexivity; try lia.
  apply IH; lia.
Qed.

Lemma nth_error_set_profile_at_same i prof bs b :
  nth_error bs i = Some b ->
  nth_error (set_profile_at i prof bs) i = Some (mkBinding (Path b) prof).
Proof.
  revert i; induction bs as [|c bs IH]; intros [|i] H; simpl in *;
    try discriminate.
  - inversion H; reflexivity.
  - apply IH; auto.
Qed.

Lemma scan_some_nth e bs j :
  scan env e bs 0 = Some j ->
  exists b, nth_error bs j = Some b /\ ExpandPath env (Path b) = Ok e.
Proof.
  intros H; destruct (scan_some env e bs j H) as (pre & bj & post & -> & <- & Hb & _).
  exists bj; split; auto. rewrite nth_error_app2, Nat.sub_diag by lia; reflexivity.
Qed.

Lemma FindBinding_expanded dir e bs :
  ExpandPath env dir = Ok e ->
  FindBinding env bs dir =
  match scan env e bs 0 with
  | Some i => match nth_error bs i with Some b => Profile b | None => [] end
  | None => []
  end.
Proof. intros H; unfold FindBinding; rewrite H; reflexivity. Qed.

Lemma AddBinding_cases bs dir prof bs' :
  AddBinding env bs dir prof = Ok bs' ->
  exists e, ExpandPath env dir = Ok e /\
  ((exists i, scan env e bs 0 = Some i /\ bs' = set_profile_at i prof bs) \/
   (scan env e bs 0 = None /\ bs' = bs ++ [mkBinding e prof])).
Proof.
  unfold AddBinding; intros H; apply bind_ok in H as (e & He & H).
  exists e; split; auto.
  destruct (scan env e bs 0) as [i|]; inversion H; subst; eauto.
Qed.

Lemma firstn_skipn_mid {A} (pre post : list A) b :
  firstn (length pre) (pre ++ b :: post) ++
  skipn (S (length pre)) (pre ++ b :: post) = pre ++ post.
Proof.
  induction pre as [|c pre IH]; simpl; auto. f_equal; exact IH.
Qed.

End BindingLookup.

Section BindingExtras.
Import Config.

(** The lookup after [AddBinding]. *)
Lemma add_find env bs dir prof bs' :
  env_ok env ->
  Config.AddBinding env bs dir prof = Ok bs' ->
  Config.FindBinding env bs' dir = prof.
Proof.
  intros Henv H.
  destruct (AddBinding_cases env bs dir prof bs' H)
    as (e & He & [(i & Hs & ->)|(Hs & ->)]);
    rewrite (FindBinding_expanded env dir e _ He).
  - rewrite (scan_paths env e _ bs 0 (set_profile_at_paths i prof bs)), Hs.
    destruct (scan_some_nth env e bs i Hs) as (b & Hb & _).
    rewrite (nth_error_set_profile_at_same i prof bs b Hb); reflexivity.
  - pose proof (scan_none env e bs Hs) as Hno.
    rewrite (scan_first env e bs (Config.mkBinding e prof) []); cbn [Config.Path].
    + rewrite nth_error_app2, Nat.sub_diag by lia; reflexivity.
    + exact (ExpandPath_idem env dir e Henv He).
    + exact Hno.
Qed.

(** Adding then removing a fresh directory. *)
Lemma add_remove env bs dir prof e bs' :
  env_ok env ->
  Config.ExpandPath env dir = Ok e ->
  (forall c, In c bs -> Config.ExpandPath env (Config.Path c) <> Ok e) ->
  Config.AddBinding env bs dir prof = Ok bs' ->
  Config.RemoveBinding env bs' dir = Ok bs.
Proof.
  intros Henv He Hno H.
  unfold Config.AddBinding in H; rewrite He in H; cbn [bind] in H.
  rewrite (scan_none_intro env e bs 0 Hno) in H; inversion H; subst bs'.
  unfold Config.RemoveBinding; rewrite He; cbn [bind].
  rewrite (scan_first env e bs (Config.mkBinding e prof) []); cbn [Config.Path].
  - rewrite firstn_skipn_mid, app_nil_r; reflexivity.
  - exact (ExpandPath_idem env dir e Henv He).
  - exact Hno.
Qed.

(** X1: once [AddBinding] has succeeded for a directory, [FindBinding]
    of that directory in the new store returns the profile just added,
    whether the binding was replaced in place or appended (the working
    directory, when known, is absolute). *)
Theorem AddBinding_FindBinding env bs dir prof bs' :
  env_ok env ->
  Config.AddBinding env bs dir prof = Ok bs' ->
  Config.FindBinding env bs' dir = prof.
Proof. apply add_find. Qed.

(** X2: [AddBinding] for one directory leaves [FindBinding] unchanged
    for every directory whose normalized path is a different one. *)
Theorem AddBinding_FindBinding_other env bs dir prof bs' e d' e' :
  env_ok env ->
  Config.AddBinding env bs dir prof = Ok bs' ->
  Config.ExpandPath env dir = Ok e ->
  Config.ExpandPath env d' = Ok e' -> e' <> e ->
  Config.FindBinding env bs' d' = Config.FindBinding env bs d'.
Proof.
  intros Henv H He Hd' Hne.
  destruct (AddBinding_cases env bs dir prof bs' H)
    as (e0 & He0 & [(i & Hs & ->)|(Hs & ->)]);
    rewrite He in He0; inversion He0; subst e0;
    rewrite !(FindBinding_expanded env d' e' _ Hd').
  - rewrite (scan_paths env e' _ bs 0 (set_profile_at_paths i prof bs)).
    destruct (scan env e' bs 0) as [j|] eqn:Hj; auto.
    rewrite nth_error_set_profile_at; auto.
    intros <-.
    destruct (scan_some_nth env e bs i Hs) as (b & Hb & Eb).
    destruct (scan_some_nth env e' bs i Hj) as (b' & Hb' & Eb').
    rewrite Hb in Hb'; inversion Hb'; subst b'.
    rewrite Eb in Eb'; inversion Eb'; congruence.
  - rewrite scan_app.
    destruct (scan env e' bs 0) as [j|] eqn:Hj.
    + destruct (scan_some_nth env e' bs j Hj) as (b & Hb & _).
      rewrite nth_error_app1; [rewrite Hb; reflexivity|].
      apply nth_error_Some; congruence.
    + rewrite scan_none_intro; auto.
      intros c [<-|[]]; cbn [Config.Path].
      rewrite (ExpandPath_idem env dir e Henv He); congruence.
Qed.

(** What a successful [RemoveBinding] removes. *)
Lemma remove_spec env bs dir bs' :
  Config.RemoveBinding env bs dir = Ok bs' ->
  exists e pre b post,
    Config.ExpandPath env dir = Ok e /\
    bs = pre ++ b :: post /\ bs' = pre ++ post /\
    Config.ExpandPath env (Config.Path b) = Ok e /\
    (forall c, In c pre -> Config.ExpandPath env (Config.Path c) <> Ok e) /\
    (NoDup (norms env bs) -> Config.FindBinding env bs' dir = []).
Proof.
  unfold Config.RemoveBinding; intros H; apply bind_ok in H as (e & He & H).
  destruct (Config.scan env e bs 0) as [i|] eqn:Hs; [|discriminate].
  inversion H; subst bs'.
  destruct (scan_some env e bs i Hs) as (pre & b & post & -> & <- & Hb & Hpre).
  exists e, pre, b, post; repeat split; auto.
  - apply firstn_skipn_mid.
  - intros Hnd.
    assert (Hm := firstn_skipn_mid pre post b); cbn [skipn] in Hm; rewrite Hm.
    rewrite (FindBinding_expanded env dir e _ He), scan_none_intro; auto.
    rewrite norms_app, norms_cons, Hb in Hnd.
    intros c Hc Ec.
    apply in_app_or in Hc as [Hc|Hc]; [exact (Hpre c Hc Ec)|].
    apply NoDup_remove_2 in Hnd; apply Hnd.
    apply in_or_app; right.
    unfold norms; apply in_flat_map; exists c; split; auto.
    rewrite Ec; left; reflexivity.
Qed.

(** X3: a successful [RemoveBinding] deletes exactly one entry, the first
    stored binding whose path normalizes to the directory's, keeping the
    others in order; when the normalized paths of the store were pairwise
    distinct, [FindBinding] of the directory then returns the empty
    string. *)
Theorem RemoveBinding_FindBinding env bs dir bs' :
  Config.RemoveBinding env bs dir = Ok bs' ->
  exists e pre b post,
    Config.ExpandPath env dir = Ok e /\
    bs = pre ++ b :: post /\ bs' = pre ++ post /\
    Config.ExpandPath env (Config.Path b) = Ok e /\
    (forall c, In c pre -> Config.ExpandPath env (Config.Path c) <> Ok e) /\
    (NoDup (norms env bs) -> Config.FindBinding env bs' dir = []).
Proof. apply remove_spec. Qed.

(** X4: adding a binding for a directory that no stored binding
    normalizes to, then removing that directory, gives back the original
    store. *)
Theorem AddBinding_RemoveBinding env bs dir prof e bs' :
  env_ok env ->
  Config.ExpandPath env dir = Ok e ->
  (forall c, In c bs -> Config.ExpandPath env (Config.Path c) <> Ok e) ->
  Config.AddBinding env bs dir prof = Ok bs' ->
  Config.RemoveBinding env bs' dir = Ok bs.
Proof. apply add_remove. Qed.

(** X5: the path [ExpandPath] produces is rooted, already clean, and a
    fixed point of [ExpandPath] itself. *)
Theorem ExpandPath_normal_form env p e :
  env_ok env -> Config.ExpandPath env p = Ok e ->
  HasPrefix e [slash] = true /\ Filepath.Clean e = e /\
  Config.ExpandPath env e = Ok e.
Proof.
  intros Henv H.
  split; [exact (ExpandPath_rooted env p e Henv H)|].
  split; [|exact (ExpandPath_idem env p e Henv H)].
  unfold Config.ExpandPath in H.
  apply bind_ok in H as (q & _ & H).
  apply bind_ok in H as (a & Ha & H).
  inversion H; subst.
  apply Clean_idem_rooted; eapply Abs_rooted; eauto.
Qed.

End BindingExtras.

(* ------------------------------------------------------------------ *)
(** ** [isSubpath] and the source of a resolution *)

Section ResolveFacts.
Import Config Resolve.

Lemma isSubpath_cases a c :
  isSubpath a c = true <->
  Clean a = Clean c \/ exists x, Clean a = Clean c ++ slash :: x.
Proof.
  unfold isSubpath; split.
  - destruct (streqb (Clean a) (Clean c)) eqn:E.
    + intros _; left; apply streqb_true; exact E.
    + intros H; right; apply HasPrefix_true in H.
      rewrite <- app_assoc in H; cbn [app] in H; eauto.
  - intros [H|(x & H)].
    + rewrite H, streqb_refl; reflexivity.
    + destruct (streqb (Clean a) (Clean c)); auto.
      rewrite H.
      replace (Clean c ++ slash :: x) with ((Clean c ++ [slash]) ++ x)
        by (rewrite <- app_assoc; reflexivity).
      apply HasPrefix_app.
Qed.

Lemma CountByte_app s t c : CountByte (s ++ t) c = CountByte s c + CountByte t c.
Proof. unfold CountByte; rewrite filter_app, length_app; reflexivity. Qed.

Lemma fold_source env e bs acc :
  fold_left (step env e) bs acc = acc \/
  exists b, In b bs /\ matches env e b = true /\
    bestMatch (fold_left (step env e) bs acc) = Profile b /\
    bestPath (fold_left (step env e) bs acc) = Path b.
Proof.
  revert acc; induction bs as [|b bs IH]; intros acc; simpl; auto.
  destruct (IH (step env e acc b)) as [H|(b' & Hb' & Hm & H1 & H2)].
  - rewrite H. unfold step, matches.
    destruct (ExpandPath env (Path b)) as [p|x] eqn:Ep; auto.
    destruct (isSubpath e p) eqn:Es; auto.
    destruct (bestDepth acc <? depth p)%Z; auto.
    right; exists b; simpl; rewrite Ep; auto.
  - right; exists b'; auto.
Qed.

Lemma ForDirectory_source env dir bs def r :
  ForDirectory env dir bs def = Ok r ->
  r = default_result def \/
  exists e b, ExpandPath env dir = Ok e /\ In b bs /\ matches env e b = true /\
    Profile b <> [] /\ r = mkResult (Profile b) (Path b) false.
Proof.
  unfold ForDirectory; intros H; apply bind_ok in H as (e & He & H).
  destruct (fold_source env e bs (mkBest [] [] (-1)))
    as [Hf|(b & Hb & Hm & H1 & H2)]; rewrite ?Hf in H; simpl in H.
  - inversion H; left; reflexivity.
  - rewrite H1, H2 in H.
    destruct (streqb (Profile b) []) eqn:E; simpl in H; inversion H.
    + left; reflexivity.
    + right; exists e, b; repeat split; auto.
      apply streqb_false; exact E.
Qed.

(** X6: [isSubpath] is a partial order on cleaned paths: reflexive,
    transitive, and antisymmetric up to [Clean]; a directory strictly
    below another one has more separators. *)
Theorem isSubpath_order :
  (forall a, isSubpath a a = true) /\
  (forall a b c, isSubpath a b = true -> isSubpath b c = true ->
                 isSubpath a c = true) /\
  (forall a b, isSubpath a b = true -> isSubpath b a = true ->
               Clean a = Clean b) /\
  (forall a b, isSubpath a b = true -> Clean a <> Clean b ->
               CountByte (Clean b) slash < CountByte (Clean a) slash).
Proof.
  repeat split.
  - intros a; apply isSubpath_cases; left; reflexivity.
  - intros a b c Hab Hbc; apply isSubpath_cases.
    apply isSubpath_cases in Hab as [Hab|(x & Hab)];
      apply isSubpath_cases in Hbc as [Hbc|(y & Hbc)].
    + left; congruence.
    + right; exists y; congruence.
    + right; exists x; congruence.
    + right; exists (y ++ slash :: x).
      rewrite Hab, Hbc, <- app_assoc; reflexivity.
  - intros a b Hab Hba.
    apply isSubpath_cases in Hab as [Hab|(x & Hab)]; auto.
    apply isSubpath_cases in Hba as [Hba|(y & Hba)]; auto.
    exfalso.
    assert (Hl := f_equal (@length ascii) Hab).
    rewrite Hba, !length_app in Hl; simpl in Hl; lia.
  - intros a b Hab Hne.
    apply isSubpath_cases in Hab as [Hab|(x & Hab)]; [contradiction|].
    rewrite Hab, CountByte_app.
    replace (CountByte (slash :: x) slash) with (S (CountByte x slash))
      by reflexivity.
    lia.
Qed.

(** X7: a resolution names a binding or the default: when [ForDirectory]
    succeeds, either its result is the default fallback, or it carries the
    non-empty profile and the stored path of a binding of the store that
    matches the expanded directory. *)
Theorem ForDirectory_sound env dir bs def r :
  ForDirectory env dir bs def = Ok r ->
  r = default_result def \/
  exists e b, ExpandPath env dir = Ok e /\ In b bs /\ matches env e b = true /\
    Profile b <> [] /\ r = mkResult (Profile b) (Path b) false.
Proof. apply ForDirectory_source. Qed.

(** X8: once [gh identity profile remove name] has succeeded (for a
    non-empty name), no directory resolves to [name] any more: neither a
    binding nor the default names it. *)
Theorem profile_remove_not_resolved io env w name w' dir r :
  name <> [] ->
  Profiles.runProfileRemove io env w name = (w', Ok tt) ->
  ForDirectory env dir (Profiles.bindings_yml w')
    (Profiles.Default (Profiles.profiles_yml w')) = Ok r ->
  RProfile r <> name.
Proof.
  intros Hn Hrun Hr.
  destruct (runProfileRemove_success io env w name w' Hrun)
    as (pf & bs & _ & Hp & _ & Hp' & Hb' & _ & _).
  rewrite Hp', Hb' in Hr.
  unfold Profiles.RemoveProfile in Hp.
  destruct (Profiles.lookup name _); [|discriminate].
  injection Hp as <-; cbn [Profiles.Default] in Hr.
  destruct (ForDirectory_source env dir _ _ r Hr)
    as [->|(e & b & _ & Hb & _ & _ & ->)]; cbn [RProfile default_result].
  - destruct (streqb (Profiles.Default (Profiles.profiles_yml w)) name) eqn:E.
    + exact (not_eq_sym Hn).
    + apply streqb_false; exact E.
  - apply filter_In in Hb as [_ Hb].
    apply negb_true_iff, streqb_false in Hb; exact Hb.
Qed.

End ResolveFacts.

(* ------------------------------------------------------------------ *)
(** ** The profile map *)

Section ProfileMap.
Import Profiles ProfileOps.

Lemma lookup_cons name kv m :
  lookup name (kv :: m) = if streqb (fst kv) name then Some (snd kv)
                          else lookup name m.
Proof. unfold lookup; simpl; destruct (streqb (fst kv) name); reflexivity. Qed.

Lemma lookup_map_set name p m : lookup name (map_set name p m) = Some p.
Proof.
  induction m as [|kv m IH]; simpl.
  - rewrite lookup_cons; simpl; rewrite streqb_refl; reflexivity.
  - destruct (streqb (fst kv) name) eqn:E; rewrite lookup_cons; simpl.
    + rewrite E; reflexivity.
    + rewrite E; exact IH.
Qed.

Lemma lookup_map_set_other name n p m :
  n <> name -> lookup n (map_set name p m) = lookup n m.
Proof.
  intros Hn; induction m as [|kv m IH]; simpl.
  - rewrite lookup_cons; simpl.
    destruct (streqb name n) eqn:E; [apply streqb_true in E; congruence|].
    reflexivity.
  - destruct (streqb (fst kv) name) eqn:E; rewrite !lookup_cons; simpl.
    + apply streqb_true in E; rewrite E.
      destruct (streqb name n) eqn:E'; [apply streqb_true in E'; congruence|].
      reflexivity.
    + destruct (streqb (fst kv) n); auto.
Qed.

Lemma map_set_keys name p m :
  map fst (map_set name p m) =
  if existsb (fun kv : gstr * Profile => streqb (fst kv) name) m then map fst m
  else map fst m ++ [name].
Proof.
  induction m as [|kv m IH]; simpl; auto.
  destruct (streqb (fst kv) name) eqn:E; simpl; auto.
  rewrite IH; destruct (existsb _ m); reflexivity.
Qed.

Lemma existsb_key_false name m :
  existsb (fun kv : gstr * Profile => streqb (fst kv) name) m = false ->
  ~ In name (map fst m).
Proof.
  induction m as [|kv m IH]; simpl; auto.
  intros H [Hk|Hin]; apply orb_false_iff in H as [H1 H2].
  - subst; rewrite streqb_refl in H1; discriminate.
  - exact (IH H2 Hin).
Qed.

Lemma delete_map_set name p m : delete name (map_set name p m) = delete name m.
Proof.
  unfold delete; induction m as [|kv m IH]; simpl.
  - rewrite streqb_refl; reflexivity.
  - destruct (streqb (fst kv) name) eqn:E; simpl; rewrite ?E; simpl; auto.
    rewrite IH; reflexivity.
Qed.

Lemma validate_one_nil quote name p :
  validate_one quote name p = [] <->
  GHUser p <> [] /\ GitName p <> [] /\ GitEmail p <> [].
Proof.
  unfold validate_one; split.
  - destruct (streqb (GHUser p) []) eqn:E1; [discriminate|];
    destruct (streqb (GitName p) []) eqn:E2; [discriminate|];
    destruct (streqb (GitEmail p) []) eqn:E3; [discriminate|].
    intros _; apply streqb_false in E1, E2, E3; auto.
  - intros (H1 & H2 & H3).
    apply streqb_false in H1, H2, H3; rewrite H1, H2, H3; reflexivity.
Qed.

Lemma validate_one_length quote name p :
  length (validate_one quote name p) =
  (if streqb (GHUser p) [] then 1 else 0) +
  (if streqb (GitName p) [] then 1 else 0) +
  (if streqb (GitEmail p) [] then 1 else 0).
Proof.
  unfold validate_one; rewrite !length_app.
  destruct (streqb (GHUser p) []), (streqb (GitName p) []),
    (streqb (GitEmail p) []); reflexivity.
Qed.

End ProfileMap.

Section ProfileMapExtras.
Import Profiles ProfileOps.

(** X9: after [AddProfile pf name p], [GetProfile] of [name] returns [p],
    every other name gives what it gave before, the default is kept, and
    the profile names stay pairwise distinct. *)
Theorem AddProfile_GetProfile pf name p :
  GetProfile (AddProfile pf name p) name = Ok p /\
  (forall n, n <> name -> GetProfile (AddProfile pf name p) n = GetProfile pf n) /\
  Default (AddProfile pf name p) = Default pf /\
  (NoDup (map fst (Profiles pf)) ->
   NoDup (map fst (Profiles (AddProfile pf name p)))).
Proof.
  unfold GetProfile, AddProfile; cbn [Profiles Default].
  repeat split.
  - rewrite lookup_map_set; reflexivity.
  - intros n Hn; rewrite lookup_map_set_other; auto.
  - intros Hnd; rewrite map_set_keys.
    destruct (existsb _ (Profiles pf)) eqn:E; auto.
    apply NoDup_app; auto.
    + constructor; [intros []|constructor].
    + intros x Hx [<-|[]]; exact (existsb_key_false _ _ E Hx).
Qed.

(** X10: removing a profile just added gives the map without that name
    (the default cleared if it named it); after any successful
    [RemoveProfile], [GetProfile] of the name fails; and [RemoveProfile]
    of a name [GetProfile] does not find fails with the same error. *)
Theorem RemoveProfile_GetProfile pf name p :
  RemoveProfile (AddProfile pf name p) name =
    Ok (mkProfilesFile (delete name (Profiles pf))
          (if streqb (Default pf) name then [] else Default pf)) /\
  (forall pf', RemoveProfile pf name = Ok pf' ->
     GetProfile pf' name = Err (ErrProfileNotFound name)) /\
  (forall e, GetProfile pf name = Err e ->
     RemoveProfile pf name = Err e).
Proof.
  repeat split.
  - unfold RemoveProfile, AddProfile; cbn [Profiles Default].
    rewrite lookup_map_set, delete_map_set; reflexivity.
  - intros pf' H; unfold RemoveProfile in H.
    destruct (lookup name (Profiles pf)); inversion H; subst.
    unfold GetProfile; cbn [Profiles]; rewrite lookup_delete; reflexivity.
  - intros e H; unfold GetProfile in H; unfold RemoveProfile.
    destruct (lookup name (Profiles pf)); inversion H; reflexivity.
Qed.

(** X11: [Validate] reports nothing exactly when every profile has a
    non-empty gh user, git name and git email; otherwise it reports one
    message per missing field. *)
Theorem Validate_messages quote pf :
  (Validate quote pf = [] <->
   Forall (fun kv => GHUser (snd kv) <> [] /\ GitName (snd kv) <> [] /\
                     GitEmail (snd kv) <> []) (Profiles pf)) /\
  length (Validate quote pf) =
    length (filter (fun kv => streqb (GHUser (snd kv)) []) (Profiles pf)) +
    length (filter (fun kv => streqb (GitName (snd kv)) []) (Profiles pf)) +
    length (filter (fun kv => streqb (GitEmail (snd kv)) []) (Profiles pf)).
Proof.
  unfold Validate; induction (Profiles pf) as [|kv m [IH1 IH2]]; simpl.
  - split; [split; auto|reflexivity].
  - split.
    + rewrite Forall_cons_iff, <- IH1, <- (validate_one_nil quote (fst kv)).
      split; [intros H; apply app_eq_nil in H; tauto|].
      intros [-> ->]; reflexivity.
    + rewrite length_app, validate_one_length, IH2.
      destruct (streqb (GHUser (snd kv)) []), (streqb (GitName (snd kv)) []),
        (streqb (GitEmail (snd kv)) []); simpl; lia.
Qed.

End ProfileMapExtras.

(* ------------------------------------------------------------------ *)
(** ** Reading back, removing and adding directives in the gitconfig *)

Section GitconfigFacts.
Import Gitconfig.

Lemma raw_lines_newline : raw_lines [nl] = [[]].
Proof. reflexivity. Qed.

Lemma filter_rev {A} (p : A -> bool) l : filter p (rev l) = rev (filter p l).
Proof.
  induction l as [|x l IH]; simpl; auto.
  rewrite filter_app, IH; simpl; destruct (p x); simpl; auto.
  rewrite app_nil_r; reflexivity.
Qed.

Lemma remove_loop_other d skip lines :
  filter (other_line d) (remove_loop d skip lines) = filter (other_line d) lines.
Proof.
  revert skip; induction lines as [|l lines IH]; intros skip; cbn [remove_loop];
    auto.
  unfold other_line at 2; cbn [filter].
  destruct (remove_matches d l) eqn:Em; simpl; [apply IH|].
  destruct (skip && is_path_line l) eqn:Es.
  - apply andb_true_iff in Es as [_ ->]; simpl; apply IH.
  - cbn [filter]; unfold other_line at 1; rewrite Em; simpl.
    destruct (negb (is_path_line l) && negb (streqb l [])); rewrite IH; auto.
Qed.

Lemma drop_blank_other d l :
  filter (other_line d) (drop_blank l) = filter (other_line d) l.
Proof.
  induction l as [|x l IH]; cbn [drop_blank]; auto.
  destruct (streqb x []) eqn:E; auto.
  rewrite IH; cbn [filter]; unfold other_line at 2; rewrite E.
  rewrite !andb_false_r; reflexivity.
Qed.

Lemma drop_trailing_blank_other d l :
  filter (other_line d) (drop_trailing_blank l) = filter (other_line d) l.
Proof.
  unfold drop_trailing_blank.
  rewrite filter_rev, drop_blank_other, filter_rev, rev_involutive; reflexivity.
Qed.

Lemma drop_blank_head l :
  drop_blank l = [] \/ exists x r, drop_blank l = x :: r /\ x <> [].
Proof.
  induction l as [|x l IH]; cbn [drop_blank]; auto.
  destruct (streqb x []) eqn:E; auto.
  right; exists x, l; split; auto; apply streqb_false; exact E.
Qed.

Lemma drop_trailing_blank_last l :
  drop_trailing_blank l = [] \/ last (drop_trailing_blank l) [] <> [].
Proof.
  unfold drop_trailing_blank.
  destruct (drop_blank_head (rev l)) as [->|(x & r & -> & Hx)]; auto.
  right; simpl; rewrite last_last; exact Hx.
Qed.

Lemma drop_blank_idem l : drop_blank (drop_blank l) = drop_blank l.
Proof.
  induction l as [|x l IH]; cbn [drop_blank]; auto.
  destruct (streqb x []) eqn:E; auto.
  cbn [drop_blank]; rewrite E; reflexivity.
Qed.

Lemma drop_trailing_blank_idem l :
  drop_trailing_blank (drop_trailing_blank l) = drop_trailing_blank l.
Proof.
  unfold drop_trailing_blank; rewrite rev_involutive, drop_blank_idem.
  reflexivity.
Qed.

Lemma remove_loop_keep d lines :
  Forall (fun l => remove_matches d l = false) lines ->
  remove_loop d false lines = lines.
Proof.
  induction 1 as [|l lines Hl _ IH]; cbn [remove_loop]; auto.
  rewrite Hl; simpl; rewrite IH; reflexivity.
Qed.

Lemma Forall_drop_trailing_blank (P : gstr -> Prop) l :
  Forall P l -> Forall P (drop_trailing_blank l).
Proof.
  intros H; apply Forall_forall; intros x Hx.
  apply drop_trailing_blank_sub in Hx; exact (proj1 (Forall_forall P l) H x Hx).
Qed.

Lemma Forall_remove_loop (P : gstr -> Prop) d skip l :
  Forall P l -> Forall P (remove_loop d skip l).
Proof.
  intros H; apply Forall_forall; intros x Hx.
  apply remove_loop_sub in Hx as [Hx _]; exact (proj1 (Forall_forall P l) H x Hx).
Qed.


End GitconfigFacts.

Section GitconfigExtras.
Import Gitconfig.

(** X12: reading back what [writeLines] wrote gives the same lines when
    none contains a newline, none ends in a carriage return and all are
    shorter than the scanner's 64 KiB buffer; a line that long makes the
    read fail with [ErrTooLong]; and writing no lines reads back as one
    empty line. *)
Theorem writeLines_readLines L :
  Forall (fun l => ~ In nl l) L ->
  Forall (fun l => HasSuffix l [cr] = false) L ->
  readLines (writeLines L) =
    if existsb (fun l => MaxScanTokenSize <? S (length l)) L then Err ErrTooLong
    else Ok (match L with [] => [[]] | _ => L end).
Proof.
  intros Hn Hc; destruct L as [|l L']; [reflexivity|].
  unfold readLines, writeLines, scanLines.
  rewrite raw_lines_write by (discriminate || exact Hn).
  destruct (existsb _ _); auto.
  rewrite map_dropCR by exact Hc; reflexivity.
Qed.

(** X13: when the gitconfig can be read, [RemoveIncludeIf] succeeds and
    rewrites it with a subsequence of its lines that keeps, in order,
    every line other than a directive for the directory, a [path = ] line
    or a blank line; no kept line is a directive for the directory, and
    the file no longer ends in a blank line. *)
Theorem RemoveIncludeIf_keeps f dir lines :
  readLines f = Ok lines ->
  exists L,
    RemoveIncludeIf f dir = (writeLines L, Ok tt) /\
    filter (other_line (directive_of (slashed dir))) L =
      filter (other_line (directive_of (slashed dir))) lines /\
    (forall l, In l L -> In l lines /\
       remove_matches (directive_of (slashed dir)) l = false) /\
    (L = [] \/ last L [] <> []).
Proof.
  intros Hr.
  set (D := directive_of (slashed dir)).
  exists (drop_trailing_blank (remove_loop D false lines)).
  split; [unfold RemoveIncludeIf; rewrite Hr; reflexivity|].
  split; [rewrite drop_trailing_blank_other, remove_loop_other; reflexivity|].
  split; [|apply drop_trailing_blank_last].
  intros l Hl; apply drop_trailing_blank_sub, remove_loop_sub in Hl; exact Hl.
Qed.

(** X14: [RemoveIncludeIf] is idempotent on a gitconfig none of whose
    lines ends in a carriage return once read: a second removal of the
    same directory leaves the file as the first one wrote it. *)
Theorem RemoveIncludeIf_idempotent f dir :
  cr_free_file f ->
  fst (RemoveIncludeIf (fst (RemoveIncludeIf f dir)) dir) =
  fst (RemoveIncludeIf f dir).
Proof.
  intros Hcr.
  set (D := directive_of (slashed dir)).
  destruct (readLines f) as [lines|e] eqn:Hr.
  - specialize (Hcr lines Hr).
    remember (drop_trailing_blank (remove_loop D false lines)) as L eqn:EL.
    assert (H1 : fst (RemoveIncludeIf f dir) = writeLines L)
      by (unfold RemoveIncludeIf; rewrite Hr; subst; reflexivity).
    rewrite H1; unfold RemoveIncludeIf; fold D.
    destruct L as [|l L'].
    + reflexivity.
    + rewrite readLines_write_ok.
      * rewrite EL, remove_loop_keep, drop_trailing_blank_idem; [reflexivity|].
        apply Forall_forall; intros x Hx.
        apply drop_trailing_blank_sub, remove_loop_sub in Hx; apply Hx.
      * discriminate.
      * rewrite EL; apply Forall_drop_trailing_blank, Forall_remove_loop.
        exact (readLines_no_nl f lines Hr).
      * rewrite EL; apply Forall_drop_trailing_blank, Forall_remove_loop; exact Hcr.
      * rewrite EL; apply Forall_drop_trailing_blank, Forall_remove_loop.
        exact (readLines_short f lines Hr).
  - destruct e; unfold RemoveIncludeIf; rewrite Hr; cbn [fst]; rewrite Hr;
      reflexivity.
Qed.

(** [AddIncludeIf] on the disk: the lines read (none for a missing
    file), then the write of the lines it computes. *)
Lemma AddIncludeIf_io_eq io fs gc dir frag :
  Profiles.AddIncludeIf_io io fs gc dir frag =
  match (match Profiles.readLines_io io fs gc with
         | Err e => if Disk.IsNotExist e then Ok [] else Err e
         | Ok lines => Ok lines
         end) with
  | Err e => (fs, Err e)
  | Ok lines =>
      Profiles.writeLines_io io fs gc
        (match update_path (directive_of (slashed dir)) (pathLine_of frag) lines with
         | Some L => L
         | None => pad lines ++ [directive_of (slashed dir) ++ [" "%char] ++ marker;
                                 pathLine_of frag]
         end)
  end.
Proof.
  unfold Profiles.AddIncludeIf_io; cbv zeta.
  destruct (match Profiles.readLines_io io fs gc with
            | Err e => if Disk.IsNotExist e then Ok [] else Err e
            | Ok lines => Ok lines
            end) as [lines|e]; [|reflexivity].
  destruct (update_path _ _ lines); reflexivity.
Qed.



End GitconfigExtras.

(* ------------------------------------------------------------------ *)
(** ** The bind and unbind commands *)

Section Commands.
Import Config Profiles ProfileOps Cmd.

(** [FindBinding] of a directory and of its expansion agree. *)
Lemma FindBinding_expand env bs dir e :
  env_ok env -> ExpandPath env dir = Ok e ->
  FindBinding env bs dir = FindBinding env bs e.
Proof.
  intros Henv He.
  rewrite (FindBinding_expanded env dir e bs He),
    (FindBinding_expanded env e e bs (ExpandPath_idem env dir e Henv He)).
  reflexivity.
Qed.

(** A document loads as the one held, or as the empty one when it is
    reported missing. *)
Lemma load_doc_ok {A : Type} io path (empty doc d : A) :
  load_doc io path empty doc = Ok d ->
  (io Disk.ReadOp path = None /\ d = doc) \/
  (io Disk.ReadOp path = Some ErrNotExist /\ d = empty).
Proof.
  unfold load_doc; destruct (io Disk.ReadOp path) as [e|]; intros H.
  - destruct e; cbn [Disk.IsNotExist] in H; try discriminate H.
    injection H as <-; right; split; reflexivity.
  - injection H as <-; left; split; reflexivity.
Qed.

Lemma LoadProfiles_ok io env w pf :
  LoadProfiles io env w = Ok pf -> pf = profiles_yml w \/ pf = mkProfilesFile [] [].
Proof.
  unfold LoadProfiles; intros H; apply bind_ok in H as (p & _ & H).
  destruct (load_doc_ok io p _ _ _ H) as [[_ ->]|[_ ->]]; auto.
Qed.

Lemma LoadBindings_ok io env w bs :
  LoadBindings io env w = Ok bs ->
  exists bp, BindingsPath env = Ok bp /\
    ((io Disk.ReadOp bp = None /\ bs = bindings_yml w) \/
     (io Disk.ReadOp bp = Some ErrNotExist /\ bs = [])).
Proof.
  unfold LoadBindings; intros H; apply bind_ok in H as (p & Hp & H).
  exists p; split; [exact Hp|exact (load_doc_ok io p _ _ _ H)].
Qed.

Lemma LoadBindings_world io env w w' :
  bindings_yml w' = bindings_yml w -> LoadBindings io env w' = LoadBindings io env w.
Proof. intros H; unfold LoadBindings; rewrite H; reflexivity. Qed.

Lemma SaveBindings_cases io env w bs w1 r :
  SaveBindings io env w bs = (w1, r) ->
  (r = Ok tt /\ (path <- BindingsPath env ;; SaveTo io path) = Ok tt /\
   w1 = mkWorld (profiles_yml w) bs (files w)) \/
  (exists x, r = Err x /\ (path <- BindingsPath env ;; SaveTo io path) = Err x /\
   w1 = w).
Proof.
  unfold SaveBindings; destruct (path <- BindingsPath env ;; SaveTo io path)
    as [[]|x]; intros H; injection H as <- <-; [left|right; exists x]; auto.
Qed.

Lemma GetProfile_empty name p :
  GetProfile (mkProfilesFile [] []) name <> Ok p.
Proof. discriminate. Qed.

Lemma WriteProfileFragment_ok io env fs prof p fs' :
  WriteProfileFragment io env fs prof p = Ok fs' ->
  exists gdir, GitConfigDir env = Ok gdir /\
    fs' = update_file fs (Join gdir (prof ++ lit ".gitconfig"))
            (Some (fragment_content p)).
Proof.
  unfold WriteProfileFragment, EnsureGitConfigDir; intros H.
  apply bind_ok in H as (d & Hd & H); apply bind_ok in Hd as (g & Hg & Hd).
  destruct (io Disk.MkdirOp g); [discriminate|injection Hd as <-].
  exists g; split; [exact Hg|].
  unfold WriteProfileFragmentTo in H.
  destruct (io Disk.MkdirOp _); [discriminate|].
  destruct (io Disk.WriteOp _); [discriminate|].
  injection H as <-; reflexivity.
Qed.

(** [AddIncludeIf] on the disk writes no file other than the global
    gitconfig. *)
Lemma AddIncludeIf_io_frame io fs gc dir frag q :
  q <> gc -> fst (AddIncludeIf_io io fs gc dir frag) q = fs q.
Proof.
  intros Hq; rewrite AddIncludeIf_io_eq.
  destruct (match readLines_io io fs gc with
            | Err e => if Disk.IsNotExist e then Ok [] else Err e
            | Ok lines => Ok lines
            end); [|reflexivity].
  unfold writeLines_io; destruct (io Disk.WriteOp gc); [reflexivity|].
  cbn [fst]; unfold update_file.
  destruct (streqb q gc) eqn:E; [apply streqb_true in E; contradiction|reflexivity].
Qed.

(** How [runBind] ends: it fails before saving anything, or the new
    binding is saved (the profiles untouched), and on success the
    fragment was written and the global gitconfig rewritten by
    [AddIncludeIf]. *)
Lemma runBind_saved io env w dir prof w' r :
  runBind io env w dir prof = (w', r) ->
  (w' = w /\ r <> Ok tt) \/
  exists pf p e bs bs',
    LoadProfiles io env w = Ok pf /\ GetProfile pf prof = Ok p /\
    ExpandPath env dir = Ok e /\ LoadBindings io env w = Ok bs /\
    AddBinding env bs e prof = Ok bs' /\
    (path <- BindingsPath env ;; SaveTo io path) = Ok tt /\
    profiles_yml w' = profiles_yml w /\ bindings_yml w' = bs' /\
    (r = Ok tt -> exists fs gdir gc,
       WriteProfileFragment io env (files w) prof p = Ok fs /\
       GitConfigDir env = Ok gdir /\ GlobalGitconfigPath env = Ok gc /\
       AddIncludeIf_io io fs gc e (Join gdir (prof ++ lit ".gitconfig")) =
         (files w', Ok tt)).
Proof.
  unfold runBind; intros H.
  destruct (LoadProfiles io env w) as [pf|x] eqn:HLP;
    [|injection H as <- <-; left; split; [reflexivity|discriminate]].
  destruct (GetProfile pf prof) as [p|x] eqn:HP;
    [|injection H as <- <-; left; split; [reflexivity|discriminate]].
  destruct (ExpandPath env dir) as [e|x] eqn:HE;
    [|injection H as <- <-; left; split; [reflexivity|discriminate]].
  destruct (LoadBindings io env w) as [bs|x] eqn:HLB;
    [|injection H as <- <-; left; split; [reflexivity|discriminate]].
  destruct (AddBinding env bs e prof) as [bs'|x] eqn:HA;
    [|injection H as <- <-; left; split; [reflexivity|discriminate]].
  destruct (SaveBindings io env w bs') as [w1 r1] eqn:HS.
  destruct (SaveBindings_cases io env w bs' w1 r1 HS)
    as [(-> & HT & ->)|(x & -> & _ & ->)];
    [|injection H as <- <-; left; split; [reflexivity|discriminate]].
  right; exists pf, p, e, bs, bs'.
  do 6 (split; [assumption || reflexivity|]).
  cbn [files profiles_yml bindings_yml] in H.
  destruct (WriteProfileFragment io env (files w) prof p) as [fs|x] eqn:HW;
    [|injection H as <- <-; split; [reflexivity|split; [reflexivity|discriminate]]].
  destruct (GlobalGitconfigPath env) as [gc|x] eqn:HG;
    [|injection H as <- <-; split; [reflexivity|split; [reflexivity|discriminate]]].
  destruct (GitConfigDir env) as [gdir|x] eqn:HD;
    [|injection H as <- <-; split; [reflexivity|split; [reflexivity|discriminate]]].
  cbv zeta in H.
  destruct (AddIncludeIf_io io fs gc e (Join gdir (prof ++ lit ".gitconfig")))
    as [fs' r'] eqn:HI.
  injection H as <- <-; cbn [profiles_yml bindings_yml files].
  split; [reflexivity|split; [reflexivity|]].
  intros ->; exists fs, gdir, gc; auto.
Qed.

End Commands.

Section CommandExtras.
Import Config Profiles ProfileOps Cmd.

(** X16: after a successful [gh identity bind dir name], [FindBinding]
    of [dir] gives [name], the profiles are untouched, and the profile's
    fragment [<GitConfigDir>/<name>.gitconfig] holds its [[user]] section
    (unless that path is the global gitconfig itself, which is rewritten
    last). *)
Theorem runBind_binds io env w dir prof w' :
  env_ok env ->
  runBind io env w dir prof = (w', Ok tt) ->
  FindBinding env (bindings_yml w') dir = prof /\
  profiles_yml w' = profiles_yml w /\
  exists p gdir gc,
    GetProfile (profiles_yml w) prof = Ok p /\ GitConfigDir env = Ok gdir /\
    GlobalGitconfigPath env = Ok gc /\
    (Join gdir (prof ++ lit ".gitconfig") <> gc ->
     files w' (Join gdir (prof ++ lit ".gitconfig")) = Some (fragment_content p)).
Proof.
  intros Henv H.
  destruct (runBind_saved io env w dir prof w' (Ok tt) H)
    as [(_ & Hne)|(pf & p & e & bs & bs' & HLP & HP & HE & _ & HA & _ & Hp' & Hb' & Hok)];
    [contradiction|].
  split; [|split; [exact Hp'|]].
  - rewrite Hb', (FindBinding_expand env bs' dir e Henv HE).
    exact (add_find env bs e prof bs' Henv HA).
  - destruct (Hok eq_refl) as (fs & gdir & gc & HW & HD & HG & HI).
    destruct (LoadProfiles_ok io env w pf HLP) as [<- | ->];
      [|exfalso; exact (GetProfile_empty prof p HP)].
    exists p, gdir, gc; repeat split; auto.
    intros Hne.
    destruct (WriteProfileFragment_ok io env (files w) prof p fs HW)
      as (g & Hg & ->).
    rewrite HD in Hg; injection Hg as <-.
    pose proof (AddIncludeIf_io_frame io (update_file (files w)
      (Join gdir (prof ++ lit ".gitconfig")) (Some (fragment_content p))) gc e
      (Join gdir (prof ++ lit ".gitconfig")) _ Hne) as Hf.
    rewrite HI in Hf; cbn [fst] in Hf; rewrite Hf.
    unfold update_file; rewrite streqb_refl; reflexivity.
Qed.


(** X18: binding a directory that no stored binding normalizes to, then
    unbinding it, succeeds and gives back the original bindings (and
    profiles), when reading the bindings file does not report it
    missing. *)
Theorem runBind_runUnbind io env w dir prof e w1 :
  env_ok env ->
  (forall bp, BindingsPath env = Ok bp -> io Disk.ReadOp bp <> Some ErrNotExist) ->
  ExpandPath env dir = Ok e ->
  (forall c, In c (bindings_yml w) -> ExpandPath env (Path c) <> Ok e) ->
  runBind io env w dir prof = (w1, Ok tt) ->
  exists w2, runUnbind io env w1 dir = (w2, Ok tt) /\
    bindings_yml w2 = bindings_yml w /\ profiles_yml w2 = profiles_yml w.
Proof.
  intros Henv Hio HE0 Hno H.
  destruct (runBind_saved io env w dir prof w1 (Ok tt) H)
    as [(_ & Hne)|(pf & p & e' & bs & bs' & _ & _ & HE & HLB & HA & HT & Hp' & Hb' & _)];
    [contradiction|].
  rewrite HE0 in HE; injection HE as <-.
  assert (HL : forall w0 b0, LoadBindings io env w0 = Ok b0 ->
                 LoadBindings io env w0 = Ok (bindings_yml w0)).
  { intros w0 b0 H0; destruct (LoadBindings_ok io env w0 b0 H0)
      as (bp & Hbp & [[Hr _]|[Hr _]]); [|exfalso; exact (Hio bp Hbp Hr)].
    unfold LoadBindings; rewrite Hbp; cbn [bind]; unfold load_doc; rewrite Hr;
      reflexivity. }
  assert (Hbs : bs = bindings_yml w) by (rewrite (HL w bs HLB) in HLB; congruence).
  subst bs.
  assert (HL1 : LoadBindings io env w1 = Ok bs').
  { destruct (LoadBindings io env w1) as [b1|y] eqn:H1.
    - rewrite (HL w1 b1 H1) in H1; injection H1 as <-; rewrite Hb'; reflexivity.
    - unfold LoadBindings in H1, HLB.
      destruct (BindingsPath env) as [bp|]; [|discriminate].
      cbn [bind] in H1, HLB; unfold load_doc in H1, HLB.
      destruct (io Disk.ReadOp bp) as [z|]; [|discriminate].
      destruct (Disk.IsNotExist z); congruence. }
  pose proof (add_remove env (bindings_yml w) e prof e bs' Henv
                (ExpandPath_idem env dir e Henv HE0) Hno HA) as HR.
  unfold runUnbind; rewrite HE0, HL1, HR.
  unfold SaveBindings; rewrite HT.
  destruct (GlobalGitconfigPath env); eexists; (split; [reflexivity|]);
    cbn [bindings_yml profiles_yml]; auto.
Qed.



End CommandExtras.

(* ------------------------------------------------------------------ *)
(** ** The directory name of a cloned repository *)

Section RepoToDir.
Import Cmd.

Lemma index_from_single_none c s i : index_from s [c] i = None -> ~ In c s.
Proof.
  revert i; induction s as [|d s IH]; intros i H; [intros []|].
  simpl in H.
  destruct (ascii_eqb c d) eqn:E; simpl in H; [discriminate|].
  intros [Hd|Hin]; [|exact (IH _ H Hin)].
  subst; rewrite (proj2 (ascii_eqb_true _ _) eq_refl) in E; discriminate.
Qed.

Lemma split_aux_nonempty cur s : split_aux cur s <> [].
Proof.
  revert cur; induction s as [|c s IH]; intros cur; simpl; [discriminate|].
  destruct (ascii_eqb c slash); [discriminate|apply IH].
Qed.

Lemma split_aux_last cur s :
  ~ In slash cur ->
  exists pre, rev cur ++ s = pre ++ last (split_aux cur s) [] /\
    ~ In slash (last (split_aux cur s) []) /\
    (pre = [] \/ exists q, pre = q ++ [slash]).
Proof.
  revert cur; induction s as [|c s IH]; intros cur Hcur; simpl.
  - exists []; rewrite app_nil_r; split; auto.
    split; [intros Hin; apply Hcur, in_rev; exact Hin|auto].
  - destruct (ascii_eqb c slash) eqn:E.
    + apply ascii_eqb_true in E; subst c.
      destruct (IH [] (fun H => H)) as (pre & Hs & Hn & Hp); simpl in Hs.
      remember (split_aux [] s) as S eqn:ES.
      destruct S as [|y l]; [exfalso; exact (split_aux_nonempty [] s (eq_sym ES))|].
      change (last (rev cur :: y :: l) []) with (last (y :: l) []).
      exists (rev cur ++ slash :: pre); split; [|split; auto].
      * rewrite Hs, <- app_assoc; reflexivity.
      * right; destruct Hp as [->|(q & ->)].
        -- exists (rev cur); reflexivity.
        -- exists (rev cur ++ slash :: q); rewrite <- app_assoc; reflexivity.
    + destruct (IH (c :: cur)) as (pre & Hs & Hn & Hp).
      * intros [Hc|Hin]; [|exact (Hcur Hin)].
        subst c; rewrite (proj2 (ascii_eqb_true slash slash) eq_refl) in E;
          discriminate.
      * exists pre; simpl in Hs; rewrite <- app_assoc in Hs; auto.
Qed.

(** X21: [repoToDir] returns the last '/'-separated component of the
    specifier without its [.git] suffix: the result has no '/', and the
    trimmed specifier is the result preceded by nothing or by a prefix
    ending in '/'.  So a specifier ending in '/' (or in "/.git") gives
    the empty name. *)
Theorem repoToDir_last_component repo :
  ~ In slash (repoToDir repo) /\
  (exists pre, TrimSuffix repo (lit ".git") = pre ++ repoToDir repo /\
     (pre = [] \/ exists q, pre = q ++ [slash])) /\
  (HasSuffix (TrimSuffix repo (lit ".git")) [slash] = true -> repoToDir repo = []).
Proof.
  assert (Hmain : ~ In slash (repoToDir repo) /\
    exists pre, TrimSuffix repo (lit ".git") = pre ++ repoToDir repo /\
      (pre = [] \/ exists q, pre = q ++ [slash])).
  { unfold repoToDir.
    set (r := TrimSuffix repo (lit ".git")).
    unfold Contains, Index.
    destruct (index_from r [slash] 0) eqn:Ei.
    - destruct (split_aux_last [] r (fun H => H)) as (pre & Hs & Hn & Hp).
      split; [exact Hn|exists pre; split; auto].
    - split; [exact (index_from_single_none slash r 0 Ei)|].
      exists []; split; auto. }
  destruct Hmain as [Hn (pre & Hs & Hp)].
  split; [exact Hn|split; [exists pre; auto|]].
  intros Hsuf; apply HasSuffix_split in Hsuf as (u & Hu).
  rewrite Hs in Hu.
  destruct (repoToDir repo) as [|a t] using rev_ind; auto.
  rewrite app_assoc in Hu; apply app_inj_tail in Hu as [_ Ha].
  exfalso; apply Hn, in_or_app; right; left; exact Ha.
Qed.

End RepoToDir.

(* ------------------------------------------------------------------ *)
(** ** The hook: what [Resolve] prints *)

Section HookFacts.
Import Config Resolve ProfileOps Hook.

Lemma formatOutput_nonempty quote shell env : formatOutput quote shell env <> [].
Proof. unfold formatOutput; destruct (streqb shell Fish); simpl; discriminate. Qed.

End HookFacts.

Section HookExtras.
Import Config Resolve ProfileOps Hook.

(** X22: when the hook prints something, both stores loaded, the
    directory resolved to a non-empty profile name that exists in the
    loaded profiles, and (for a [%q] quoting without newlines and a gh
    user without a newline) the output is, line by line: the GH_TOKEN
    unset, the [gh auth switch] to the profile's gh user, the author and
    the committer both set to the profile's git name and email, the
    profile name, and the GIT_SSH_COMMAND only when the profile has an
    SSH key that expands. *)
Theorem Resolve_output quote io env w dir shell out :
  (forall v, ~ In nl (quote v)) ->
  Hook.Resolve quote io env w dir shell = Emit out -> out <> [] ->
  exists profiles bindings r p,
    Profiles.LoadProfiles io env w = Ok profiles /\
    Profiles.LoadBindings io env w = Ok bindings /\
    ForDirectory env dir bindings (Profiles.Default profiles) = Ok r /\
    RProfile r <> [] /\
    GetProfile profiles (RProfile r) = Ok p /\
    (~ In nl (Profiles.GHUser p) ->
     lines_of out =
     [if streqb shell Fish then lit "set -e GH_TOKEN 2>/dev/null"
      else lit "unset GH_TOKEN 2>/dev/null";
      lit "gh auth switch --user " ++ Profiles.GHUser p ++ lit " 2>/dev/null";
      export_stmt quote shell (lit "GIT_AUTHOR_NAME") (Profiles.GitName p);
      export_stmt quote shell (lit "GIT_AUTHOR_EMAIL") (Profiles.GitEmail p);
      export_stmt quote shell (lit "GIT_COMMITTER_NAME") (Profiles.GitName p);
      export_stmt quote shell (lit "GIT_COMMITTER_EMAIL") (Profiles.GitEmail p);
      export_stmt quote shell (lit "GH_IDENTITY_PROFILE") (RProfile r)]
     ++ (if negb (streqb (ssh_command env p) []) then
           [export_stmt quote shell (lit "GIT_SSH_COMMAND") (ssh_command env p)]
         else [])
     ++ [[]]).
Proof.
  intros Hq H Hne; unfold Hook.Resolve in H.
  destruct (Profiles.LoadProfiles io env w) as [profiles|x]; [|discriminate].
  destruct (Profiles.LoadBindings io env w) as [bindings|x]; [|discriminate].
  destruct (ForDirectory env dir _ _) as [r|x] eqn:Hr; [|discriminate].
  destruct (streqb (RProfile r) []) eqn:Ep;
    [injection H as <-; contradiction|].
  destruct (GetProfile profiles (RProfile r)) as [p|x] eqn:Hp;
    [|discriminate].
  injection H as <-.
  exists profiles, bindings, r, p; repeat split; auto.
  - apply streqb_false; exact Ep.
  - intros Hu.
    exact (formatOutput_lines quote Hq shell
             (mkEnvOutput (Profiles.GHUser p) (Profiles.GitName p)
                (Profiles.GitEmail p) (Profiles.GitName p) (Profiles.GitEmail p)
                (RProfile r) (ssh_command env p)) Hu).
Qed.

(** X23: the hook prints nothing (and reports no error) exactly when both
    stores load and the directory resolves to the empty profile name: no
    usable binding and no default. *)
Theorem Resolve_silent quote io env w dir shell :
  Hook.Resolve quote io env w dir shell = Emit [] <->
  exists profiles bindings r,
    Profiles.LoadProfiles io env w = Ok profiles /\
    Profiles.LoadBindings io env w = Ok bindings /\
    ForDirectory env dir bindings (Profiles.Default profiles) = Ok r /\
    RProfile r = [].
Proof.
  split.
  - intros H; unfold Hook.Resolve in H.
    destruct (Profiles.LoadProfiles io env w) as [profiles|x]; [|discriminate].
    destruct (Profiles.LoadBindings io env w) as [bindings|x]; [|discriminate].
    destruct (ForDirectory env dir _ _) as [r|x] eqn:Hr; [|discriminate].
    exists profiles, bindings, r; split; [reflexivity|].
    split; [reflexivity|split; [exact Hr|]].
    destruct (streqb (RProfile r) []) eqn:Ep; [apply streqb_true; exact Ep|].
    destruct (GetProfile _ _); [|discriminate].
    injection H as Hf; exfalso; exact (formatOutput_nonempty _ _ _ Hf).
  - intros (profiles & bindings & r & Hp & Hb & Hr & Ep).
    unfold Hook.Resolve; rewrite Hp, Hb, Hr, Ep; reflexivity.
Qed.

End HookExtras.

(* ------------------------------------------------------------------ *)
(** ** Instances of the theorems at concrete inputs *)

Section Witnesses.
Import Config Resolve.

Lemma pair_eta_snd {A B} (p : A * B) (b : B) : snd p = b -> p = (fst p, b).
Proof. destruct p; simpl; intros ->; reflexivity. Qed.


Lemma ForDirectory_first_deepest_witness :
  ForDirectory env0 (lit "/code/org/repo")
    [mkBinding (lit "/code") (lit "P1"); mkBinding (lit "/code/org") (lit "P2")]
    [] =
  Ok (if negb (streqb (lit "P2") [])
      then mkResult (lit "P2") (lit "/code/org") false
      else default_result []).
Proof.
  apply (ForDirectory_first_deepest env0 (lit "/code/org/repo") _ []
           (lit "/code/org/repo") [mkBinding (lit "/code") (lit "P1")]
           (mkBinding (lit "/code/org") (lit "P2")) []).
  - vm_compute; reflexivity.
  - reflexivity.
  - vm_compute; reflexivity.
  - intros c Hin; destruct Hin as [<-|[]]; intros _; vm_compute; reflexivity.
  - intros c [].
Defined.

Lemma ForDirectory_no_match_witness :
  ForDirectory env0 (lit "/x") [mkBinding (lit "/a") (lit "P")] (lit "D") =
  Ok (default_result (lit "D")).
Proof.
  apply (proj1 (ForDirectory_no_match env0 (lit "/x")
           [mkBinding (lit "/a") (lit "P")] (lit "D")) (lit "/x")).
  - vm_compute; reflexivity.
  - intros c Hin; destruct Hin as [<-|[]]; vm_compute; reflexivity.
Defined.

Lemma ForDirectory_empty_profiles_witness :
  ForDirectory env0 (lit "/a/b")
    [mkBinding (lit "/a") []; mkBinding (lit "/a/b") [];
     mkBinding (lit "/c") (lit "Q")] (lit "D") =
  ForDirectory env0 (lit "/a/b") [] (lit "D").
Proof.
  apply ForDirectory_empty_profiles.
  intros e c He Hin Hm; vm_compute in He; inversion He; subst e.
  destruct Hin as [<-|[<-|[<-|[]]]]; try reflexivity.
  vm_compute in Hm; discriminate.
Defined.

Lemma AddBinding_replace_in_place_witness :
  (exists pre bi post,
     [mkBinding (lit "/a") (lit "P"); mkBinding (lit "/b") (lit "Q")] =
       pre ++ bi :: post /\
     ExpandPath env0 (Path bi) = Ok (lit "/b") /\
     AddBinding env0 [mkBinding (lit "/a") (lit "P"); mkBinding (lit "/b") (lit "Q")]
       (lit "/b/") (lit "R") = Ok (pre ++ mkBinding (Path bi) (lit "R") :: post) /\
     length (pre ++ mkBinding (Path bi) (lit "R") :: post) = 2) /\
  NoDup (norms env0 [mkBinding (lit "/a") (lit "P"); mkBinding (lit "/b") (lit "R");
                     mkBinding (lit "/c") (lit "S")]).
Proof.
  split.
  - apply (proj1 (AddBinding_replace_in_place env0)
             [mkBinding (lit "/a") (lit "P"); mkBinding (lit "/b") (lit "Q")]
             (lit "/b/") (lit "R") (lit "/b") (mkBinding (lit "/b") (lit "Q"))).
    + vm_compute; reflexivity.
    + right; left; reflexivity.
    + vm_compute; reflexivity.
  - apply (proj2 (AddBinding_replace_in_place env0)
             [mkBinding (lit "/a") (lit "P"); mkBinding (lit "/b") (lit "R")]
             (lit "/c") (lit "S")).
    + intros wd Hw; inversion Hw; reflexivity.
    + vm_compute; apply NoDup_cons; [|apply NoDup_cons; [|apply NoDup_nil]].
      * intros [H|[]]; discriminate.
      * intros [].
    + vm_compute; reflexivity.
Defined.

Lemma unexpandable_binding_skipped_witness :
  ExpandPath env_nohome (lit "~/x") = Err ErrHome /\
  FindBinding env_nohome
    [mkBinding (lit "/a") (lit "Q"); mkBinding (lit "~/x") (lit "P");
     mkBinding (lit "/b") (lit "R")] (lit "/b") =
  FindBinding env_nohome
    [mkBinding (lit "/a") (lit "Q"); mkBinding (lit "/b") (lit "R")] (lit "/b").
Proof.
  split; [vm_compute; reflexivity|].
  apply (proj1 (proj2 (proj2 (unexpandable_binding_skipped env_nohome
           [mkBinding (lit "/a") (lit "Q")] (mkBinding (lit "~/x") (lit "P"))
           [mkBinding (lit "/b") (lit "R")] ErrHome
           ltac:(vm_compute; reflexivity))))).
Defined.

Lemma AddIncludeIf_idempotent_witness :
  Gitconfig.add_n 3 (Some (lit "[user]" ++ [nl])) (lit "/a")
    (lit "/f.gitconfi" ++ ["g"%char]) =
  Gitconfig.add_n 1 (Some (lit "[user]" ++ [nl])) (lit "/a")
    (lit "/f.gitconfi" ++ ["g"%char]).
Proof.
  apply (AddIncludeIf_idempotent (Some (lit "[user]" ++ [nl])) (lit "/a")
           (lit "/f.gitconfi") "g"%char 2).
  - intros H; simpl in H; intuition discriminate.
  - intros H; simpl in H; intuition discriminate.
  - unfold plain; vm_compute; lia.
  - intros lines H; vm_compute in H; inversion H; repeat constructor.
Defined.

Lemma runProfileRemove_cascade_witness :
  snd remove_work = Ok tt /\
  Profiles.lookup (lit "work")
    (Profiles.Profiles (Profiles.profiles_yml (fst remove_work))) = None /\
  Profiles.Default (Profiles.profiles_yml (fst remove_work)) = [].
Proof.
  assert (H : snd remove_work = Ok tt) by (vm_compute; reflexivity).
  split; [exact H|].
  destruct (runProfileRemove_cascade Disk.no_faults env0 (world_with gitconfig_short)
              (lit "work") (fst remove_work) (pair_eta_snd _ _ H))
    as (_ & H2 & H3 & _).
  split; [exact H2|rewrite H3; reflexivity].
Defined.

Lemma formatters_ssh_statement_witness :
  ssh_statements (lit "fish")
    (formatExports Quote.go_quote_ascii (lit "fish") envT_ssh) = 1 /\
  ssh_statements (lit "bash")
    (formatOutput Quote.go_quote_ascii (lit "bash") env_nossh) = 0.
Proof.
  pose proof (formatters_ssh_statement Quote.go_quote_ascii go_quote_ascii_no_nl
                (lit "fish")) as [HE _].
  pose proof (formatters_ssh_statement Quote.go_quote_ascii go_quote_ascii_no_nl
                (lit "bash")) as [_ HO].
  split.
  - exact (proj2 (HE envT_ssh)).
  - refine (proj2 (HO env_nossh _)).
    intros H; simpl in H; intuition discriminate.
Defined.

End Witnesses.

(* ------------------------------------------------------------------ *)
(** ** Instances of the further properties at concrete inputs *)

Section ExtraWitnesses.
Import Config Resolve.

Lemma env0_ok : env_ok env0.
Proof. intros wd Hw; inversion Hw; reflexivity. Defined.

Lemma AddBinding_FindBinding_witness :
  FindBinding env0 [mkBinding (lit "/a") (lit "P");
                    mkBinding (lit "~/b/") (lit "R")] (lit "/home/u/b") = lit "R" /\
  FindBinding env0 (store_ab ++ [mkBinding (lit "/c") (lit "S")]) (lit "/c/.") =
    lit "S".
Proof.
  split.
  - apply (AddBinding_FindBinding env0 store_ab (lit "/home/u/b") (lit "R")).
    + exact env0_ok.
    + vm_compute; reflexivity.
  - apply (AddBinding_FindBinding env0 store_ab (lit "/c/.") (lit "S")).
    + exact env0_ok.
    + vm_compute; reflexivity.
Defined.

Lemma AddBinding_FindBinding_other_witness :
  FindBinding env0 [mkBinding (lit "/a") (lit "P");
                    mkBinding (lit "~/b/") (lit "R")] (lit "/a") =
  FindBinding env0 store_ab (lit "/a").
Proof.
  apply (AddBinding_FindBinding_other env0 store_ab (lit "~/b") (lit "R")
           _ (lit "/home/u/b") (lit "/a") (lit "/a")).
  - exact env0_ok.
  - vm_compute; reflexivity.
  - vm_compute; reflexivity.
  - vm_compute; reflexivity.
  - intros H; discriminate.
Defined.

Lemma RemoveBinding_FindBinding_witness :
  exists e pre b post,
    ExpandPath env0 (lit "/home/u/b/") = Ok e /\
    store_ab = pre ++ b :: post /\ [mkBinding (lit "/a") (lit "P")] = pre ++ post /\
    ExpandPath env0 (Path b) = Ok e /\
    (forall c, In c pre -> ExpandPath env0 (Path c) <> Ok e) /\
    (NoDup (norms env0 store_ab) ->
     FindBinding env0 [mkBinding (lit "/a") (lit "P")] (lit "/home/u/b/") = []).
Proof.
  apply (RemoveBinding_FindBinding env0 store_ab (lit "/home/u/b/")).
  vm_compute; reflexivity.
Defined.

Lemma AddBinding_RemoveBinding_witness :
  RemoveBinding env0 (store_ab ++ [mkBinding (lit "/c") (lit "S")]) (lit "/c") =
    Ok store_ab.
Proof.
  apply (AddBinding_RemoveBinding env0 store_ab (lit "/c") (lit "S") (lit "/c")).
  - exact env0_ok.
  - vm_compute; reflexivity.
  - intros c Hc; vm_compute in Hc;
      destruct Hc as [<-|[<-|[]]]; vm_compute; discriminate.
  - vm_compute; reflexivity.
Defined.

Lemma ExpandPath_normal_form_witness :
  HasPrefix (lit "/home/u/x") [slash] = true /\
  Filepath.Clean (lit "/home/u/x") = lit "/home/u/x" /\
  ExpandPath env0 (lit "/home/u/x") = Ok (lit "/home/u/x").
Proof.
  apply (ExpandPath_normal_form env0 (lit "~/y/../x/")).
  - exact env0_ok.
  - vm_compute; reflexivity.
Defined.

Lemma isSubpath_order_witness :
  CountByte (Clean (lit "/a")) slash < CountByte (Clean (lit "/a/b/..//c")) slash.
Proof.
  apply (proj2 (proj2 (proj2 isSubpath_order))).
  - vm_compute; reflexivity.
  - intros Hc; vm_compute in Hc; discriminate Hc.
Defined.

Lemma ForDirectory_sound_witness :
  ForDirectory env0 (lit "/a/x") (Profiles.bindings_yml (world_with gitconfig_short))
    (lit "home") = Ok (mkResult (lit "work") (lit "/a") false) /\
  (mkResult (lit "work") (lit "/a") false = default_result (lit "home") \/
   exists e b, ExpandPath env0 (lit "/a/x") = Ok e /\
     In b (Profiles.bindings_yml (world_with gitconfig_short)) /\
     matches env0 e b = true /\ Profile b <> [] /\
     mkResult (lit "work") (lit "/a") false = mkResult (Profile b) (Path b) false).
Proof.
  assert (H : ForDirectory env0 (lit "/a/x")
                (Profiles.bindings_yml (world_with gitconfig_short)) (lit "home")
              = Ok (mkResult (lit "work") (lit "/a") false))
    by (vm_compute; reflexivity).
  split; [exact H|].
  exact (ForDirectory_sound env0 (lit "/a/x") _ (lit "home") _ H).
Defined.

Lemma profile_remove_not_resolved_witness :
  ForDirectory env0 (lit "/c/x") (Profiles.bindings_yml (fst remove_work))
    (Profiles.Default (Profiles.profiles_yml (fst remove_work))) =
    Ok (mkResult (lit "home") (lit "/c") false) /\
  lit "home" <> lit "work".
Proof.
  assert (Hr : ForDirectory env0 (lit "/c/x") (Profiles.bindings_yml (fst remove_work))
                 (Profiles.Default (Profiles.profiles_yml (fst remove_work))) =
               Ok (mkResult (lit "home") (lit "/c") false))
    by (vm_compute; reflexivity).
  split; [exact Hr|].
  exact (profile_remove_not_resolved Disk.no_faults env0 (world_with gitconfig_short)
           (lit "work")
           (fst remove_work) (lit "/c/x") _ ltac:(discriminate)
           (pair_eta_snd _ _ ltac:(vm_compute; reflexivity)) Hr).
Defined.

End ExtraWitnesses.

Section ExtraWitnesses2.
Import Config Resolve Profiles ProfileOps Cmd Hook.

Definition profile_pf : ProfilesFile := profiles_yml (world_with gitconfig_short).

Lemma AddProfile_GetProfile_witness :
  GetProfile (AddProfile profile_pf (lit "new") (mkProfile (lit "n") (lit "N")
                (lit "n@x") [])) (lit "home") =
  Ok (mkProfile (lit "h") (lit "H") (lit "h@x") []).
Proof.
  rewrite (proj1 (proj2 (AddProfile_GetProfile profile_pf (lit "new")
             (mkProfile (lit "n") (lit "N") (lit "n@x") []))) (lit "home")).
  - vm_compute; reflexivity.
  - discriminate.
Defined.

Lemma RemoveProfile_GetProfile_witness :
  RemoveProfile profile_pf (lit "nope") = Err (ErrProfileNotFound (lit "nope")).
Proof.
  apply (proj2 (proj2 (RemoveProfile_GetProfile profile_pf (lit "nope")
           (mkProfile [] [] [] [])))).
  vm_compute; reflexivity.
Defined.

Lemma Validate_messages_witness :
  length (Validate Quote.go_quote_ascii (mkProfilesFile
    [(lit "a", mkProfile [] (lit "A") [] []);
     (lit "b", mkProfile (lit "b") (lit "B") (lit "b@x") [])] [])) = 2.
Proof.
  rewrite (proj2 (Validate_messages _ _)); vm_compute; reflexivity.
Defined.

Lemma writeLines_readLines_witness :
  Gitconfig.readLines (Gitconfig.writeLines [lit "[user]"; []; lit "x = 1"]) =
  Ok [lit "[user]"; []; lit "x = 1"].
Proof.
  rewrite (writeLines_readLines [lit "[user]"; []; lit "x = 1"]).
  - vm_compute; reflexivity.
  - repeat constructor; simpl; intuition discriminate.
  - repeat constructor.
Defined.

Lemma RemoveIncludeIf_keeps_witness :
  exists L,
    Gitconfig.RemoveIncludeIf (Some gitconfig_short) (lit "/a") =
      (Gitconfig.writeLines L, Ok tt) /\
    (forall l, In l L -> In l [lit "[user]"; []; Gitconfig.directive_of (lit "/a/")
        ++ [" "%char] ++ Gitconfig.marker;
        Gitconfig.pathLine_of (lit "/home/u/.config/gh-identity/git/work.gitconfig")]).
Proof.
  destruct (RemoveIncludeIf_keeps (Some gitconfig_short) (lit "/a")
              [lit "[user]"; []; Gitconfig.directive_of (lit "/a/")
                ++ [" "%char] ++ Gitconfig.marker;
               Gitconfig.pathLine_of
                 (lit "/home/u/.config/gh-identity/git/work.gitconfig")])
    as (L & H1 & _ & H3 & _).
  - vm_compute; reflexivity.
  - exists L; split; [exact H1|intros l Hl; exact (proj1 (H3 l Hl))].
Defined.

Lemma RemoveIncludeIf_idempotent_witness :
  fst (Gitconfig.RemoveIncludeIf
         (fst (Gitconfig.RemoveIncludeIf (Some gitconfig_short) (lit "/a"))) (lit "/a")) =
  fst (Gitconfig.RemoveIncludeIf (Some gitconfig_short) (lit "/a")).
Proof.
  apply RemoveIncludeIf_idempotent.
  intros lines H; vm_compute in H; injection H as <-.
  repeat constructor.
Defined.

Definition bind_home : World * result unit :=
  runBind Disk.no_faults env0 (world_with gitconfig_short) (lit "/d") (lit "home").

Lemma runBind_binds_witness :
  FindBinding env0 (bindings_yml (fst bind_home)) (lit "/d") = lit "home".
Proof.
  apply (proj1 (runBind_binds Disk.no_faults env0 (world_with gitconfig_short)
                  (lit "/d") (lit "home") (fst bind_home) env0_ok
                  (pair_eta_snd _ _ (eq_refl (snd bind_home) : _ = Ok tt)))).
Defined.



Lemma runBind_runUnbind_witness :
  exists w2, runUnbind Disk.no_faults env0 (fst bind_home) (lit "/d") = (w2, Ok tt) /\
    bindings_yml w2 = bindings_yml (world_with gitconfig_short) /\
    profiles_yml w2 = profiles_yml (world_with gitconfig_short).
Proof.
  apply (runBind_runUnbind Disk.no_faults env0 (world_with gitconfig_short) (lit "/d")
           (lit "home") (lit "/d") (fst bind_home)).
  - exact env0_ok.
  - intros bp _ H; discriminate H.
  - vm_compute; reflexivity.
  - intros c Hc; vm_compute in Hc;
      destruct Hc as [<-|[<-|[<-|[]]]]; vm_compute; discriminate.
  - apply pair_eta_snd; vm_compute; reflexivity.
Defined.





Lemma repoToDir_last_component_witness :
  repoToDir (lit "github.com/owner/") = [].
Proof.
  apply (proj2 (proj2 (repoToDir_last_component (lit "github.com/owner/")))).
  vm_compute; reflexivity.
Defined.

Definition resolve_a : outcome :=
  Hook.Resolve Quote.go_quote_ascii Disk.no_faults env0 (world_with gitconfig_short)
    (lit "/a/x") (lit "bash").

Lemma Resolve_output_witness :
  exists profiles bindings r p,
    LoadProfiles Disk.no_faults env0 (world_with gitconfig_short) = Ok profiles /\
    ForDirectory env0 (lit "/a/x") bindings (Default profiles) = Ok r /\
    RProfile r <> [] /\
    GetProfile profiles (RProfile r) = Ok p.
Proof.
  destruct (Resolve_output Quote.go_quote_ascii Disk.no_faults env0
              (world_with gitconfig_short) (lit "/a/x") (lit "bash")
              (match resolve_a with Emit s => s | Fail _ _ => [] end)
              go_quote_ascii_no_nl)
    as (profiles & bindings & r & p & H1 & _ & H2 & H3 & H4 & _).
  - vm_compute; reflexivity.
  - vm_compute; discriminate.
  - exists profiles, bindings, r, p; repeat split; assumption.
Defined.

Lemma Resolve_silent_witness :
  Hook.Resolve Quote.go_quote_ascii Disk.no_faults env0
    (mkWorld (mkProfilesFile [] []) [] (fun _ => None)) (lit "/a/x") Fish = Emit [].
Proof.
  apply (proj2 (Resolve_silent Quote.go_quote_ascii Disk.no_faults env0
                  (mkWorld (mkProfilesFile [] []) [] (fun _ => None))
                  (lit "/a/x") Fish)).
  exists (mkProfilesFile [] []), [], (mkResult [] [] false).
  repeat split; vm_compute; reflexivity.
Defined.

End ExtraWitnesses2.
